(** * Axel's Finances: the forecast engine

    A shallow embedding of the forecast engine of the repository
    ([lib/date.ts], [lib/forecast.ts], [lib/forecastView.ts]) and the
    properties its specification states about it.

    Conventions of the embedding.

    - A JavaScript [number] that holds money is a binary64 float
      ([PrimFloat.float]); its arithmetic is the kernel's IEEE arithmetic.
    - A [number] that only ever holds an integer (a component of a date, a
      loop index, an occurrence count) is a [Z] or a [nat]; where the source
      can see [NaN] in such a place the type is [option Z] with [None] for
      [NaN].
    - Strings are [string]; the source only slices and compares them, and the
      relational operators [<], [<=], [>] on strings are the code-unit
      lexicographic order ([String.compare]).
    - [String.prototype.localeCompare] and [Number(string)] belong to the
      host, not to the repository: they are the two fields of the class
      [Runtime].  Of [localeCompare] only what the language requires is
      assumed, and only where a result depends on it: that it is a
      consistent comparison ([Consistent]); distinct strings may tie in it.
      Two instances are used where a definition is evaluated: the code-unit
      order ([plain_runtime]) and a collation that ignores control
      characters and puts letters before their case ([locale_runtime]).
    - A [Date] is a calendar day of the local calendar (the proleptic
      Gregorian calendar, days counted from 1970-01-01) or the invalid date.
      The engine only builds dates at local midnight, so the time of day is
      not represented.  The [Date] constructor reads a year from 0 to 99 as
      1900 to 1999, and a date more than 100,000,000 days from 1970-01-01
      is the invalid date; both are part of the model.
    - The local zone is taken to be UTC where a date is turned into text:
      [toISOString] writes the date in UTC, which east of UTC is the day
      before the local date of a local midnight.  The limit of the range
      is taken on the local day, which a zone moves by less than a day.
      Nothing else in the model depends on the zone. *)

From Stdlib Require Import ZArith List String Ascii Bool Lia Floats.
From Stdlib Require Import Permutation Sorted DecimalString.
From Stdlib Require Import DecimalNat DecimalN DecimalPos Nnat.
Import ListNotations.

Local Open Scope string_scope.
Local Open Scope list_scope.
Local Open Scope Z_scope.

(* ------------------------------------------------------------------------- *)
(** ** The host: numbers *)

Module Num.

Local Open Scope float_scope.

(** [Number.EPSILON] is 2^-52. *)
Definition EPSILON : float := 0x1p-52.

Definition two52 : float := 0x1p52.

(** [Number.isFinite(x)] for an [x] that is a number. *)
Definition isFinite (x : float) : bool := is_finite x.

(** [Number.isFinite(x)] for an [x] that may be [null] or [undefined]:
    anything that is not a number is not finite. *)
Definition isFinite_opt (x : option float) : bool :=
  match x with Some v => isFinite v | None => false end.

(** [x ?? d]. *)
Definition nullish (x : option float) (d : float) : float :=
  match x with Some v => v | None => d end.

(** Truthiness of a number: [NaN], [0] and [-0] are falsy. *)
Definition truthy (x : float) : bool := negb (is_nan x || is_zero x).

(** [x || d] for an [x] that may be [undefined]. *)
Definition or_default (x : option float) (d : float) : float :=
  match x with
  | Some v => if truthy v then v else d
  | None => d
  end.

(** The integral part of a non-negative [a < 2^52]: adding and removing
    2^52 rounds [a] to an integer (to nearest), one too many when it rounded
    up. *)
Definition trunc_abs (a : float) : float :=
  let t := (a + two52) - two52 in
  if a <? t then t - 1 else t.

(** [Math.floor]. Beyond 2^52 every float is an integer. *)
Definition floor (x : float) : float :=
  if negb (is_finite x) || is_zero x || (two52 <=? abs x) then x
  else if 0 <? x then trunc_abs x
  else let t := trunc_abs (abs x) in
       if t =? abs x then x else - (t + 1).

(** [Math.round]: the nearest integer, a tie going up; a result of zero keeps
    the sign of a negative argument. *)
Definition round (x : float) : float :=
  if negb (is_finite x) || is_zero x || (two52 <=? abs x) then x
  else let f := floor x in
       let r := if 0.5 <=? x - f then f + 1 else f in
       if is_zero r && (x <? 0) then neg_zero else r.

(** [Math.min(x, y)]: [NaN] if either is, and [-0] below [+0]. *)
Definition min (x y : float) : float :=
  if is_nan x || is_nan y then nan
  else if x <? y then x
  else if y <? x then y
  else if get_sign x then x else y.

(** [Math.max(x, y)]: [NaN] if either is, and [+0] above [-0]. *)
Definition max (x y : float) : float :=
  if is_nan x || is_nan y then nan
  else if x <? y then y
  else if y <? x then x
  else if get_sign x then y else x.

(** [ToIntegerOrInfinity] followed by the finiteness test the [Date]
    constructor makes: the integer a finite number truncates to, [None] for
    [NaN] and the infinities. *)
Definition to_integer (x : float) : option Z :=
  match Prim2SF x with
  | S754_zero _ => Some 0%Z
  | S754_infinity _ => None
  | S754_nan => None
  | S754_finite s m e =>
      let v := if (0 <=? e)%Z then (Zpos m * 2 ^ e)%Z
               else (Zpos m / 2 ^ (- e))%Z in
      Some (if s then (- v)%Z else v)
  end.

(** Integers or [NaN]: the arithmetic the source does on date components. *)
Definition int := option Z.

Definition add (x y : int) : int :=
  match x, y with Some a, Some b => Some (a + b)%Z | _, _ => None end.

Definition leb (x y : int) : bool :=
  match x, y with Some a, Some b => (a <=? b)%Z | _, _ => false end.

Definition imin (x y : int) : int :=
  match x, y with Some a, Some b => Some (Z.min a b) | _, _ => None end.

End Num.

(* ------------------------------------------------------------------------- *)
(** ** The host: strings *)

Module Str.

(** [a < b], [a <= b], [a > b] on strings. *)
Definition lt (a b : string) : bool := String.ltb a b.
Definition le (a b : string) : bool := String.leb a b.
Definition gt (a b : string) : bool := String.ltb b a.

(** Truthiness of a string: only the empty string is falsy. *)
Definition truthy (s : string) : bool := negb (String.eqb s "").

(** [s.slice(0, n)]. *)
Definition slice0 (n : nat) (s : string) : string := substring 0 n s.

(** [s.split('-')], reading from the left; [cur] is the piece being
    read. *)
Fixpoint split_dash (cur : string) (s : string) : list string :=
  match s with
  | EmptyString => [cur]
  | String c s' =>
      if Ascii.eqb c "-"%char then cur :: split_dash "" s'
      else split_dash (cur ++ String c "")%string s'
  end.

Definition split (s : string) : list string := split_dash "" s.

(** A non-negative integer in decimal: [String(n)], [`${n}`]. *)
Definition of_nat (n : nat) : string :=
  NilEmpty.string_of_uint (Nat.to_uint n).

Fixpoint zeros (n : nat) : string :=
  match n with O => "" | S n' => String "0" (zeros n') end.

(** [String(n).padStart(w, '0')] for a non-negative [n]. *)
Definition pad (w : nat) (n : Z) : string :=
  let s := of_nat (Z.to_nat n) in
  (zeros (w - String.length s) ++ s)%string.

(** The decimal digits of a string, most significant first; [None] when a
    character is not a digit. *)
Fixpoint digits (s : string) (acc : Z) : option Z :=
  match s with
  | EmptyString => Some acc
  | String c s' =>
      let k := Z.of_N (N_of_ascii c) in
      if (48 <=? k)%Z && (k <=? 57)%Z then digits s' (10 * acc + (k - 48))
      else None
  end.

End Str.

(* ------------------------------------------------------------------------- *)
(** ** The host: what the repository takes from its environment *)

(** [Number(s)] (the conversion of a string to a number) and
    [a.localeCompare(b)] (negative, zero or positive). *)
Class Runtime := {
  Number_of_string : string -> float;
  localeCompare : string -> string -> Z
}.

(** What the language requires of [localeCompare]: a consistent comparison,
    the same whichever way round it is asked.  Distinct strings may tie. *)
Class Consistent (R : Runtime) : Prop := {
  collate_antisym : forall a b, localeCompare a b < 0 <-> 0 < localeCompare b a;
  collate_trans : forall a b c,
      localeCompare a b <= 0 -> localeCompare b c <= 0 ->
      localeCompare a c <= 0
}.

Module Plain.

(** [Number(s)] on the strings of decimal digits (the empty string is 0);
    every other string is [NaN] here. *)
Definition number (s : string) : float :=
  match Str.digits s 0 with
  | Some z => SF2Prim (binary_normalize prec emax z 0 false)
  | None => nan
  end.

(** The code-unit order as a collation. *)
Definition collate (a b : string) : Z :=
  match String.compare a b with Lt => -1 | Eq => 0 | Gt => 1 end.

End Plain.

Definition plain_runtime : Runtime :=
  {| Number_of_string := Plain.number; localeCompare := Plain.collate |}.

Module Locale.

(** A collation of the kind hosts have.  Control characters are ignored;
    strings compare by their letters first, whatever the case; strings with
    the same letters compare by case, lower case first. *)
Definition ignorable (c : ascii) : bool :=
  let n := nat_of_ascii c in
  (n <? 9)%nat || ((13 <? n)%nat && (n <? 32)%nat) || (n =? 127)%nat.

Definition is_upper (c : ascii) : bool :=
  let n := nat_of_ascii c in (65 <=? n)%nat && (n <=? 90)%nat.

Definition lower (c : ascii) : ascii :=
  if is_upper c then ascii_of_nat (nat_of_ascii c + 32) else c.

(** The letters of a string. *)
Fixpoint primary (s : string) : string :=
  match s with
  | EmptyString => EmptyString
  | String c s' =>
      if ignorable c then primary s' else String (lower c) (primary s')
  end.

(** The cases of the letters of a string. *)
Fixpoint tertiary (s : string) : string :=
  match s with
  | EmptyString => EmptyString
  | String c s' =>
      if ignorable c then tertiary s'
      else String (if is_upper c then "1"%char else "0"%char) (tertiary s')
  end.

Definition collate (a b : string) : Z :=
  match String.compare (primary a) (primary b) with
  | Lt => -1
  | Gt => 1
  | Eq => Plain.collate (tertiary a) (tertiary b)
  end.

End Locale.

Definition locale_runtime : Runtime :=
  {| Number_of_string := Plain.number; localeCompare := Locale.collate |}.

(* ------------------------------------------------------------------------- *)
(** ** The host: arrays and maps *)

Module Arr.

(** [Array.prototype.sort] is stable.  For a consistent comparator its
    result is the one stable sorted arrangement, which insertion from the
    right computes: an element goes in front of the first element it does
    not compare greater than.  For a comparator that is not consistent the
    language leaves the order to the host; insertion then stands for a host
    that leaves a list alone in which no element compares greater than its
    right neighbour. *)
Fixpoint insert {A} (cmp : A -> A -> Z) (x : A) (l : list A) : list A :=
  match l with
  | [] => [x]
  | y :: l' => if cmp x y <=? 0 then x :: l else y :: insert cmp x l'
  end.

Definition sort {A} (cmp : A -> A -> Z) (l : list A) : list A :=
  fold_right (insert cmp) [] l.

(** [l[l.length - 1]] of a non-empty array. *)
Definition last_opt {A} (l : list A) : option A :=
  match rev l with [] => None | x :: _ => Some x end.

End Arr.

Module JSMap.

(** A [Map] with string keys: entries in the order their keys were first
    set. *)
Definition t (V : Type) := list (string * V).

Definition empty {V} : t V := [].

Fixpoint get {V} (m : t V) (k : string) : option V :=
  match m with
  | [] => None
  | (k', v) :: m' => if String.eqb k' k then Some v else get m' k
  end.

Fixpoint set {V} (m : t V) (k : string) (v : V) : t V :=
  match m with
  | [] => [(k, v)]
  | (k', v') :: m' =>
      if String.eqb k' k then (k', v) :: m' else (k', v') :: set m' k v
  end.

Definition entries {V} (m : t V) : list (string * V) := m.

Definition keys {V} (m : t V) : list string := map fst m.

End JSMap.

Module JSSet.

(** A [Set] of strings: its values in the order they were first added. *)
Definition t := list string.

Definition has (s : t) (k : string) : bool := existsb (String.eqb k) s.

Definition add (s : t) (k : string) : t := if has s k then s else s ++ [k].

(** [new Set(array)]. *)
Definition of_list (l : list string) : t := fold_left add l [].

End JSSet.

(* ------------------------------------------------------------------------- *)
(** ** The host: dates *)

Module JSDate.

Inductive Date := Invalid | At (day : Z).

(** The day number of the civil date [y]-[m]-[d], [m] from 1 to 12: years
    are counted from March in eras of 400 years. *)
Definition days_from_civil (y m d : Z) : Z :=
  let y' := if m <=? 2 then y - 1 else y in
  let era := y' / 400 in
  let yoe := y' - era * 400 in
  let mp := (m + 9) mod 12 in
  let doy := (153 * mp + 2) / 5 + d - 1 in
  let doe := yoe * 365 + yoe / 4 - yoe / 100 + doy in
  era * 146097 + doe - 719468.

(** The civil date (year, month from 1 to 12, day) of a day number. *)
Definition civil_from_days (n : Z) : Z * Z * Z :=
  let z := n + 719468 in
  let era := z / 146097 in
  let doe := z - era * 146097 in
  let yoe := (doe - doe / 1460 + doe / 36524 - doe / 146096) / 365 in
  let doy := doe - (365 * yoe + yoe / 4 - yoe / 100) in
  let mp := (5 * doy + 2) / 153 in
  let d := doy - (153 * mp + 2) / 5 + 1 in
  let m := if mp <? 10 then mp + 3 else mp - 9 in
  (if m <=? 2 then yoe + era * 400 + 1 else yoe + era * 400, m, d).

(** [MakeDay(year, month, date)]: the month index is taken modulo 12 into
    the year, and the day of the month counts on from the first of that
    month, so both may overflow. *)
Definition MakeDay (year month date : Z) : Z :=
  days_from_civil (year + month / 12) (month mod 12 + 1) 1 + date - 1.

(** A year from 0 to 99 given to the [Date] constructor stands for 1900 to
    1999. *)
Definition full_year (y : Z) : Z :=
  if (0 <=? y) && (y <=? 99) then 1900 + y else y.

(** The time values of a [Date] reach 8.64e15 milliseconds, 100,000,000
    days, either side of 1970-01-01. *)
Definition max_day : Z := 100000000.

(** [TimeClip]: a day beyond the range is no date. *)
Definition TimeClip (n : Z) : Date :=
  if (- max_day <=? n) && (n <=? max_day) then At n else Invalid.

(** [new Date(year, monthIndex, day)]. *)
Definition make (year month date : Num.int) : Date :=
  match year, month, date with
  | Some y, Some m, Some d => TimeClip (MakeDay (full_year y) m d)
  | _, _, _ => Invalid
  end.

(** [new Date(year, monthIndex, day)] on numbers that need not be
    integers. *)
Definition make_num (year month date : float) : Date :=
  make (Num.to_integer year) (Num.to_integer month) (Num.to_integer date).

Definition getFullYear (t : Date) : Num.int :=
  match t with
  | Invalid => None
  | At n => let '(y, _, _) := civil_from_days n in Some y
  end.

(** [getMonth()]: from 0 to 11. *)
Definition getMonth (t : Date) : Num.int :=
  match t with
  | Invalid => None
  | At n => let '(_, m, _) := civil_from_days n in Some (m - 1)
  end.

Definition getDate (t : Date) : Num.int :=
  match t with
  | Invalid => None
  | At n => let '(_, _, d) := civil_from_days n in Some d
  end.

(** [t.setDate(d)]: day [d] of the month [t] is in.  The year is taken as
    it is. *)
Definition setDate (t : Date) (d : Num.int) : Date :=
  match getFullYear t, getMonth t, d with
  | Some y, Some m, Some dt => TimeClip (MakeDay y m dt)
  | _, _, _ => Invalid
  end.

(** [Number.isNaN(t.getTime())]. *)
Definition isNaN_time (t : Date) : bool :=
  match t with Invalid => true | At _ => false end.

(** [a > b], [a >= b], [a < b] on dates compare their time values; a
    comparison with an invalid date is false. *)
Definition gt (a b : Date) : bool :=
  match a, b with At x, At y => y <? x | _, _ => false end.
Definition ge (a b : Date) : bool :=
  match a, b with At x, At y => y <=? x | _, _ => false end.
Definition lt (a b : Date) : bool :=
  match a, b with At x, At y => x <? y | _, _ => false end.

(** [t.toISOString()]: the date in UTC, which is taken to be the local date;
    a year outside 0..9999 is written with a sign and six digits; an invalid
    date raises [RangeError] ([None]). *)
Definition toISOString (t : Date) : option string :=
  match t with
  | Invalid => None
  | At n =>
      let '(y, m, d) := civil_from_days n in
      let sign := if y <? 0 then "-" else "+" in
      let ys := if (0 <=? y) && (y <=? 9999) then Str.pad 4 y
                else (sign ++ Str.pad 6 (Z.abs y))%string in
      Some (ys ++ "-" ++ Str.pad 2 m ++ "-" ++ Str.pad 2 d
               ++ "T00:00:00.000Z")%string
  end.

End JSDate.

(* ------------------------------------------------------------------------- *)
(** ** Loops that may stop early or raise *)

Module Loop.

Inductive Step (St : Type) : Type :=
| Continue (s : St)
| Break (s : St)
| Throw.

Arguments Continue {St} s.
Arguments Break {St} s.
Arguments Throw {St}.

(** [for (let i = i0; i < i0 + n; i += 1) body]: the result is the number
    of times the body was entered, counted from [i0], and the state it
    left; [None] when the body raised. *)
Fixpoint for_loop {St} (n : nat) (i : nat) (body : nat -> St -> Step St)
         (s : St) : option (nat * St) :=
  match n with
  | O => Some (i, s)
  | S n' =>
      match body i s with
      | Continue s' => for_loop n' (S i) body s'
      | Break s' => Some (S i, s')
      | Throw => None
      end
  end.

(** [xs.forEach(f)] for a callback that updates a state and may raise. *)
Fixpoint for_each {A St} (f : St -> A -> option St) (xs : list A)
         (s : St) : option St :=
  match xs with
  | [] => Some s
  | x :: xs' =>
      match f s x with
      | Some s' => for_each f xs' s'
      | None => None
      end
  end.

End Loop.

(* ------------------------------------------------------------------------- *)
(** ** [types/index.ts] *)

Inductive PayFrequency := weekly | biweekly | semimonthly | monthly.

Inductive ExpenseRepeat :=
  repeat_none | repeat_weekly | repeat_biweekly | repeat_monthly
| repeat_yearly.

Inductive PaycheckInputMode := mode_net | mode_calculate.
Inductive DeductionType := fixed | percentOfGross.
Inductive GrossInputMode := direct | hourly.

(** The [type] of a forecast event. *)
Inductive EventType := income | expense.

Definition EventType_eqb (a b : EventType) : bool :=
  match a, b with
  | income, income => true
  | expense, expense => true
  | _, _ => false
  end.

(** [DeductionLine] and [TaxWithheldLine] have the same fields. *)
Module DeductionLine.
Record t := mk {
  id : string;
  name : string;
  type : DeductionType;
  value : float
}.
End DeductionLine.

Module PaycheckConfig.
Record t := mk {
  paycheckInputMode : PaycheckInputMode;
  grossInputMode : GrossInputMode;
  netPayAmount : option float;
  grossPayAmount : option float;
  hourlyRate : option float;
  hoursPerWeek : option float;
  pretaxDeductions : list DeductionLine.t;
  taxesWithheld : list DeductionLine.t;
  posttaxDeductions : list DeductionLine.t;
  loanRepaymentAmount : float;
  payFrequency : PayFrequency;
  nextPayDate : string;
  monthlyBonusAmount : option float
}.
End PaycheckConfig.

(** A category is a string at run time, and is compared as one. *)
Module Expense.
Record t := mk {
  id : string;
  name : string;
  amount : float;
  firstDueDate : string;
  variableDatesEnabled : option bool;
  variableDueDates : option (list string);
  repeatCount : option float;
  highlightLastEvent : option bool;
  repeat : ExpenseRepeat;
  category : string;
  notes : option string
}.
End Expense.

Module ForecastEvent.
Record t := mk {
  id : string;
  date : string;
  type : EventType;
  item : string;
  category : string;
  amount : float;
  sourceId : option string
}.
End ForecastEvent.

(** [ForecastRow extends ForecastEvent]. *)
Module ForecastRow.
Record t := mk {
  event : ForecastEvent.t;
  runningBalance : float
}.

(** The fields a row inherits. *)
Definition date (r : t) : string := ForecastEvent.date (event r).
Definition type (r : t) : EventType := ForecastEvent.type (event r).
Definition sourceId (r : t) : option string :=
  ForecastEvent.sourceId (event r).
End ForecastRow.

Module PaydayMetrics.
Record t := mk {
  nextPaydayDate : string;
  balanceOnNextPayday : float;
  lowestBalanceBeforeNextPayday : float;
  safeToSpendUntilNextPayday : float
}.
End PaydayMetrics.

Module NetPayBreakdown.
Record t := mk {
  grossPay : float;
  pretaxTotal : float;
  taxesTotal : float;
  posttaxTotal : float;
  loanRepaymentAmount : float;
  totalWithheldDeducted : float;
  netPay : float
}.
End NetPayBreakdown.

(* ------------------------------------------------------------------------- *)
(** ** [lib/date.ts] *)

Module DateLib.
Section WithRuntime.

Context {R : Runtime}.

Definition startOfDay (date : JSDate.Date) : JSDate.Date :=
  JSDate.make (JSDate.getFullYear date) (JSDate.getMonth date)
              (JSDate.getDate date).

(** [None] when [toISOString] raises. *)
Definition toISODate (date : JSDate.Date) : option string :=
  let d := startOfDay date in
  option_map (Str.slice0 10) (JSDate.toISOString d).

Definition parseISODate (dateString : string) : JSDate.Date :=
  let parts := map Number_of_string (Str.split dateString) in
  let year := nth_error parts 0 in
  let month := nth_error parts 1 in
  let day := nth_error parts 2 in
  match year with
  | Some y =>
      JSDate.make_num y (Num.nullish month 1 - 1)%float (Num.nullish day 1)
  | None => JSDate.Invalid
  end.

Definition addDays (date : JSDate.Date) (days : Z) : JSDate.Date :=
  let next := startOfDay date in
  JSDate.setDate next (Num.add (JSDate.getDate next) (Some days)).

Definition addMonths (date : JSDate.Date) (months : Z) : JSDate.Date :=
  let base := startOfDay date in
  let originalDate := JSDate.getDate base in
  let result :=
    JSDate.make (JSDate.getFullYear base)
                (Num.add (JSDate.getMonth base) (Some months)) (Some 1) in
  let maxDay :=
    JSDate.getDate
      (JSDate.make (JSDate.getFullYear result)
                   (Num.add (JSDate.getMonth result) (Some 1)) (Some 0)) in
  JSDate.setDate result (Num.imin originalDate maxDay).

Definition addYears (date : JSDate.Date) (years : Z) : JSDate.Date :=
  let base := startOfDay date in
  let result :=
    JSDate.make (Num.add (JSDate.getFullYear base) (Some years))
                (JSDate.getMonth base) (Some 1) in
  let maxDay :=
    JSDate.getDate
      (JSDate.make (JSDate.getFullYear result)
                   (Num.add (JSDate.getMonth result) (Some 1)) (Some 0)) in
  JSDate.setDate result (Num.imin (JSDate.getDate base) maxDay).

End WithRuntime.
End DateLib.

(* ------------------------------------------------------------------------- *)
(** ** [lib/forecast.ts] *)

Module Forecast.
Section WithRuntime.

Context {R : Runtime}.

Import DateLib.
Local Open Scope float_scope.

Definition isValidDate (date : JSDate.Date) : bool :=
  negb (JSDate.isNaN_time date).

(** The literal 5000 that bounds both recurrence loops. *)
Definition iterationCap : nat := 5000.

Definition roundToCents (value : float) : float :=
  Num.round ((value + Num.EPSILON) * 100) / 100.

Definition computeGrossPayFromHourly (payFrequency : PayFrequency)
           (hourlyRate hoursPerWeek : option float) : float :=
  if negb (Num.isFinite_opt hourlyRate)
     || negb (Num.isFinite_opt hoursPerWeek)
     || (Num.nullish hourlyRate 0 <=? 0)
     || (Num.nullish hoursPerWeek 0 <=? 0)
  then nan
  else
    let weeklyGross := Num.nullish hourlyRate 0 * Num.nullish hoursPerWeek 0 in
    match payFrequency with
    | weekly => roundToCents weeklyGross
    | biweekly => roundToCents (weeklyGross * 2)
    | semimonthly => roundToCents ((weeklyGross * 52) / 24)
    | monthly => roundToCents ((weeklyGross * 52) / 12)
    end.

(** [sumDeductionLines] and [sumTaxWithheldLines] have the same body. *)
Definition sumDeductionLines (lines : list DeductionLine.t)
           (grossPay : float) : float :=
  fold_left
    (fun sum line =>
       if negb (Num.isFinite (DeductionLine.value line))
          || (DeductionLine.value line <? 0)
       then sum
       else match DeductionLine.type line with
            | percentOfGross =>
                sum + (DeductionLine.value line / 100) * grossPay
            | fixed => sum + DeductionLine.value line
            end)
    lines 0.

Definition sumTaxWithheldLines (lines : list DeductionLine.t)
           (grossPay : float) : float :=
  fold_left
    (fun sum line =>
       if negb (Num.isFinite (DeductionLine.value line))
          || (DeductionLine.value line <? 0)
       then sum
       else match DeductionLine.type line with
            | percentOfGross =>
                sum + (DeductionLine.value line / 100) * grossPay
            | fixed => sum + DeductionLine.value line
            end)
    lines 0.

(** The gross pay of a config in calculate mode. *)
Definition grossPayOf (config : PaycheckConfig.t) : float :=
  match PaycheckConfig.grossInputMode config with
  | hourly =>
      computeGrossPayFromHourly (PaycheckConfig.payFrequency config)
                                (PaycheckConfig.hourlyRate config)
                                (PaycheckConfig.hoursPerWeek config)
  | direct => Num.nullish (PaycheckConfig.grossPayAmount config) nan
  end.

Definition computeNetPayBreakdown (config : PaycheckConfig.t)
  : NetPayBreakdown.t :=
  match PaycheckConfig.paycheckInputMode config with
  | mode_net =>
      let netPay :=
        roundToCents (Num.nullish (PaycheckConfig.netPayAmount config) nan) in
      NetPayBreakdown.mk 0 0 0 0 0 0 netPay
  | mode_calculate =>
      let grossPay := grossPayOf config in
      if negb (Num.isFinite grossPay) || (grossPay <=? 0) then
        NetPayBreakdown.mk grossPay nan nan nan nan nan nan
      else
        let pretaxTotal :=
          sumDeductionLines (PaycheckConfig.pretaxDeductions config) grossPay in
        let taxesTotal :=
          sumTaxWithheldLines (PaycheckConfig.taxesWithheld config) grossPay in
        let posttaxTotal :=
          sumDeductionLines (PaycheckConfig.posttaxDeductions config) grossPay in
        let loanRepaymentAmount :=
          if Num.isFinite (PaycheckConfig.loanRepaymentAmount config)
          then Num.max 0 (PaycheckConfig.loanRepaymentAmount config)
          else nan in
        let totalWithheldDeducted :=
          pretaxTotal + taxesTotal + posttaxTotal + loanRepaymentAmount in
        let netPay := grossPay - totalWithheldDeducted in
        NetPayBreakdown.mk
          (roundToCents grossPay) (roundToCents pretaxTotal)
          (roundToCents taxesTotal) (roundToCents posttaxTotal)
          (roundToCents loanRepaymentAmount)
          (roundToCents totalWithheldDeducted) (roundToCents netPay)
  end.

Definition computeNetPay (config : PaycheckConfig.t) : float :=
  NetPayBreakdown.netPay (computeNetPayBreakdown config).

Definition addSemimonthly (date : JSDate.Date) : JSDate.Date :=
  let day := JSDate.getDate date in
  if Num.leb day (Some 1%Z) then
    JSDate.make (JSDate.getFullYear date) (JSDate.getMonth date) (Some 15%Z)
  else if Num.leb day (Some 15%Z) then
    JSDate.make (JSDate.getFullYear date)
                (Num.add (JSDate.getMonth date) (Some 1%Z)) (Some 1%Z)
  else
    JSDate.make (JSDate.getFullYear date)
                (Num.add (JSDate.getMonth date) (Some 1%Z)) (Some 15%Z).

Definition advanceIncomeDate (date : JSDate.Date) (frequency : PayFrequency)
  : JSDate.Date :=
  match frequency with
  | weekly => addDays date 7
  | biweekly => addDays date 14
  | monthly => addMonths date 1
  | semimonthly => addSemimonthly date
  end.

(** The state of the income walk: [cursor] and [events]. *)
Definition incomeBody (netPayAmount : float)
           (frequency : PayFrequency) (horizonStart horizonEnd : JSDate.Date)
           (i : nat) (st : JSDate.Date * list ForecastEvent.t)
  : Loop.Step (JSDate.Date * list ForecastEvent.t) :=
  let '(cursor, events) := st in
  if JSDate.gt cursor horizonEnd then Loop.Break st
  else
    let pushed :=
      if JSDate.ge cursor horizonStart then
        match toISODate cursor with
        | Some iso =>
            Some (events ++
                  [ForecastEvent.mk
                     ("income-" ++ iso ++ "-" ++ Str.of_nat i)%string
                     iso income "Paycheck" "income" netPayAmount None])
        | None => None
        end
      else Some events in
    match pushed with
    | Some events' =>
        Loop.Continue (advanceIncomeDate cursor frequency, events')
    | None => Loop.Throw
    end.

(** The [for] loop of [generateIncomeEvents]: how many times its body was
    entered, and the cursor and events it left. *)
Definition incomeWalk (config : PaycheckConfig.t)
           (horizonStart horizonEnd : JSDate.Date)
  : option (nat * (JSDate.Date * list ForecastEvent.t)) :=
  Loop.for_loop iterationCap 0
    (incomeBody (computeNetPay config) (PaycheckConfig.payFrequency config)
                horizonStart horizonEnd)
    (parseISODate (PaycheckConfig.nextPayDate config), []).

Definition generateIncomeEvents (config : PaycheckConfig.t)
           (horizonStart horizonEnd : JSDate.Date)
  : option (list ForecastEvent.t) :=
  if negb (Str.truthy (PaycheckConfig.nextPayDate config)) then Some []
  else if negb (Num.isFinite (computeNetPay config)) then Some []
  else if negb (isValidDate
                  (parseISODate (PaycheckConfig.nextPayDate config)))
  then Some []
  else option_map (fun r => snd (snd r))
                  (incomeWalk config horizonStart horizonEnd).

(** [!previous || date > previous] for the entry a month key has. *)
Definition replaces (previous : option string) (date : string) : bool :=
  match previous with
  | None => true
  | Some p => negb (Str.truthy p) || Str.gt date p
  end.

Definition lastPaycheckByMonth (incomeEvents : list ForecastEvent.t)
  : JSMap.t string :=
  fold_left
    (fun m incomeEvent =>
       let monthKey := Str.slice0 7 (ForecastEvent.date incomeEvent) in
       let previous := JSMap.get m monthKey in
       if replaces previous (ForecastEvent.date incomeEvent)
       then JSMap.set m monthKey (ForecastEvent.date incomeEvent)
       else m)
    incomeEvents JSMap.empty.

Definition generateBonusEvents (config : PaycheckConfig.t)
           (incomeEvents : list ForecastEvent.t) : list ForecastEvent.t :=
  let bonusAmount :=
    Num.or_default (PaycheckConfig.monthlyBonusAmount config) 0 in
  if negb (0 <? bonusAmount) then []
  else
    map (fun entry : string * string =>
           let '(monthKey, date) := entry in
           ForecastEvent.mk ("bonus-" ++ monthKey)%string date income
                            "Monthly Bonus" "income" bonusAmount None)
        (Arr.sort (fun a b => localeCompare (fst a) (fst b))
                  (JSMap.entries (lastPaycheckByMonth incomeEvents))).

Definition advanceExpenseDate (date : JSDate.Date) (repeat : ExpenseRepeat)
  : JSDate.Date :=
  match repeat with
  | repeat_none => addYears date 1000
  | repeat_weekly => addDays date 7
  | repeat_biweekly => addDays date 14
  | repeat_monthly => addMonths date 1
  | repeat_yearly => addYears date 1
  end.

(** The test that sends an expense down the variable-dates branch. *)
Definition usesVariableDates (e : Expense.t) : bool :=
  match Expense.variableDatesEnabled e, Expense.variableDueDates e with
  | Some true, Some dates => (0 <? List.length dates)%nat
  | _, _ => false
  end.

(** The callback of [dueDates.forEach] over the dates from position
    [index] on. *)
Fixpoint variableEvents (e : Expense.t)
         (horizonStart horizonEnd : JSDate.Date)
         (index : nat) (dueDates : list string)
         (events : list ForecastEvent.t) : list ForecastEvent.t :=
  match dueDates with
  | [] => events
  | date :: rest =>
      let due := parseISODate date in
      let events' :=
        if negb (isValidDate due) || JSDate.lt due horizonStart
           || JSDate.gt due horizonEnd
        then events
        else events ++
             [ForecastEvent.mk
                ("expense-" ++ Expense.id e ++ "-" ++ date ++ "-variable-"
                   ++ Str.of_nat index)%string
                date expense (Expense.name e) (Expense.category e)
                (Expense.amount e) (Some (Expense.id e))] in
      variableEvents e horizonStart horizonEnd (S index) rest events'
  end.

Definition maxOccurrencesOf (e : Expense.t) : float :=
  match Expense.repeat e with
  | repeat_none => 1
  | _ =>
      if Num.isFinite_opt (Expense.repeatCount e)
         && (0 <? Num.nullish (Expense.repeatCount e) 0)
      then Num.floor (Num.nullish (Expense.repeatCount e) 0)
      else infinity
  end.

Definition is_none (r : ExpenseRepeat) : bool :=
  match r with repeat_none => true | _ => false end.

(** The state of the expense walk: [cursor], [occurrenceIndex] and
    [events]. *)
Definition expenseBody (e : Expense.t) (maxOccurrences : float)
           (horizonStart horizonEnd : JSDate.Date)
           (i : nat) (st : JSDate.Date * float * list ForecastEvent.t)
  : Loop.Step (JSDate.Date * float * list ForecastEvent.t) :=
  let '(cursor, occurrenceIndex, events) := st in
  if maxOccurrences <=? occurrenceIndex then Loop.Break st
  else if JSDate.gt cursor horizonEnd then Loop.Break st
  else
    let pushed :=
      if JSDate.ge cursor horizonStart then
        match toISODate cursor with
        | Some iso =>
            Some (events ++
                  [ForecastEvent.mk
                     ("expense-" ++ Expense.id e ++ "-" ++ iso ++ "-"
                        ++ Str.of_nat i)%string
                     iso expense (Expense.name e) (Expense.category e)
                     (Expense.amount e) (Some (Expense.id e))])
        | None => None
        end
      else Some events in
    match pushed with
    | Some events' =>
        if is_none (Expense.repeat e)
        then Loop.Break (cursor, occurrenceIndex, events')
        else Loop.Continue
               (advanceExpenseDate cursor (Expense.repeat e),
                occurrenceIndex + 1, events')
    | None => Loop.Throw
    end.

(** The [for] loop of the fixed-schedule branch, started with the events
    pushed so far. *)
Definition expenseWalk (e : Expense.t)
           (horizonStart horizonEnd : JSDate.Date)
           (events : list ForecastEvent.t)
  : option (nat * (JSDate.Date * float * list ForecastEvent.t)) :=
  Loop.for_loop iterationCap 0
    (expenseBody e (maxOccurrencesOf e) horizonStart horizonEnd)
    (parseISODate (Expense.firstDueDate e), 0, events).

(** The callback of [expenses.forEach]. *)
Definition expenseCallback (horizonStart horizonEnd : JSDate.Date)
           (events : list ForecastEvent.t) (e : Expense.t)
  : option (list ForecastEvent.t) :=
  if usesVariableDates e then
    let dueDates :=
      Arr.sort localeCompare
               (match Expense.variableDueDates e with
                | Some l => l
                | None => []
                end) in
    Some (variableEvents e horizonStart horizonEnd 0 dueDates events)
  else
    option_map (fun r => snd (snd r))
               (expenseWalk e horizonStart horizonEnd events).

Definition generateExpenseEvents (expenses : list Expense.t)
           (horizonStart horizonEnd : JSDate.Date)
  : option (list ForecastEvent.t) :=
  Loop.for_each (expenseCallback horizonStart horizonEnd) expenses [].

Definition compareEvents (a b : ForecastEvent.t) : Z :=
  if negb (String.eqb (ForecastEvent.date a) (ForecastEvent.date b)) then
    localeCompare (ForecastEvent.date a) (ForecastEvent.date b)
  else if negb (EventType_eqb (ForecastEvent.type a) (ForecastEvent.type b))
  then
    match ForecastEvent.type a with income => (-1)%Z | expense => 1%Z end
  else if EventType_eqb (ForecastEvent.type a) expense
          && EventType_eqb (ForecastEvent.type b) expense
          && negb (String.eqb (ForecastEvent.category a)
                              (ForecastEvent.category b))
  then localeCompare (ForecastEvent.category a) (ForecastEvent.category b)
  else localeCompare (ForecastEvent.item a) (ForecastEvent.item b).

(** The callback of [sorted.map], with the [runningBalance] it closes
    over. *)
Fixpoint annotate (runningBalance : float) (sorted : list ForecastEvent.t)
  : list ForecastRow.t :=
  match sorted with
  | [] => []
  | event :: rest =>
      let runningBalance' :=
        runningBalance +
        match ForecastEvent.type event with
        | income => ForecastEvent.amount event
        | expense => - ForecastEvent.amount event
        end in
      ForecastRow.mk event runningBalance' :: annotate runningBalance' rest
  end.

Definition buildForecast (events : list ForecastEvent.t)
           (startingBalance : float) : list ForecastRow.t :=
  let sorted := Arr.sort compareEvents events in
  annotate startingBalance sorted.

Definition computeNextPaydayMetrics (forecastRows : list ForecastRow.t)
           (nextPaydayDate : string) (minimumBuffer startingBalance : float)
  : PaydayMetrics.t :=
  let rowsUntilPayday :=
    filter (fun row : ForecastRow.t =>
              Str.le (ForecastRow.date row) nextPaydayDate)
           forecastRows in
  let balanceOnNextPayday :=
    match Arr.last_opt rowsUntilPayday with
    | Some row => ForecastRow.runningBalance row
    | None => startingBalance
    end in
  let rowsBeforePaydayIncome :=
    filter (fun row : ForecastRow.t =>
              Str.lt (ForecastRow.date row) nextPaydayDate)
           forecastRows in
  let lowestBalanceBeforeNextPayday :=
    fold_left (fun min row => Num.min min (ForecastRow.runningBalance row))
              rowsBeforePaydayIncome startingBalance in
  PaydayMetrics.mk nextPaydayDate balanceOnNextPayday
                   lowestBalanceBeforeNextPayday
                   (lowestBalanceBeforeNextPayday - minimumBuffer).

End WithRuntime.
End Forecast.

(* ------------------------------------------------------------------------- *)
(** ** [lib/forecastView.ts] *)

Module ForecastView.

Definition toMonthKey (date : string) : string := Str.slice0 7 date.

(** [expense.highlightLastEvent === true]. *)
Definition explicitlyEnabled (e : Expense.t) : bool :=
  match Expense.highlightLastEvent e with
  | Some true => true
  | _ => false
  end.

(** [!row.sourceId]: the source id is absent or the empty string. *)
Definition lacksSourceId (row : ForecastRow.t) : bool :=
  match ForecastRow.sourceId row with
  | Some sid => negb (Str.truthy sid)
  | None => true
  end.

(** The occurrence counts are whole numbers far below 2^53. *)
Definition occurrenceCountBySourceId (forecastRows : list ForecastRow.t)
  : JSMap.t nat :=
  fold_left
    (fun m row =>
       if negb (EventType_eqb (ForecastRow.type row) expense)
          || lacksSourceId row
       then m
       else
         match ForecastRow.sourceId row with
         | Some sid =>
             JSMap.set m sid
                       (match JSMap.get m sid with
                        | Some c => c
                        | None => O
                        end + 1)%nat
         | None => m
         end)
    forecastRows JSMap.empty.

Definition createFiniteExpenseIdSet (expenses : list Expense.t)
           (forecastRows : list ForecastRow.t) : JSSet.t :=
  let hasAnyExplicitHighlightEnabled := existsb explicitlyEnabled expenses in
  let highlightEnabledIds :=
    JSSet.of_list
      (map Expense.id
           (filter (fun e => if hasAnyExplicitHighlightEnabled
                             then explicitlyEnabled e else true)
                   expenses)) in
  JSSet.of_list
    (map fst
         (filter (fun entry : string * nat =>
                    JSSet.has highlightEnabledIds (fst entry)
                    && (1 <? snd entry)%nat)
                 (JSMap.entries (occurrenceCountBySourceId forecastRows)))).

End ForecastView.

(* ------------------------------------------------------------------------- *)
(** ** The vocabulary of the specification *)

Module Spec.

(** The order a comparator stands for: [a] may come before [b]. *)
Definition cmp_le {A} (cmp : A -> A -> Z) (a b : A) : Prop := cmp a b <= 0.

End Spec.

(* ------------------------------------------------------------------------- *)
(** ** The vocabulary of the specification: dates *)

Module SpecDate.

(** The year, the month (1 to 12) and the day of the month of a valid
    date. *)
Definition civil (t : JSDate.Date) : option (Z * Z * Z) :=
  match t with
  | JSDate.Invalid => None
  | JSDate.At n => Some (JSDate.civil_from_days n)
  end.

(** The month that follows month [m] of year [y]. *)
Definition following_month (y m : Z) : Z * Z :=
  if m =? 12 then (y + 1, 1) else (y, m + 1).

(** The days within the range of [Date]. *)
Definition in_range (n : Z) : Prop :=
  - JSDate.max_day <= n <= JSDate.max_day.

(** What a [Date] can hold: the invalid date, or a day within the range. *)
Definition clipped (t : JSDate.Date) : Prop :=
  match t with
  | JSDate.Invalid => True
  | JSDate.At n => in_range n
  end.

(** The days of the years 100 to 275000: the years the [Date] constructor
    takes as they are, short of the end of the range. *)
Definition regular (n : Z) : Prop :=
  let '(y, _, _) := JSDate.civil_from_days n in 100 <= y <= 275000.

End SpecDate.

(* ------------------------------------------------------------------------- *)
(** ** The vocabulary of the specification: expenses and their events *)

Module SpecExpense.
Section WithRuntime.

Context {R : Runtime}.

(** An event that carries the fields of the expense [e] as they are. *)
Definition from_expense (e : Expense.t) (ev : ForecastEvent.t) : Prop :=
  ForecastEvent.type ev = expense
  /\ ForecastEvent.item ev = Expense.name e
  /\ ForecastEvent.category ev = Expense.category e
  /\ ForecastEvent.amount ev = Expense.amount e
  /\ ForecastEvent.sourceId ev = Some (Expense.id e).

(** The expense [e] with other [repeat] and [repeatCount] fields. *)
Definition with_repeat (e : Expense.t) (r : ExpenseRepeat)
           (rc : option float) : Expense.t :=
  Expense.mk (Expense.id e) (Expense.name e) (Expense.amount e)
             (Expense.firstDueDate e) (Expense.variableDatesEnabled e)
             (Expense.variableDueDates e) rc (Expense.highlightLastEvent e)
             r (Expense.category e) (Expense.notes e).

(** The due date [date] is a date, not before the start of the horizon and
    not after its end. *)
Definition within_horizon (horizonStart horizonEnd : JSDate.Date)
           (date : string) : bool :=
  let due := DateLib.parseISODate date in
  Forecast.isValidDate due
  && negb (JSDate.lt due horizonStart)
  && negb (JSDate.gt due horizonEnd).

(** The due dates a variable-dates expense lists. *)
Definition listed_dates (e : Expense.t) : list string :=
  match Expense.variableDueDates e with Some l => l | None => [] end.

(** The expense [e] with another [amount]. *)
Definition with_amount (e : Expense.t) (amount : float) : Expense.t :=
  Expense.mk (Expense.id e) (Expense.name e) amount
             (Expense.firstDueDate e) (Expense.variableDatesEnabled e)
             (Expense.variableDueDates e) (Expense.repeatCount e)
             (Expense.highlightLastEvent e) (Expense.repeat e)
             (Expense.category e) (Expense.notes e).

(** The event [ev] with another [amount]. *)
Definition set_amount (amount : float) (ev : ForecastEvent.t)
  : ForecastEvent.t :=
  ForecastEvent.mk (ForecastEvent.id ev) (ForecastEvent.date ev)
                   (ForecastEvent.type ev) (ForecastEvent.item ev)
                   (ForecastEvent.category ev) amount
                   (ForecastEvent.sourceId ev).

(** The events an expense contributes when it is the only one. *)
Definition own_events (horizonStart horizonEnd : JSDate.Date)
           (e : Expense.t) : list ForecastEvent.t :=
  match Forecast.expenseCallback horizonStart horizonEnd [] e with
  | Some events => events
  | None => []
  end.

(** The amount of a forecast row and the balance after it. *)
Definition row_line (row : ForecastRow.t) : float * float :=
  (ForecastEvent.amount (ForecastRow.event row),
   ForecastRow.runningBalance row).

End WithRuntime.
End SpecExpense.

(* ------------------------------------------------------------------------- *)
(** ** The vocabulary of the specification: the order of the forecast *)

Module SpecOrder.
Section WithRuntime.

Context {R : Runtime}.

Local Open Scope float_scope.

(** [a] sorts strictly before [b] in the order of [localeCompare], and
    [a] and [b] tie in it. *)
Definition str_before (a b : string) : Prop := (localeCompare a b < 0)%Z.
Definition str_tie (a b : string) : Prop := (localeCompare a b = 0)%Z.

(** [a] comes strictly before [b] lexicographically, code unit by code
    unit. *)
Definition lex_before (a b : string) : Prop := Str.lt a b = true.

(** The order of the forecast: by date; on one date income before expense;
    two expenses of one date by category; then by item. *)
Definition event_before (a b : ForecastEvent.t) : Prop :=
  str_before (ForecastEvent.date a) (ForecastEvent.date b)
  \/ (ForecastEvent.date a = ForecastEvent.date b
      /\ ForecastEvent.type a = income /\ ForecastEvent.type b = expense)
  \/ (ForecastEvent.date a = ForecastEvent.date b
      /\ ForecastEvent.type a = expense /\ ForecastEvent.type b = expense
      /\ str_before (ForecastEvent.category a) (ForecastEvent.category b))
  \/ (ForecastEvent.date a = ForecastEvent.date b
      /\ ForecastEvent.type a = ForecastEvent.type b
      /\ (ForecastEvent.type a = expense ->
          ForecastEvent.category a = ForecastEvent.category b)
      /\ str_before (ForecastEvent.item a) (ForecastEvent.item b)).

(** Events the order does not tell apart. *)
Definition event_tie (a b : ForecastEvent.t) : Prop :=
  ForecastEvent.date a = ForecastEvent.date b
  /\ ForecastEvent.type a = ForecastEvent.type b
  /\ (ForecastEvent.type a = expense ->
      ForecastEvent.category a = ForecastEvent.category b)
  /\ str_tie (ForecastEvent.item a) (ForecastEvent.item b).

Definition event_le (a b : ForecastEvent.t) : Prop :=
  event_before a b \/ event_tie a b.

(** The dates of two events do not tie unless they are one date, nor do the
    categories of two expenses of one date unless they are one category. *)
Definition keys_apart (a b : ForecastEvent.t) : Prop :=
  (str_tie (ForecastEvent.date a) (ForecastEvent.date b) ->
   ForecastEvent.date a = ForecastEvent.date b)
  /\ (ForecastEvent.date a = ForecastEvent.date b ->
      ForecastEvent.type a = expense -> ForecastEvent.type b = expense ->
      str_tie (ForecastEvent.category a) (ForecastEvent.category b) ->
      ForecastEvent.category a = ForecastEvent.category b).

Definition keys_tie_free (events : list ForecastEvent.t) : Prop :=
  forall a b, In a events -> In b events -> keys_apart a b.

(** Posting an event to a balance: income is added, an expense
    subtracted. *)
Definition post (balance : float) (ev : ForecastEvent.t) : float :=
  match ForecastEvent.type ev with
  | income => balance + ForecastEvent.amount ev
  | expense => balance - ForecastEvent.amount ev
  end.

(** The balance after the events have posted, from the left. *)
Definition balance_after (startingBalance : float)
           (events : list ForecastEvent.t) : float :=
  fold_left post events startingBalance.

End WithRuntime.
End SpecOrder.

(* ------------------------------------------------------------------------- *)
(** ** The vocabulary of the specification: calendar months *)

Module SpecBonus.

(** The first seven characters of a date text: the year and the month,
    YYYY-MM, of an ISO date with a year of four digits. *)
Definition month_key (date : string) : string := Str.slice0 7 date.

(** The month key of an event. *)
Definition month_of (ev : ForecastEvent.t) : string :=
  month_key (ForecastEvent.date ev).

End SpecBonus.

(* ------------------------------------------------------------------------- *)
(** ** The vocabulary of the specification: the view layer *)

Module SpecView.

(** An expense may have its last event highlighted when it opted in, or when
    no expense of the list did. *)
Definition eligible (expenses : list Expense.t) (e : Expense.t) : Prop :=
  ForecastView.explicitlyEnabled e = true
  \/ (forall e', In e' expenses -> ForecastView.explicitlyEnabled e' = false).

(** The row is an expense row whose source is the expense [id]. *)
Definition occurs (id : string) (row : ForecastRow.t) : bool :=
  EventType_eqb (ForecastRow.type row) expense
  && match ForecastRow.sourceId row with
     | Some sid => String.eqb sid id
     | None => false
     end.

Definition occurrences (id : string) (rows : list ForecastRow.t) : nat :=
  List.length (filter (occurs id) rows).

End SpecView.

(* ------------------------------------------------------------------------- *)
(** ** The calendar, by era: what the proofs about dates compute with *)

Module Calendar.

(** The day of the era of day [d] of month [mp] (March is 0) of year [yoe]
    of the era. *)
Definition doe_of (yoe mp d : Z) : Z :=
  yoe * 365 + yoe / 4 - yoe / 100 + ((153 * mp + 2) / 5 + d - 1).

(** The year of the era, the month counted from March and the day of the month
    of a day of the era. *)
Definition split_doe (doe : Z) : Z * Z * Z :=
  let yoe := (doe - doe / 1460 + doe / 36524 - doe / 146096) / 365 in
  let doy := doe - (365 * yoe + yoe / 4 - yoe / 100) in
  let mp := (5 * doy + 2) / 153 in
  (yoe, mp, doy - (153 * mp + 2) / 5 + 1).

End Calendar.

(* ------------------------------------------------------------------------- *)
(** ** Concrete inputs *)

Module Examples.

Local Open Scope float_scope.

#[local] Existing Instance plain_runtime.

(** The horizon from 2024-01-01 to 2024-02-01, and to 2025-01-01. *)
Definition january_first : JSDate.Date := DateLib.parseISODate "2024-01-01".
Definition february_first : JSDate.Date := DateLib.parseISODate "2024-02-01".
Definition next_january_first : JSDate.Date :=
  DateLib.addMonths january_first 12.

(** A one-off expense due on 2024-01-05. *)
Definition one_off : Expense.t :=
  Expense.mk "e1" "Deposit" 250 "2024-01-05" None None (Some 3) None
             repeat_none "rent" None.

(** A weekly expense from 2024-01-01 on. *)
Definition every_week : Expense.t :=
  Expense.mk "e2" "Groceries" 80 "2024-01-01" None None None None
             repeat_weekly "food" None.

(** Variable dates switched on, with two dates listed. *)
Definition two_dates : Expense.t :=
  Expense.mk "e3" "Tuition" 900 "2024-01-20" (Some true)
             (Some ["2024-01-20"; "2024-01-10"]) None None repeat_none
             "other" None.

(** Variable dates switched on, with no date listed. *)
Definition no_dates : Expense.t :=
  Expense.mk "e4" "Gym" 30 "2024-01-05" (Some true) (Some []) None None
             repeat_weekly "health" None.

(** Expenses whose amount is negative, and not a number. *)
Definition negative_amount : Expense.t :=
  Expense.mk "e5" "Refund" (-5) "2024-01-05" None None None None
             repeat_none "other" None.
Definition nan_amount : Expense.t :=
  Expense.mk "e6" "Unknown" nan "2024-01-05" None None None None
             repeat_none "other" None.

End Examples.

(* ------------------------------------------------------------------------- *)
(** ** Concrete inputs: a payday with rent due *)

Module ExampleEvents.

Local Open Scope float_scope.

Definition rent : ForecastEvent.t :=
  ForecastEvent.mk "expense-e1-2024-01-05-0" "2024-01-05" expense "Rent"
                   "rent" 900 (Some "e1").

Definition paycheck : ForecastEvent.t :=
  ForecastEvent.mk "income-2024-01-05-0" "2024-01-05" income "Paycheck"
                   "income" 1200 None.

Definition paycheck_late : ForecastEvent.t :=
  ForecastEvent.mk "income-2024-01-19-1" "2024-01-19" income "Paycheck"
                   "income" 1200 None.

(** Two expenses of one date and one category, named "apple" and
    "Banana". *)
Definition apple : ForecastEvent.t :=
  ForecastEvent.mk "expense-e2-2024-01-05-0" "2024-01-05" expense "apple"
                   "food" 3 (Some "e2").

Definition banana : ForecastEvent.t :=
  ForecastEvent.mk "expense-e3-2024-01-05-0" "2024-01-05" expense "Banana"
                   "food" 2 (Some "e3").

(** The text 2024-01-05 followed by the control character U+0001, and a
    paycheck dated with it. *)
Definition marked_date : string :=
  ("2024-01-05" ++ String (ascii_of_nat 1) EmptyString)%string.

Definition paycheck_marked : ForecastEvent.t :=
  ForecastEvent.mk "income-marked" marked_date income "Paycheck" "income"
                   1200 None.

End ExampleEvents.

(* ------------------------------------------------------------------------- *)
(** ** Concrete inputs: paycheck configurations *)

Module ExampleConfigs.

Local Open Scope float_scope.

(** Net pay of 1200 every two weeks, with the given monthly bonus. *)
Definition with_bonus (bonus : option float) : PaycheckConfig.t :=
  PaycheckConfig.mk mode_net direct (Some 1200) None None None [] [] [] 0
                    biweekly "2024-01-05" bonus.

End ExampleConfigs.

(* ------------------------------------------------------------------------- *)
(** ** Concrete inputs: rent rows *)

Module ExampleRows.

Local Open Scope float_scope.

(** Two expense rows whose source is the expense with the empty id. *)
Definition unnamed_expense : Expense.t :=
  Expense.mk "" "Rent" 900 "2024-01-05" None None None None repeat_monthly
             "rent" None.

Definition unnamed_rows : list ForecastRow.t :=
  [ForecastRow.mk
     (ForecastEvent.mk "expense--2024-01-05-0" "2024-01-05" expense "Rent"
                       "rent" 900 (Some "")) 100;
   ForecastRow.mk
     (ForecastEvent.mk "expense--2024-02-05-1" "2024-02-05" expense "Rent"
                       "rent" 900 (Some "")) (-800)].

(** The same rows with the source id ["e1"]. *)
Definition named_expense : Expense.t :=
  Expense.mk "e1" "Rent" 900 "2024-01-05" None None None None repeat_monthly
             "rent" None.

Definition named_rows : list ForecastRow.t :=
  [ForecastRow.mk
     (ForecastEvent.mk "expense-e1-2024-01-05-0" "2024-01-05" expense "Rent"
                       "rent" 900 (Some "e1")) 100;
   ForecastRow.mk
     (ForecastEvent.mk "expense-e1-2024-02-05-1" "2024-02-05" expense "Rent"
                       "rent" 900 (Some "e1")) (-800)].

End ExampleRows.

(* ------------------------------------------------------------------------- *)
(** ** [lib/date.ts]: the distance between two dates *)

Module DateDiff.

Definition MS_PER_DAY : Z := 24 * 60 * 60 * 1000.

(** [t.getTime()]: the milliseconds of midnight of the day, [NaN] for the
    invalid date. *)
Definition getTime (t : JSDate.Date) : Num.int :=
  match t with
  | JSDate.Invalid => None
  | JSDate.At n => Some (n * MS_PER_DAY)
  end.

(** [Math.round(a / b)] for integers [a] and [b > 0]: the nearest integer,
    a tie going up.  The time values of two midnights differ by a whole
    number of days, which the division of the source gives exactly. *)
Definition round_div (a b : Z) : Z := (2 * a + b) / (2 * b).

Definition differenceInDays (start end_ : JSDate.Date) : Num.int :=
  let s := getTime (DateLib.startOfDay start) in
  let e := getTime (DateLib.startOfDay end_) in
  match s, e with
  | Some s', Some e' => Some (round_div (e' - s') MS_PER_DAY)
  | _, _ => None
  end.

End DateDiff.

(* ------------------------------------------------------------------------- *)
(** ** The vocabulary of the calendar: leap years and the lengths of months *)

Module SpecCalendar.

Definition leap (y : Z) : bool :=
  (y mod 4 =? 0) && (negb (y mod 100 =? 0) || (y mod 400 =? 0)).

(** The number of days of month [m] (1 to 12) of year [y]. *)
Definition month_length (y m : Z) : Z :=
  if m =? 2 then (if leap y then 29 else 28)
  else if (m =? 4) || (m =? 6) || (m =? 9) || (m =? 11) then 30
  else 31.

(** Month [m] of year [y], [k] months on: the year and the month. *)
Definition month_after (y m k : Z) : Z * Z :=
  (y + (m - 1 + k) / 12, (m - 1 + k) mod 12 + 1).

End SpecCalendar.
(* ------------------------------------------------------------------------- *)
(** ** The vocabulary of ISO dates *)

Module IsoText.

(** The text [toISODate] gives the civil date [y]-[m]-[d] of a year from 0
    to 9999. *)
Definition iso_of (y m d : Z) : string :=
  (Str.pad 4 y ++ "-" ++ Str.pad 2 m ++ "-" ++ Str.pad 2 d)%string.

(** The dates whose year has four digits and is not one of the years 0 to
    99, which the [Date] constructor reads as 1900 to 1999. *)
Definition plain_year (n : Z) : Prop :=
  let '(y, _, _) := JSDate.civil_from_days n in 100 <= y <= 9999.

(** The order of civil dates: by year, then month, then day. *)
Definition civil_compare (a b : Z * Z * Z) : comparison :=
  let '(y1, m1, d1) := a in
  let '(y2, m2, d2) := b in
  match y1 ?= y2 with
  | Eq => match m1 ?= m2 with Eq => d1 ?= d2 | c => c end
  | c => c
  end.

(** [String(n).padStart(w, '0')] computed from the binary digits of [n]:
    what the proofs evaluate in place of [Str.pad]. *)
Definition pad_bin (w : nat) (n : Z) : string :=
  let s := NilEmpty.string_of_uint (N.to_uint (Z.to_N n)) in
  (Str.zeros (w - String.length s) ++ s)%string.

Fixpoint nodash (s : string) : bool :=
  match s with
  | EmptyString => true
  | String c s' => negb (Ascii.eqb c "-"%char) && nodash s'
  end.

(** What is checked of every number [v] written with [w] digits: its
    length, that [split('-')] leaves it whole, that [Number] reads it back,
    and that it sorts before its successor. *)
Definition padded_ok (w : nat) (top v : Z) : bool :=
  (String.length (pad_bin w v) =? w)%nat
  && nodash (pad_bin w v)
  && match Num.to_integer (Plain.number (pad_bin w v)) with
     | Some x => x =? v
     | None => false
     end
  && ((v =? top)
      || match String.compare (pad_bin w v) (pad_bin w (v + 1)) with
         | Lt => true
         | _ => false
         end).

Definition digits10 : list Z := [0; 1; 2; 3; 4; 5; 6; 7; 8; 9].

End IsoText.

(* ========================================================================= *)
(** * Properties *)

(* ------------------------------------------------------------------------- *)
(** ** Sorting *)

Section SortFacts.

Variable A : Type.
Variable cmp : A -> A -> Z.

Lemma insert_perm (x : A) (l : list A) :
  Permutation (Arr.insert cmp x l) (x :: l).
Proof.
  induction l as [|y l IH]; simpl.
  - apply Permutation_refl.
  - destruct (cmp x y <=? 0).
    + apply Permutation_refl.
    + eapply perm_trans; [apply perm_skip, IH | apply perm_swap].
Qed.

Lemma sort_perm (l : list A) : Permutation (Arr.sort cmp l) l.
Proof.
  induction l as [|x l IH]; simpl.
  - constructor.
  - eapply perm_trans; [apply insert_perm | apply perm_skip, IH].
Qed.

Lemma sort_length (l : list A) : List.length (Arr.sort cmp l) = List.length l.
Proof. apply Permutation_length, sort_perm. Qed.

(** The comparator need only be total and transitive on the elements that
    are sorted. *)
Variable P : A -> Prop.
Hypothesis cmp_total :
  forall a b, P a -> P b -> Spec.cmp_le cmp a b \/ Spec.cmp_le cmp b a.
Hypothesis cmp_trans :
  forall a b c, P a -> P b -> P c ->
    Spec.cmp_le cmp a b -> Spec.cmp_le cmp b c -> Spec.cmp_le cmp a c.

Lemma insert_sorted_on (x : A) (l : list A) :
  P x -> Forall P l ->
  StronglySorted (Spec.cmp_le cmp) l ->
  StronglySorted (Spec.cmp_le cmp) (Arr.insert cmp x l).
Proof.
  intros Hx Hl Hs. induction Hs as [|y l Hs IH Hy]; simpl.
  - repeat constructor.
  - inversion Hl as [|y' l' Py Pl]; subst.
    destruct (cmp x y <=? 0) eqn:E.
    + apply Z.leb_le in E. constructor.
      * constructor; assumption.
      * constructor; [exact E|].
        rewrite Forall_forall in Hy, Pl. apply Forall_forall.
        intros z Hz. apply (cmp_trans x y z); auto.
    + apply Z.leb_gt in E. constructor; [exact (IH Pl)|].
      assert (Hyx : Spec.cmp_le cmp y x).
      { destruct (cmp_total x y Hx Py) as [H|H];
          [unfold Spec.cmp_le in H; lia|exact H]. }
      eapply Permutation_Forall;
        [apply Permutation_sym, insert_perm|].
      constructor; assumption.
Qed.

Lemma sort_sorted_on (l : list A) :
  Forall P l -> StronglySorted (Spec.cmp_le cmp) (Arr.sort cmp l).
Proof.
  induction l as [|x l IH]; simpl; intros Hl.
  - constructor.
  - inversion Hl as [|x' l' Px Pl]; subst.
    apply insert_sorted_on; [exact Px| |exact (IH Pl)].
    eapply Permutation_Forall; [apply Permutation_sym, sort_perm|exact Pl].
Qed.

End SortFacts.

Lemma sort_sorted (A : Type) (cmp : A -> A -> Z) :
  (forall a b, Spec.cmp_le cmp a b \/ Spec.cmp_le cmp b a) ->
  (forall a b c,
      Spec.cmp_le cmp a b -> Spec.cmp_le cmp b c -> Spec.cmp_le cmp a c) ->
  forall l, StronglySorted (Spec.cmp_le cmp) (Arr.sort cmp l).
Proof.
  intros Htotal Htrans l.
  apply (sort_sorted_on A cmp (fun _ => True)).
  - intros a b _ _. apply Htotal.
  - intros a b c _ _ _. apply Htrans.
  - apply Forall_forall. auto.
Qed.

(** In a sorted list an element is in order with every later one. *)
Lemma sorted_later (A : Type) (le : A -> A -> Prop)
      (pre : list A) (a : A) (mid : list A) (b : A) (post : list A) :
  StronglySorted le (pre ++ a :: mid ++ b :: post) -> le a b.
Proof.
  induction pre as [|x pre IH]; simpl; intros H.
  - inversion H as [|a' l' _ Hall]; subst.
    rewrite Forall_forall in Hall. apply Hall.
    apply in_or_app. right. left. reflexivity.
  - inversion H; subst. auto.
Qed.

Lemma StronglySorted_impl (A : Type) (P Q : A -> A -> Prop) (l : list A) :
  (forall a b, P a b -> Q a b) -> StronglySorted P l -> StronglySorted Q l.
Proof.
  intros Himp. induction 1 as [|a l Hl IH Ha]; constructor; [exact IH|].
  eapply Forall_impl; [|exact Ha]. intros b. apply Himp.
Qed.

(* ------------------------------------------------------------------------- *)
(** ** Numbers: the order of the floats and [Math.min] *)

Section FloatFacts.

Local Open Scope float_scope.

Ltac cmp_cases :=
  repeat match goal with
  | |- context [Z.compare ?a ?b] => destruct (Z.compare_spec a b)
  | H : context [Z.compare ?a ?b] |- _ => destruct (Z.compare_spec a b)
  | |- context [Pos.compare_cont Eq ?a ?b] =>
      change (Pos.compare_cont Eq a b) with (Pos.compare a b);
      destruct (Pos.compare_spec a b)
  | H : context [Pos.compare_cont Eq ?a ?b] |- _ =>
      change (Pos.compare_cont Eq a b) with (Pos.compare a b) in H;
      destruct (Pos.compare_spec a b)
  end.

Ltac by_cases_on_floats :=
  simpl; try congruence;
  repeat match goal with s : bool |- _ => destruct s end;
  simpl; try congruence;
  cmp_cases; simpl; subst; try congruence; try lia.

Lemma SFcompare_refl a : a <> S754_nan -> SFcompare a a = Some Eq.
Proof.
  destruct a as [s|s| |s m e]; simpl; intros H; try congruence.
  - destruct s; reflexivity.
  - destruct s; rewrite Z.compare_refl, ?Pos.compare_refl; reflexivity.
Qed.

Lemma SFleb_trans a b c :
  SFleb a b = true -> SFleb b c = true -> SFleb a c = true.
Proof.
  unfold SFleb.
  destruct a as [sa|sa| |sa ma ea], b as [sb|sb| |sb mb eb],
           c as [sc|sc| |sc mc ec]; by_cases_on_floats.
Qed.

Lemma SFleb_of_not_ltb a b :
  a <> S754_nan -> b <> S754_nan -> SFltb a b = false -> SFleb b a = true.
Proof.
  unfold SFleb, SFltb.
  destruct a as [sa|sa| |sa ma ea], b as [sb|sb| |sb mb eb];
    by_cases_on_floats.
Qed.

Lemma is_nan_false x : is_nan x = false <-> Prim2SF x <> S754_nan.
Proof.
  unfold is_nan. rewrite eqb_spec. unfold SFeqb. split.
  - intros H E. rewrite E in H. discriminate.
  - intros H. rewrite SFcompare_refl by exact H. reflexivity.
Qed.

Lemma float_leb_refl x : is_nan x = false -> (x <=? x) = true.
Proof.
  intros H. apply is_nan_false in H. rewrite leb_spec. unfold SFleb.
  rewrite SFcompare_refl by exact H. reflexivity.
Qed.

Lemma float_leb_trans x y z :
  (x <=? y) = true -> (y <=? z) = true -> (x <=? z) = true.
Proof. rewrite !leb_spec. apply SFleb_trans. Qed.

Lemma float_ltb_leb x y : (x <? y) = true -> (x <=? y) = true.
Proof.
  rewrite ltb_spec, leb_spec. unfold SFltb, SFleb.
  destruct (SFcompare (Prim2SF x) (Prim2SF y)) as [[]|]; congruence.
Qed.

Lemma float_leb_of_not_ltb x y :
  is_nan x = false -> is_nan y = false ->
  (x <? y) = false -> (y <=? x) = true.
Proof.
  rewrite !is_nan_false, ltb_spec, leb_spec. apply SFleb_of_not_ltb.
Qed.

(** On numbers, [Math.min] picks one of its arguments, and one that is
    below both. *)
Lemma min_cases x y :
  is_nan x = false -> is_nan y = false ->
  (Num.min x y = x \/ Num.min x y = y)
  /\ (Num.min x y <=? x) = true /\ (Num.min x y <=? y) = true.
Proof.
  intros Hx Hy. unfold Num.min. rewrite Hx, Hy. simpl.
  destruct (x <? y) eqn:Exy.
  - repeat split; auto using float_leb_refl, float_ltb_leb.
  - destruct (y <? x) eqn:Eyx.
    + repeat split; auto using float_leb_refl, float_ltb_leb.
    + pose proof (float_leb_of_not_ltb x y Hx Hy Exy).
      pose proof (float_leb_of_not_ltb y x Hy Hx Eyx).
      destruct (get_sign x); repeat split; auto using float_leb_refl.
Qed.

Lemma min_is_nan x y :
  is_nan (Num.min x y) = is_nan x || is_nan y.
Proof.
  unfold Num.min. destruct (is_nan x) eqn:Hx; [reflexivity|].
  destruct (is_nan y) eqn:Hy; [reflexivity|]. simpl.
  destruct (x <? y); [exact Hx|].
  destruct (y <? x); [exact Hy|].
  destruct (get_sign x); assumption.
Qed.

(** Adding the opposite is subtracting. *)
Lemma add_opp x y : x + - y = x - y.
Proof.
  apply Prim2SF_inj. rewrite add_spec, sub_spec, opp_spec.
  destruct (Prim2SF x) as [sx|sx| |sx mx ex],
           (Prim2SF y) as [sy|sy| |sy my ey]; simpl; try reflexivity;
    repeat match goal with s : bool |- _ => destruct s end;
    try reflexivity.
Qed.

End FloatFacts.

(* ------------------------------------------------------------------------- *)
(** ** Lists: the last element of a filtered array, and folds of [Math.min] *)

Section ListFacts.

Variable A : Type.

Lemma last_opt_snoc (l : list A) (x : A) : Arr.last_opt (l ++ [x]) = Some x.
Proof. unfold Arr.last_opt. rewrite rev_app_distr. reflexivity. Qed.

Lemma last_opt_nil : Arr.last_opt (@nil A) = None.
Proof. reflexivity. Qed.

(** The last element that passes a test splits the array: nothing after it
    passes. *)
Lemma last_opt_filter (p : A -> bool) (l : list A) :
  match Arr.last_opt (filter p l) with
  | Some r =>
      exists pre post,
        l = pre ++ r :: post /\ p r = true
        /\ Forall (fun x => p x = false) post
  | None => Forall (fun x => p x = false) l
  end.
Proof.
  induction l as [|x l IH] using rev_ind.
  - simpl. constructor.
  - rewrite filter_app. simpl. destruct (p x) eqn:Hx.
    + rewrite last_opt_snoc. exists l, []. repeat split; auto.
    + rewrite app_nil_r.
      destruct (Arr.last_opt (filter p l)) as [r|].
      * destruct IH as (pre & post & -> & Hr & Hpost).
        exists pre, (post ++ [x]). rewrite <- app_assoc. simpl.
        repeat split; auto.
        apply Forall_app. split; [exact Hpost|]. repeat constructor. exact Hx.
      * apply Forall_app. split; [exact IH|]. repeat constructor. exact Hx.
Qed.

Lemma fold_left_map_arg (B C : Type) (f : C -> B -> C) (g : A -> B)
      (l : list A) (c : C) :
  fold_left (fun acc x => f acc (g x)) l c = fold_left f (map g l) c.
Proof. revert c. induction l as [|x l IH]; simpl; auto. Qed.

End ListFacts.

Section MinFold.

Local Open Scope float_scope.

(** Folding [Math.min] over numbers yields one of them, below all of
    them. *)
Lemma fold_min_spec (xs : list float) (x : float) :
  Forall (fun v => is_nan v = false) (x :: xs) ->
  is_nan (fold_left Num.min xs x) = false
  /\ In (fold_left Num.min xs x) (x :: xs)
  /\ Forall (fun v => (fold_left Num.min xs x <=? v) = true) (x :: xs).
Proof.
  revert x. induction xs as [|y ys IH]; intros x Hall.
  - inversion Hall; subst. simpl. repeat split; auto.
    repeat constructor. apply float_leb_refl. assumption.
  - inversion Hall as [|? ? Hx Hrest]; subst.
    inversion Hrest as [|? ? Hy Hys]; subst.
    destruct (min_cases x y Hx Hy) as (Hsel & Hlx & Hly).
    assert (Hm : is_nan (Num.min x y) = false).
    { rewrite min_is_nan, Hx, Hy. reflexivity. }
    destruct (IH (Num.min x y)) as (Hn & Hin & Hle).
    { constructor; assumption. }
    simpl fold_left. split; [exact Hn|]. split.
    + destruct Hin as [Hin|Hin].
      * rewrite <- Hin. destruct Hsel as [->| ->]; simpl; auto.
      * simpl. auto.
    + inversion Hle as [|? ? Hhead Htail]; subst.
      constructor; [eapply float_leb_trans; eassumption|].
      constructor; [eapply float_leb_trans; eassumption|exact Htail].
Qed.

(** One [NaN] among them makes the fold [NaN]. *)
Lemma fold_min_nan (xs : list float) (x : float) :
  Exists (fun v => is_nan v = true) (x :: xs) ->
  fold_left Num.min xs x = nan.
Proof.
  assert (Hnan : forall l, fold_left Num.min l nan = nan).
  { induction l as [|y l IHl]; simpl; auto. }
  revert x. induction xs as [|y ys IH]; intros x Hex.
  - inversion Hex as [? ? Hx|? ? Hx]; subst; [|inversion Hx].
    simpl. unfold is_nan in Hx.
    apply Prim2SF_inj. apply negb_true_iff in Hx.
    rewrite eqb_spec in Hx. unfold SFeqb in Hx.
    destruct (Prim2SF x) as [s|s| |s m e] eqn:E; try reflexivity;
      rewrite SFcompare_refl in Hx by congruence; discriminate.
  - simpl. inversion Hex as [? ? Hx|? ? Hx]; subst.
    + unfold Num.min at 2. rewrite Hx. simpl. apply Hnan.
    + destruct (is_nan x) eqn:Hx'.
      * unfold Num.min at 2. rewrite Hx'. simpl. apply Hnan.
      * inversion Hx as [? ? Hy|? ? Hy]; subst.
        -- unfold Num.min at 2. rewrite Hx', Hy. simpl. apply Hnan.
        -- apply IH. apply Exists_cons_tl. exact Hy.
Qed.

End MinFold.

(* ------------------------------------------------------------------------- *)
(** ** Pay computation *)

Section NetPay.

Local Open Scope float_scope.
Import Forecast.

(** C4. In calculate mode, when the gross pay (the direct literal, or the
    amount derived from the hourly inputs, as [grossInputMode] says) is not
    finite or is at most zero, [computeNetPayBreakdown] returns the gross
    pay as it is and not-a-number in every other field: the deduction and
    tax lines are not summed. *)
Theorem computeNetPayBreakdown_invalid_gross (config : PaycheckConfig.t) :
  PaycheckConfig.paycheckInputMode config = mode_calculate ->
  Num.isFinite (grossPayOf config) = false
  \/ (grossPayOf config <=? 0) = true ->
  computeNetPayBreakdown config
  = NetPayBreakdown.mk (grossPayOf config) nan nan nan nan nan nan.
Proof.
  intros Hmode Hbad. unfold computeNetPayBreakdown. rewrite Hmode.
  destruct Hbad as [H|H]; rewrite H; simpl; [reflexivity|].
  rewrite orb_true_r. reflexivity.
Qed.

(** A config in calculate mode with no gross pay entered and one tax
    line. *)
Lemma computeNetPayBreakdown_invalid_gross_witness :
  computeNetPayBreakdown
    (PaycheckConfig.mk mode_calculate direct None None None None []
                       [DeductionLine.mk "t1" "Federal withholding"
                                         percentOfGross 12]
                       [] 0 biweekly "2024-01-05" None)
  = NetPayBreakdown.mk nan nan nan nan nan nan nan.
Proof.
  apply (computeNetPayBreakdown_invalid_gross
           (PaycheckConfig.mk mode_calculate direct None None None None []
                              [DeductionLine.mk "t1" "Federal withholding"
                                                percentOfGross 12]
                              [] 0 biweekly "2024-01-05" None)).
  - reflexivity.
  - left. reflexivity.
Defined.

End NetPay.

(* ------------------------------------------------------------------------- *)
(** ** Payday metrics *)

Section PaydayMetricsFacts.

Local Open Scope float_scope.
Import Forecast.

(** C2. [computeNextPaydayMetrics] returns: as the balance on the next
    payday, the running balance of the last row dated on or before the
    payday, or the starting balance when no row is; as the lowest balance
    before the payday, the minimum of the starting balance and the running
    balances of the rows dated strictly before the payday (one of these
    numbers, below all of them; not-a-number as soon as one of them is);
    as safe to spend, that minimum less the buffer.  On the rows dated
    2024-01-05 (balance 100) and 2024-01-10 (balance 80), payday
    2024-01-10, starting balance 50 and buffer 20, they are 80, 50 and
    30. *)
Theorem computeNextPaydayMetrics_spec
        (rows : list ForecastRow.t) (nextPaydayDate : string)
        (minimumBuffer startingBalance : float) :
  let m := computeNextPaydayMetrics rows nextPaydayDate minimumBuffer
                                    startingBalance in
  let before :=
    filter (fun r => Str.lt (ForecastRow.date r) nextPaydayDate) rows in
  let candidates := startingBalance :: map ForecastRow.runningBalance before in
  ((exists pre r post,
       rows = pre ++ r :: post
       /\ Str.le (ForecastRow.date r) nextPaydayDate = true
       /\ Forall (fun r' => Str.le (ForecastRow.date r') nextPaydayDate = false) post
       /\ PaydayMetrics.balanceOnNextPayday m = ForecastRow.runningBalance r)
   \/ (Forall (fun r' => Str.le (ForecastRow.date r') nextPaydayDate = false) rows
       /\ PaydayMetrics.balanceOnNextPayday m = startingBalance))
  /\ (Forall (fun v => is_nan v = false) candidates ->
      In (PaydayMetrics.lowestBalanceBeforeNextPayday m) candidates
      /\ Forall (fun v =>
                   (PaydayMetrics.lowestBalanceBeforeNextPayday m <=? v)
                   = true) candidates)
  /\ (Exists (fun v => is_nan v = true) candidates ->
      PaydayMetrics.lowestBalanceBeforeNextPayday m = nan)
  /\ PaydayMetrics.safeToSpendUntilNextPayday m
     = PaydayMetrics.lowestBalanceBeforeNextPayday m - minimumBuffer
  /\ PaydayMetrics.nextPaydayDate m = nextPaydayDate
  /\ (forall id1 type1 item1 cat1 amt1 src1 id2 type2 item2 cat2 amt2 src2,
         computeNextPaydayMetrics
           [ForecastRow.mk
              (ForecastEvent.mk id1 "2024-01-05" type1 item1 cat1 amt1 src1)
              100;
            ForecastRow.mk
              (ForecastEvent.mk id2 "2024-01-10" type2 item2 cat2 amt2 src2)
              80]
           "2024-01-10" 20 50
         = PaydayMetrics.mk "2024-01-10" 80 50 30).
Proof.
  intros m before candidates.
  split; [|split; [|split; [|split; [|split]]]].
  - subst m. unfold computeNextPaydayMetrics. simpl.
    pose proof (last_opt_filter _
                  (fun row : ForecastRow.t =>
                     Str.le (ForecastRow.date row) nextPaydayDate) rows) as H.
    destruct (Arr.last_opt _) as [r|].
    + left. destruct H as (pre & post & Hrows & Hr & Hpost).
      exists pre, r, post. auto.
    + right. auto.
  - intros Hnum. subst m candidates before.
    unfold computeNextPaydayMetrics. simpl.
    rewrite (fold_left_map_arg _ _ _ Num.min ForecastRow.runningBalance).
    apply fold_min_spec in Hnum. tauto.
  - intros Hnan. subst m candidates before.
    unfold computeNextPaydayMetrics. simpl.
    rewrite (fold_left_map_arg _ _ _ Num.min ForecastRow.runningBalance).
    apply fold_min_nan. exact Hnan.
  - reflexivity.
  - reflexivity.
  - intros. reflexivity.
Qed.

End PaydayMetricsFacts.

(* ------------------------------------------------------------------------- *)
(** ** Dates: day numbers and civil dates determine each other *)

Section CalendarFacts.

Import Calendar.

Lemma split_doe_ok (doe : Z) :
  0 <= doe < 146097 ->
  let '(yoe, mp, d) := split_doe doe in
  0 <= yoe < 400 /\ 0 <= mp < 12 /\ 1 <= d <= 31 /\ doe_of yoe mp d = doe.
Proof.
  intros H. unfold split_doe, doe_of.
  assert (Hy : let yoe := (doe - doe / 1460 + doe / 36524 - doe / 146096) / 365 in
               let doy := doe - (365 * yoe + yoe / 4 - yoe / 100) in
               0 <= yoe < 400 /\ 0 <= doy <= 365).
  { cbv zeta. Z.to_euclidean_division_equations; lia. }
  cbv zeta in Hy.
  set (yoe := (doe - doe / 1460 + doe / 36524 - doe / 146096) / 365) in *.
  set (doy := doe - (365 * yoe + yoe / 4 - yoe / 100)) in *.
  assert (Hm : let mp := (5 * doy + 2) / 153 in
               let d := doy - (153 * mp + 2) / 5 + 1 in
               0 <= mp < 12 /\ 1 <= d <= 31).
  { cbv zeta. destruct Hy as [_ Hd]. clearbody doy.
    Z.to_euclidean_division_equations; lia. }
  cbv zeta in Hm. subst doy. lia.
Qed.

Lemma doe_of_ok (yoe mp d : Z) :
  0 <= yoe < 400 -> 0 <= mp < 12 -> 1 <= d <= 28 ->
  0 <= doe_of yoe mp d < 146097
  /\ split_doe (doe_of yoe mp d) = (yoe, mp, d).
Proof.
  intros Hy Hm Hd. unfold doe_of.
  assert (Hdoy : let doy := (153 * mp + 2) / 5 + d - 1 in
                 0 <= doy <= 364 /\ (5 * doy + 2) / 153 = mp).
  { cbv zeta. Z.to_euclidean_division_equations; lia. }
  cbv zeta in Hdoy.
  set (doy := (153 * mp + 2) / 5 + d - 1) in *.
  destruct Hdoy as [Hdoy Hmp].
  assert (Hdoe : let doe := yoe * 365 + yoe / 4 - yoe / 100 + doy in
                 0 <= doe < 146097
                 /\ (doe - doe / 1460 + doe / 36524 - doe / 146096) / 365
                    = yoe).
  { cbv zeta. clearbody doy. Z.to_euclidean_division_equations; lia. }
  cbv zeta in Hdoe.
  set (doe := yoe * 365 + yoe / 4 - yoe / 100 + doy) in *.
  destruct Hdoe as [Hr Hyoe]. split; [exact Hr|].
  unfold split_doe. rewrite Hyoe.
  replace (doe - (365 * yoe + yoe / 4 - yoe / 100)) with doy
    by (subst doe; lia).
  rewrite Hmp. f_equal. subst doy. lia.
Qed.

(** The month counted from March, and back. *)
Lemma month_of_mp (mp : Z) :
  0 <= mp < 12 ->
  let m := if mp <? 10 then mp + 3 else mp - 9 in
  1 <= m <= 12 /\ (m + 9) mod 12 = mp
  /\ (m <=? 2) = negb (mp <? 10).
Proof.
  intros H. cbv zeta.
  assert (mp = 0 \/ mp = 1 \/ mp = 2 \/ mp = 3 \/ mp = 4 \/ mp = 5 \/ mp = 6
          \/ mp = 7 \/ mp = 8 \/ mp = 9 \/ mp = 10 \/ mp = 11) as Hc by lia.
  repeat (destruct Hc as [->|Hc]; [cbn; repeat split; try reflexivity; lia|]).
  subst mp. cbn. repeat split; try reflexivity; lia.
Qed.

Lemma mp_of_month (m : Z) :
  1 <= m <= 12 ->
  let mp := (m + 9) mod 12 in
  0 <= mp < 12 /\ (if mp <? 10 then mp + 3 else mp - 9) = m.
Proof.
  intros H. cbv zeta.
  assert (m = 1 \/ m = 2 \/ m = 3 \/ m = 4 \/ m = 5 \/ m = 6 \/ m = 7
          \/ m = 8 \/ m = 9 \/ m = 10 \/ m = 11 \/ m = 12) as Hc by lia.
  repeat (destruct Hc as [->|Hc]; [cbn; repeat split; try reflexivity; lia|]).
  subst m. cbn. repeat split; try reflexivity; lia.
Qed.

Lemma days_from_civil_unfold (y m d : Z) :
  JSDate.days_from_civil y m d
  = let y' := if m <=? 2 then y - 1 else y in
    (y' / 400) * 146097
    + doe_of (y' - (y' / 400) * 400) ((m + 9) mod 12) d - 719468.
Proof. reflexivity. Qed.

Lemma civil_from_days_unfold (n : Z) :
  JSDate.civil_from_days n
  = let era := (n + 719468) / 146097 in
    let '(yoe, mp, d) := split_doe (n + 719468 - era * 146097) in
    let m := if mp <? 10 then mp + 3 else mp - 9 in
    (if m <=? 2 then yoe + era * 400 + 1 else yoe + era * 400, m, d).
Proof. reflexivity. Qed.

(** The day of the month counts on from the first. *)
Lemma days_from_civil_day (y m d : Z) :
  JSDate.days_from_civil y m d = JSDate.days_from_civil y m 1 + d - 1.
Proof. rewrite !days_from_civil_unfold. unfold doe_of. cbv zeta. lia. Qed.

(** A day number is the day number of its civil date. *)
Lemma days_from_civil_from_days (n : Z) :
  let '(y, m, d) := JSDate.civil_from_days n in
  1 <= m <= 12 /\ 1 <= d <= 31 /\ JSDate.days_from_civil y m d = n.
Proof.
  rewrite civil_from_days_unfold. cbv zeta.
  set (era := (n + 719468) / 146097).
  set (doe := n + 719468 - era * 146097).
  assert (Hdoe : 0 <= doe < 146097).
  { subst doe era. pose proof (Z.div_mod (n + 719468) 146097 ltac:(lia)).
    pose proof (Z.mod_pos_bound (n + 719468) 146097 ltac:(lia)). lia. }
  pose proof (split_doe_ok doe Hdoe) as Hs.
  destruct (split_doe doe) as [[yoe mp] d].
  destruct Hs as (Hyoe & Hmp & Hd & Hjoin).
  destruct (month_of_mp mp Hmp) as (Hm & Hback & Hjan).
  cbv zeta in Hm, Hback, Hjan.
  set (m := if mp <? 10 then mp + 3 else mp - 9) in *.
  split; [exact Hm|]. split; [lia|].
  rewrite days_from_civil_unfold. cbv zeta. rewrite Hback.
  assert (Hy' : (if m <=? 2
                 then (if m <=? 2 then yoe + era * 400 + 1
                       else yoe + era * 400) - 1
                 else (if m <=? 2 then yoe + era * 400 + 1
                       else yoe + era * 400)) = yoe + era * 400).
  { destruct (m <=? 2); lia. }
  rewrite Hy'.
  assert (Hera : (yoe + era * 400) / 400 = era).
  { symmetry. apply (Z.div_unique _ 400 era yoe); lia. }
  rewrite Hera.
  replace (yoe + era * 400 - era * 400) with yoe by lia.
  subst doe. lia.
Qed.

(** The civil date of the day number of a day up to the 28th is that day. *)
Lemma civil_from_days_from_civil (y m d : Z) :
  1 <= m <= 12 -> 1 <= d <= 28 ->
  JSDate.civil_from_days (JSDate.days_from_civil y m d) = (y, m, d).
Proof.
  intros Hm Hd.
  rewrite days_from_civil_unfold. cbv zeta.
  set (y' := if m <=? 2 then y - 1 else y).
  set (era := y' / 400).
  set (yoe := y' - era * 400).
  assert (Hyoe : 0 <= yoe < 400).
  { subst yoe era. pose proof (Z.div_mod y' 400 ltac:(lia)).
    pose proof (Z.mod_pos_bound y' 400 ltac:(lia)). lia. }
  destruct (mp_of_month m Hm) as (Hmp & Hback). cbv zeta in Hmp, Hback.
  set (mp := (m + 9) mod 12) in *.
  destruct (doe_of_ok yoe mp d Hyoe Hmp Hd) as [Hr Hj].
  rewrite civil_from_days_unfold. cbv zeta.
  set (doe := doe_of yoe mp d) in *.
  assert (He : (era * 146097 + doe - 719468 + 719468) / 146097 = era).
  { symmetry. apply (Z.div_unique _ 146097 era doe); lia. }
  rewrite He.
  replace (era * 146097 + doe - 719468 + 719468 - era * 146097) with doe
    by lia.
  rewrite Hj. rewrite Hback.
  assert (Hy : (if m <=? 2 then yoe + era * 400 + 1 else yoe + era * 400) = y).
  { subst yoe y'. destruct (m <=? 2); lia. }
  rewrite Hy. reflexivity.
Qed.

End CalendarFacts.

(* ------------------------------------------------------------------------- *)
(** ** Dates: the constructor, [startOfDay], [addDays], [toISODate] *)

Section DateFacts.

Import DateLib SpecDate.

Lemma MakeDay_in_year (y mi d : Z) :
  0 <= mi < 12 ->
  JSDate.MakeDay y mi d = JSDate.days_from_civil y (mi + 1) d.
Proof.
  intros H. unfold JSDate.MakeDay.
  rewrite Z.div_small, Z.mod_small by lia.
  rewrite (days_from_civil_day y (mi + 1) d). f_equal. f_equal. f_equal. lia.
Qed.

Lemma MakeDay_december (y d : Z) :
  JSDate.MakeDay y 12 d = JSDate.days_from_civil (y + 1) 1 d.
Proof.
  unfold JSDate.MakeDay. change (12 / 12) with 1. change (12 mod 12 + 1) with 1.
  rewrite (days_from_civil_day (y + 1) 1 d). reflexivity.
Qed.

Lemma TimeClip_in (n : Z) : in_range n -> JSDate.TimeClip n = JSDate.At n.
Proof.
  unfold in_range, JSDate.TimeClip. intros [Hlo Hhi].
  apply Z.leb_le in Hlo, Hhi. rewrite Hlo, Hhi. reflexivity.
Qed.

Lemma TimeClip_cases (n : Z) :
  JSDate.TimeClip n = JSDate.Invalid
  \/ (JSDate.TimeClip n = JSDate.At n /\ in_range n).
Proof.
  unfold JSDate.TimeClip, in_range.
  destruct (- JSDate.max_day <=? n) eqn:Hlo; [|left; reflexivity].
  destruct (n <=? JSDate.max_day) eqn:Hhi; [|left; reflexivity].
  apply Z.leb_le in Hlo, Hhi. right. auto.
Qed.

Lemma TimeClip_clipped (n : Z) : clipped (JSDate.TimeClip n).
Proof.
  destruct (TimeClip_cases n) as [->|[-> H]]; [exact I|exact H].
Qed.

Lemma make_clipped (y m d : Num.int) : clipped (JSDate.make y m d).
Proof.
  unfold JSDate.make. destruct y, m, d; try exact I. apply TimeClip_clipped.
Qed.

Lemma setDate_clipped (t : JSDate.Date) (d : Num.int) :
  clipped (JSDate.setDate t d).
Proof.
  unfold JSDate.setDate.
  destruct (JSDate.getFullYear t), (JSDate.getMonth t), d; try exact I.
  apply TimeClip_clipped.
Qed.

Lemma full_year_id (y : Z) : 100 <= y -> JSDate.full_year y = y.
Proof.
  intros H. unfold JSDate.full_year.
  destruct (y <=? 99) eqn:E; [apply Z.leb_le in E; lia|].
  rewrite andb_false_r. reflexivity.
Qed.

(** The days of the years from -270000 to 275700 are within the range, and
    not near its ends. *)
Lemma civil_bounds (y m d : Z) :
  -270000 <= y <= 275700 -> 1 <= m <= 12 -> 1 <= d <= 31 ->
  -99999000 <= JSDate.days_from_civil y m d <= 99999000.
Proof.
  intros Hy Hm Hd.
  rewrite days_from_civil_unfold. unfold Calendar.doe_of. cbv zeta.
  assert (Hq : 0 <= (153 * ((m + 9) mod 12) + 2) / 5 <= 337)
    by (Z.to_euclidean_division_equations; lia).
  generalize dependent ((153 * ((m + 9) mod 12) + 2) / 5). intros q Hq.
  destruct (m <=? 2); Z.to_euclidean_division_equations; lia.
Qed.

Lemma near_in_range (n k : Z) :
  -99999000 <= n <= 99999000 -> -1000 <= k <= 1000 -> in_range (n + k).
Proof. unfold in_range. change JSDate.max_day with 100000000. lia. Qed.

Lemma civil_in_range (y m d : Z) :
  -270000 <= y <= 275700 -> 1 <= m <= 12 -> 1 <= d <= 31 ->
  in_range (JSDate.days_from_civil y m d).
Proof.
  intros Hy Hm Hd. pose proof (civil_bounds y m d Hy Hm Hd).
  unfold in_range. change JSDate.max_day with 100000000. lia.
Qed.

(** A day of the years 0 to 99 comes before the same day 1900 years on. *)
Lemma legacy_jump (y m d : Z) :
  0 <= y <= 99 -> 1 <= m <= 12 ->
  JSDate.days_from_civil y m d <= JSDate.days_from_civil (1900 + y) m d.
Proof.
  intros Hy Hm. rewrite !days_from_civil_unfold. unfold Calendar.doe_of.
  cbv zeta.
  generalize ((153 * ((m + 9) mod 12) + 2) / 5). intros q.
  destruct (m <=? 2); Z.to_euclidean_division_equations; lia.
Qed.

Lemma regular_in_range (n : Z) : regular n -> in_range n.
Proof.
  unfold regular. pose proof (days_from_civil_from_days n) as H.
  destruct (JSDate.civil_from_days n) as [[y m] d].
  destruct H as (Hm & Hd & Hn). intros Hy. rewrite <- Hn.
  apply civil_in_range; lia.
Qed.

(** The getters of a valid date read its civil date. *)
Lemma getters_At (n : Z) :
  let '(y, m, d) := JSDate.civil_from_days n in
  JSDate.getFullYear (JSDate.At n) = Some y
  /\ JSDate.getMonth (JSDate.At n) = Some (m - 1)
  /\ JSDate.getDate (JSDate.At n) = Some d.
Proof.
  unfold JSDate.getFullYear, JSDate.getMonth, JSDate.getDate.
  destruct (JSDate.civil_from_days n) as [[y m] d]. auto.
Qed.

(** [startOfDay] of a valid date: the day whose year the constructor makes
    of its year. *)
Lemma startOfDay_unfold (n : Z) :
  let '(y, m, d) := JSDate.civil_from_days n in
  startOfDay (JSDate.At n)
  = JSDate.TimeClip (JSDate.days_from_civil (JSDate.full_year y) m d).
Proof.
  pose proof (days_from_civil_from_days n) as H.
  pose proof (getters_At n) as Hg. unfold startOfDay.
  destruct (JSDate.civil_from_days n) as [[y m] d].
  destruct H as (Hm & Hd & Hn). destruct Hg as (-> & -> & ->).
  cbn [JSDate.make]. rewrite MakeDay_in_year by lia.
  replace (m - 1 + 1) with m by lia. reflexivity.
Qed.

Lemma startOfDay_regular (n : Z) :
  regular n -> startOfDay (JSDate.At n) = JSDate.At n.
Proof.
  intros Hr. pose proof (regular_in_range n Hr) as Hin.
  pose proof (startOfDay_unfold n) as H. unfold regular in Hr.
  pose proof (days_from_civil_from_days n) as Hc.
  destruct (JSDate.civil_from_days n) as [[y m] d].
  destruct Hc as (_ & _ & Hn).
  rewrite H, full_year_id by lia. rewrite Hn. apply TimeClip_in. exact Hin.
Qed.

(** [startOfDay] keeps a day within the range valid and does not move it
    back. *)
Lemma startOfDay_forward (n : Z) :
  in_range n ->
  exists n', startOfDay (JSDate.At n) = JSDate.At n' /\ n <= n'
             /\ in_range n'.
Proof.
  intros Hin. pose proof (startOfDay_unfold n) as H.
  pose proof (days_from_civil_from_days n) as Hc.
  destruct (JSDate.civil_from_days n) as [[y m] d].
  destruct Hc as (Hm & Hd & Hn). rewrite H. unfold JSDate.full_year.
  destruct ((0 <=? y) && (y <=? 99)) eqn:E.
  - apply andb_prop in E. destruct E as [E0 E99].
    apply Z.leb_le in E0, E99.
    pose proof (legacy_jump y m d ltac:(lia) Hm) as Hj.
    pose proof (civil_in_range (1900 + y) m d ltac:(lia) Hm Hd) as Hr.
    exists (JSDate.days_from_civil (1900 + y) m d).
    split; [apply TimeClip_in; exact Hr|]. split; [lia|exact Hr].
  - exists n. rewrite Hn. split; [apply TimeClip_in; exact Hin|].
    split; [lia|exact Hin].
Qed.

Lemma startOfDay_clipped (d : JSDate.Date) : clipped (startOfDay d).
Proof. apply make_clipped. Qed.

Lemma startOfDay_Invalid : startOfDay JSDate.Invalid = JSDate.Invalid.
Proof. reflexivity. Qed.

Lemma setDate_At (n k : Z) :
  let '(_, _, d) := JSDate.civil_from_days n in
  JSDate.setDate (JSDate.At n) (Some (d + k)) = JSDate.TimeClip (n + k).
Proof.
  pose proof (days_from_civil_from_days n) as H.
  pose proof (getters_At n) as Hg. unfold JSDate.setDate.
  destruct (JSDate.civil_from_days n) as [[y m] d].
  destruct H as (Hm & Hd & Hn). destruct Hg as (-> & -> & _).
  rewrite MakeDay_in_year by lia. replace (m - 1 + 1) with m by lia.
  rewrite (days_from_civil_day y m (d + k)).
  rewrite (days_from_civil_day y m d) in Hn. f_equal. lia.
Qed.

(** [addDays] from a valid date: that many days from the start of its
    day. *)
Lemma addDays_unfold (n n' k : Z) :
  startOfDay (JSDate.At n) = JSDate.At n' ->
  addDays (JSDate.At n) k = JSDate.TimeClip (n' + k).
Proof.
  intros H. unfold addDays. rewrite H.
  pose proof (setDate_At n' k) as Hs. pose proof (getters_At n') as Hg.
  destruct (JSDate.civil_from_days n') as [[y m] d].
  destruct Hg as (_ & _ & ->). cbn [Num.add]. exact Hs.
Qed.

Lemma addDays_regular (n k : Z) :
  regular n -> addDays (JSDate.At n) k = JSDate.TimeClip (n + k).
Proof.
  intros Hr. apply addDays_unfold. apply startOfDay_regular. exact Hr.
Qed.

(** A step of [k] days from a day within the range leaves no date, or a day
    at least [k] days on. *)
Lemma addDays_forward (n k : Z) :
  in_range n ->
  addDays (JSDate.At n) k = JSDate.Invalid
  \/ exists c, addDays (JSDate.At n) k = JSDate.At c /\ n + k <= c
               /\ in_range c.
Proof.
  intros Hin. destruct (startOfDay_forward n Hin) as (n' & Hs & Hle & _).
  rewrite (addDays_unfold n n' k Hs).
  destruct (TimeClip_cases (n' + k)) as [->|[-> Hr]]; [left; reflexivity|].
  right. exists (n' + k). split; [reflexivity|]. split; [lia|exact Hr].
Qed.

Lemma addDays_Invalid (k : Z) : addDays JSDate.Invalid k = JSDate.Invalid.
Proof. reflexivity. Qed.

Lemma addDays_clipped (d : JSDate.Date) (k : Z) : clipped (addDays d k).
Proof. apply setDate_clipped. Qed.

Lemma addMonths_clipped (d : JSDate.Date) (k : Z) : clipped (addMonths d k).
Proof. apply setDate_clipped. Qed.

Lemma addYears_clipped (d : JSDate.Date) (k : Z) : clipped (addYears d k).
Proof. apply setDate_clipped. Qed.

Lemma parseISODate_clipped {R : Runtime} (s : string) :
  clipped (parseISODate s).
Proof.
  unfold parseISODate.
  destruct (nth_error (map Number_of_string (Str.split s)) 0);
    [apply make_clipped|exact I].
Qed.

(** [toISODate] raises on no date a [Date] can hold but the invalid one. *)
Lemma toISODate_in_range (n : Z) :
  in_range n -> exists iso, toISODate (JSDate.At n) = Some iso.
Proof.
  intros Hin. destruct (startOfDay_forward n Hin) as (n' & Hs & _).
  unfold toISODate. rewrite Hs. unfold JSDate.toISOString.
  destruct (JSDate.civil_from_days n') as [[y m] d]. simpl. eauto.
Qed.

Lemma toISODate_clipped (d hs : JSDate.Date) :
  clipped d -> JSDate.ge d hs = true -> exists iso, toISODate d = Some iso.
Proof.
  destruct d as [|n]; simpl; [discriminate|].
  intros Hin _. apply toISODate_in_range. exact Hin.
Qed.

Lemma getters_of_civil (y m d : Z) :
  1 <= m <= 12 -> 1 <= d <= 28 ->
  JSDate.getFullYear (JSDate.At (JSDate.days_from_civil y m d)) = Some y
  /\ JSDate.getMonth (JSDate.At (JSDate.days_from_civil y m d)) = Some (m - 1)
  /\ JSDate.getDate (JSDate.At (JSDate.days_from_civil y m d)) = Some d.
Proof.
  intros Hm Hd. unfold JSDate.getFullYear, JSDate.getMonth, JSDate.getDate.
  rewrite civil_from_days_from_civil by assumption. auto.
Qed.

Lemma getDate_At (n : Z) : exists d, JSDate.getDate (JSDate.At n) = Some d.
Proof.
  unfold JSDate.getDate.
  destruct (JSDate.civil_from_days n) as [[y m] d]. eauto.
Qed.

(** From a day of a year to the same day of the next: 365 or 366 days. *)
Lemma year_span (y m : Z) :
  1 <= m <= 12 ->
  365 <= JSDate.days_from_civil (y + 1) m 1 - JSDate.days_from_civil y m 1
      <= 366.
Proof.
  intros Hm. rewrite !days_from_civil_unfold. cbv zeta.
  unfold Calendar.doe_of.
  destruct (m <=? 2).
  - replace (y + 1 - 1) with (y - 1 + 1) by lia.
    generalize (y - 1). intros z.
    generalize ((153 * ((m + 9) mod 12) + 2) / 5). intros q.
    Z.to_euclidean_division_equations; lia.
  - generalize ((153 * ((m + 9) mod 12) + 2) / 5). intros q.
    Z.to_euclidean_division_equations; lia.
Qed.

(** The horizon of the application, twelve months from its start, spans at
    most 366 days. *)
Lemma addMonths_12 (a : Z) :
  regular a ->
  exists b, addMonths (JSDate.At a) 12 = JSDate.At b /\ b - a <= 366.
Proof.
  intros Hr. unfold addMonths. rewrite (startOfDay_regular a Hr).
  unfold regular in Hr.
  pose proof (days_from_civil_from_days a) as H.
  pose proof (getters_At a) as Hg.
  destruct (JSDate.civil_from_days a) as [[y m] d].
  destruct H as (Hm & Hd & Ha). destruct Hg as (Hgy & Hgm & Hgd).
  rewrite Hgy, Hgm, Hgd. cbn [Num.add JSDate.make].
  rewrite full_year_id by lia.
  assert (Hfirst : JSDate.MakeDay y (m - 1 + 12) 1
                   = JSDate.days_from_civil (y + 1) m 1).
  { unfold JSDate.MakeDay.
    replace ((m - 1 + 12) / 12) with 1
      by (Z.to_euclidean_division_equations; lia).
    replace ((m - 1 + 12) mod 12 + 1) with m
      by (Z.to_euclidean_division_equations; lia).
    lia. }
  rewrite Hfirst.
  rewrite (TimeClip_in _ (civil_in_range (y + 1) m 1 ltac:(lia) Hm
                                         ltac:(lia))).
  destruct (getters_of_civil (y + 1) m 1 Hm ltac:(lia)) as (Hy & Hmo & _).
  unfold JSDate.setDate at 1. rewrite Hy, Hmo.
  cbn [Num.add JSDate.make]. rewrite full_year_id by lia.
  assert (Hmax : exists md,
             JSDate.getDate
               (JSDate.TimeClip (JSDate.MakeDay (y + 1) (m - 1 + 1) 0))
             = Some md /\ 1 <= md <= 31).
  { replace (m - 1 + 1) with m by lia.
    assert (Hin : in_range (JSDate.MakeDay (y + 1) m 0)).
    { destruct (Z.eq_dec m 12) as [->|Hne].
      - rewrite MakeDay_december.
        rewrite (days_from_civil_day (y + 1 + 1) 1 0).
        replace (JSDate.days_from_civil (y + 1 + 1) 1 1 + 0 - 1)
          with (JSDate.days_from_civil (y + 1 + 1) 1 1 + -1) by lia.
        apply near_in_range; [apply civil_bounds|]; lia.
      - rewrite MakeDay_in_year by lia.
        rewrite (days_from_civil_day (y + 1) (m + 1) 0).
        replace (JSDate.days_from_civil (y + 1) (m + 1) 1 + 0 - 1)
          with (JSDate.days_from_civil (y + 1) (m + 1) 1 + -1) by lia.
        apply near_in_range; [apply civil_bounds|]; lia. }
    rewrite (TimeClip_in _ Hin). unfold JSDate.getDate.
    pose proof (days_from_civil_from_days (JSDate.MakeDay (y + 1) m 0)) as Hc.
    destruct (JSDate.civil_from_days (JSDate.MakeDay (y + 1) m 0))
      as [[y2 m2] d2].
    exists d2. split; [reflexivity|lia]. }
  destruct Hmax as (md & -> & Hmd).
  cbn [Num.imin]. rewrite MakeDay_in_year by lia.
  replace (m - 1 + 1) with m by lia.
  assert (Hres : in_range (JSDate.days_from_civil (y + 1) m (Z.min d md))).
  { apply civil_in_range; lia. }
  rewrite (TimeClip_in _ Hres).
  eexists. split; [reflexivity|].
  rewrite (days_from_civil_day (y + 1) m (Z.min d md)).
  rewrite (days_from_civil_day y m d) in Ha.
  pose proof (year_span y m Hm). lia.
Qed.

Lemma ge_valid (a b : JSDate.Date) :
  JSDate.ge a b = true -> exists n, a = JSDate.At n.
Proof. destruct a as [|n]; simpl; [discriminate|eauto]. Qed.

End DateFacts.

(* ------------------------------------------------------------------------- *)
(** ** The semimonthly step *)

Section Semimonthly.

Import DateLib Forecast SpecDate.

(** X6. The split rule of the semimonthly frequency, for the cursors of the
    years 100 to 275000: from the 1st of a month to the 15th of the same
    month; from the 2nd to the 15th, to the 1st of the following month; from
    the 16th on, to the 15th of the following month. *)
Theorem addSemimonthly_split (n : Z) :
  regular n ->
  let '(y, m, d) := JSDate.civil_from_days n in
  let '(ny, nm) := following_month y m in
  let next := civil (advanceIncomeDate (JSDate.At n) semimonthly) in
  1 <= d
  /\ (d = 1 -> next = Some (y, m, 15))
  /\ (2 <= d <= 15 -> next = Some (ny, nm, 1))
  /\ (16 <= d -> next = Some (ny, nm, 15)).
Proof.
  unfold regular. pose proof (days_from_civil_from_days n) as H.
  unfold advanceIncomeDate, addSemimonthly, JSDate.getFullYear,
    JSDate.getMonth, JSDate.getDate.
  destruct (JSDate.civil_from_days n) as [[y m] d].
  destruct H as (Hm & Hd & Hn). intros Hy.
  assert (Hnext : forall k, 1 <= k <= 28 ->
            let '(ny, nm) := following_month y m in
            civil (JSDate.make (Some y) (Num.add (Some (m - 1)) (Some 1))
                               (Some k))
            = Some (ny, nm, k)).
  { intros k Hk. unfold following_month. cbn [Num.add JSDate.make].
    rewrite full_year_id by lia. replace (m - 1 + 1) with m by lia.
    destruct (m =? 12) eqn:E.
    - apply Z.eqb_eq in E. subst m. rewrite MakeDay_december.
      rewrite TimeClip_in by (apply civil_in_range; lia).
      cbn [civil]. rewrite civil_from_days_from_civil by lia. reflexivity.
    - apply Z.eqb_neq in E. rewrite MakeDay_in_year by lia.
      rewrite TimeClip_in by (apply civil_in_range; lia).
      cbn [civil]. rewrite civil_from_days_from_civil by lia. reflexivity. }
  pose proof (Hnext 1 ltac:(lia)) as H1.
  pose proof (Hnext 15 ltac:(lia)) as H15.
  destruct (following_month y m) as [ny nm].
  cbv zeta. split; [lia|]. simpl Num.leb.
  split; [|split].
  - intros ->. change (1 <=? 1) with true. cbv iota. cbn [JSDate.make].
    rewrite full_year_id by lia. rewrite MakeDay_in_year by lia.
    replace (m - 1 + 1) with m by lia.
    rewrite TimeClip_in by (apply civil_in_range; lia).
    cbn [civil]. rewrite civil_from_days_from_civil by lia. reflexivity.
  - intros Hr. destruct (d <=? 1) eqn:E1; [apply Z.leb_le in E1; lia|].
    destruct (d <=? 15) eqn:E15; [|apply Z.leb_gt in E15; lia].
    exact H1.
  - intros Hr. destruct (d <=? 1) eqn:E1; [apply Z.leb_le in E1; lia|].
    destruct (d <=? 15) eqn:E15; [apply Z.leb_le in E15; lia|].
    exact H15.
Qed.

(** A cursor on 2024-01-31 advances to 2024-02-15. *)
Lemma addSemimonthly_split_witness :
  civil (advanceIncomeDate (JSDate.At 19753) semimonthly) = Some (2024, 2, 15).
Proof.
  pose proof (addSemimonthly_split 19753) as H.
  change (JSDate.civil_from_days 19753) with (2024, 1, 31) in H.
  change (following_month 2024 1) with (2024, 2) in H. cbv zeta in H.
  apply H; [vm_compute; split; discriminate|lia].
Defined.

(** C5, where the code departs from it.  The split rule is right of the
    calendar, but the next occurrence is built with the [Date] constructor,
    which reads a year from 0 to 99 as 1900 to 1999.  The first pay date "100-00-01" is
    read as the 1st of December of the year 99, and the cursor advances from
    it to the 15th of December of 1999, not of the year 99. *)
Theorem advanceIncomeDate_semimonthly_early_year :
  let cursor := @parseISODate plain_runtime "100-00-01" in
  civil cursor = Some (99, 12, 1)
  /\ civil (advanceIncomeDate cursor semimonthly) = Some (1999, 12, 15).
Proof. vm_compute. split; reflexivity. Qed.

End Semimonthly.

(* ------------------------------------------------------------------------- *)
(** ** Loops *)

Section LoopFacts.

Variable St : Type.
Variable body : nat -> St -> Loop.Step St.

Lemma for_loop_S (n i : nat) (s : St) :
  Loop.for_loop (S n) i body s
  = match body i s with
    | Loop.Continue s' => Loop.for_loop n (S i) body s'
    | Loop.Break s' => Some (S i, s')
    | Loop.Throw => None
    end.
Proof. reflexivity. Qed.

Lemma iterationCap_S :
  Forecast.iterationCap = S (Nat.pred Forecast.iterationCap).
Proof. reflexivity. Qed.

Lemma for_loop_cap (i : nat) (s : St) :
  Loop.for_loop Forecast.iterationCap i body s
  = match body i s with
    | Loop.Continue s' =>
        Loop.for_loop (Nat.pred Forecast.iterationCap) (S i) body s'
    | Loop.Break s' => Some (S i, s')
    | Loop.Throw => None
    end.
Proof.
  generalize (Nat.pred Forecast.iterationCap), iterationCap_S.
  intros n ->. reflexivity.
Qed.

(** The body is entered at most [n] times. *)
Lemma for_loop_count (n i k : nat) (s s' : St) :
  Loop.for_loop n i body s = Some (k, s') -> (i <= k <= i + n)%nat.
Proof.
  revert i s. induction n as [|n IH]; intros i s H.
  - simpl in H. inversion H; subst. lia.
  - rewrite for_loop_S in H. destruct (body i s) as [s1|s1|].
    + apply IH in H. lia.
    + inversion H; subst. lia.
    + discriminate.
Qed.

(** A property of the index and the state that every pass of the body keeps,
    without raising, holds when the loop is left, and the loop does not
    raise. *)
Lemma for_loop_invariant (P : nat -> St -> Prop) :
  (forall j s, P j s ->
               match body j s with
               | Loop.Continue s' => P (S j) s'
               | Loop.Break s' => P (S j) s'
               | Loop.Throw => False
               end) ->
  forall n i s, P i s ->
    exists k s', Loop.for_loop n i body s = Some (k, s')
                 /\ (i <= k <= i + n)%nat /\ P k s'.
Proof.
  intros Hstep. induction n as [|n IH]; intros i s HP.
  - exists i, s. simpl. repeat split; auto; lia.
  - rewrite for_loop_S. specialize (Hstep i s HP).
    destruct (body i s) as [s1|s1|].
    + destruct (IH (S i) s1 Hstep) as (k & s' & E & Hk & HP').
      exists k, s'. repeat split; auto; lia.
    + exists (S i), s1. repeat split; auto; lia.
    + contradiction.
Qed.

End LoopFacts.

Section ForEachFacts.

Variables A St : Type.
Variable f : St -> A -> option St.

(** A [forEach] whose callback never raises and keeps a property of the state
    does not raise and keeps it. *)
Lemma for_each_invariant (P : list A -> St -> Prop) :
  (forall done x s, P done s ->
                    exists s', f s x = Some s' /\ P (done ++ [x]) s') ->
  forall xs done s, P done s ->
    exists s', Loop.for_each f xs s = Some s' /\ P (done ++ xs) s'.
Proof.
  intros Hstep. induction xs as [|x xs IH]; intros done s HP.
  - exists s. rewrite app_nil_r. auto.
  - simpl. destruct (Hstep done x s HP) as (s1 & E & HP1). rewrite E.
    destruct (IH (done ++ [x]) s1 HP1) as (s' & E' & HP').
    exists s'. rewrite <- app_assoc in HP'. auto.
Qed.

End ForEachFacts.

(* ------------------------------------------------------------------------- *)
(** ** The expense generator *)

Section ExpenseEvents.

Context {R : Runtime}.
Import DateLib Forecast SpecExpense SpecDate.

Lemma from_expense_pushed (e : Expense.t) (id date : string) :
  from_expense e
    (ForecastEvent.mk id date expense (Expense.name e) (Expense.category e)
                      (Expense.amount e) (Some (Expense.id e))).
Proof. repeat split. Qed.

Lemma with_amount_same (e : Expense.t) : with_amount e (Expense.amount e) = e.
Proof. destruct e. reflexivity. Qed.

Lemma set_amount_same (e : Expense.t) (new : list ForecastEvent.t) :
  Forall (from_expense e) new -> map (set_amount (Expense.amount e)) new = new.
Proof.
  induction 1 as [|ev new Hev _ IH]; simpl; [reflexivity|].
  rewrite IH. destruct Hev as (_ & _ & _ & Ha & _). rewrite <- Ha.
  destruct ev. reflexivity.
Qed.

(** The variable-dates branch pushes one event for each listed date within
    the horizon, in the order of the list; with another amount it pushes the
    same events with that amount. *)
Lemma variableEvents_amount (e : Expense.t) (a : float)
      (hs he : JSDate.Date) (dates : list string) :
  forall (index : nat) (A B : list ForecastEvent.t),
  exists new,
    variableEvents e hs he index dates A = A ++ new
    /\ variableEvents (with_amount e a) hs he index dates B
       = B ++ map (set_amount a) new
    /\ Forall (from_expense e) new
    /\ map ForecastEvent.date new = filter (within_horizon hs he) dates.
Proof.
  induction dates as [|date rest IH]; intros index A B.
  - exists []. simpl. rewrite !app_nil_r. auto.
  - simpl. unfold within_horizon at 1.
    destruct (isValidDate (parseISODate date)); simpl.
    + destruct (JSDate.lt (parseISODate date) hs); simpl.
      * destruct (IH (S index) A B) as (new & E1 & E2 & Hf & Hd).
        exists new. auto.
      * destruct (JSDate.gt (parseISODate date) he); simpl.
        -- destruct (IH (S index) A B) as (new & E1 & E2 & Hf & Hd).
           exists new. auto.
        -- match goal with
           | |- context [variableEvents e _ _ _ _ (A ++ [?ev])] =>
               destruct (IH (S index) (A ++ [ev]) (B ++ [set_amount a ev]))
                 as (new & E1 & E2 & Hf & Hd);
               exists (ev :: new)
           end.
           rewrite E1, <- app_assoc. split; [reflexivity|]. split.
           { etransitivity; [exact E2|]. rewrite <- app_assoc. reflexivity. }
           split.
           ++ constructor; [apply from_expense_pushed|exact Hf].
           ++ simpl. f_equal. exact Hd.
    + destruct (IH (S index) A B) as (new & E1 & E2 & Hf & Hd).
      exists new. auto.
Qed.

Lemma variableEvents_spec (e : Expense.t) (hs he : JSDate.Date)
      (dates : list string) (index : nat) (events : list ForecastEvent.t) :
  exists new,
    variableEvents e hs he index dates events = events ++ new
    /\ Forall (from_expense e) new
    /\ map ForecastEvent.date new = filter (within_horizon hs he) dates.
Proof.
  destruct (variableEvents_amount e (Expense.amount e) hs he dates index
                                  events events)
    as (new & E & _ & Hf & Hd).
  exists new. auto.
Qed.

(** The variable-dates branch reads four fields of the expense. *)
Lemma variableEvents_fields (e e' : Expense.t) (hs he : JSDate.Date) :
  Expense.id e' = Expense.id e ->
  Expense.name e' = Expense.name e ->
  Expense.category e' = Expense.category e ->
  Expense.amount e' = Expense.amount e ->
  forall dates index events,
    variableEvents e' hs he index dates events
    = variableEvents e hs he index dates events.
Proof.
  intros Hid Hname Hcat Hamount.
  induction dates as [|date rest IH]; intros index events.
  - reflexivity.
  - cbn [variableEvents]. rewrite Hid, Hname, Hcat, Hamount. apply IH.
Qed.

Lemma advanceExpenseDate_clipped (d : JSDate.Date) (r : ExpenseRepeat) :
  clipped (advanceExpenseDate d r).
Proof.
  destruct r; simpl;
    first [apply addYears_clipped|apply addDays_clipped
          |apply addMonths_clipped].
Qed.

Lemma addSemimonthly_clipped (d : JSDate.Date) : clipped (addSemimonthly d).
Proof.
  unfold addSemimonthly.
  destruct (Num.leb (JSDate.getDate d) (Some 1)); [apply make_clipped|].
  destruct (Num.leb (JSDate.getDate d) (Some 15)); apply make_clipped.
Qed.

Lemma advanceIncomeDate_clipped (d : JSDate.Date) (f : PayFrequency) :
  clipped (advanceIncomeDate d f).
Proof.
  destruct f; simpl;
    first [apply addDays_clipped|apply addMonths_clipped
          |apply addSemimonthly_clipped].
Qed.

(** One pass of the fixed-schedule walk does not raise, and pushes at most
    one event, an event of the expense; with another amount it takes the
    same turn and pushes the same event with that amount. *)
Lemma expenseBody_amount (e : Expense.t) (a : float) (maxOcc : float)
      (hs he : JSDate.Date) (i : nat)
      (cursor : JSDate.Date) (occ : float) (A B : list ForecastEvent.t) :
  clipped cursor ->
  exists cursor' occ' pushed,
    ((expenseBody e maxOcc hs he i (cursor, occ, A)
      = Loop.Continue (cursor', occ', A ++ pushed)
      /\ expenseBody (with_amount e a) maxOcc hs he i (cursor, occ, B)
         = Loop.Continue (cursor', occ', B ++ map (set_amount a) pushed))
     \/ (expenseBody e maxOcc hs he i (cursor, occ, A)
         = Loop.Break (cursor', occ', A ++ pushed)
         /\ expenseBody (with_amount e a) maxOcc hs he i (cursor, occ, B)
            = Loop.Break (cursor', occ', B ++ map (set_amount a) pushed)))
    /\ clipped cursor'
    /\ (List.length pushed <= 1)%nat
    /\ Forall (from_expense e) pushed.
Proof.
  intros Hc. unfold expenseBody.
  cbn [with_amount Expense.id Expense.name Expense.category Expense.amount
       Expense.repeat].
  destruct (PrimFloat.leb maxOcc occ).
  { exists cursor, occ, []. simpl. rewrite !app_nil_r. auto 10. }
  destruct (JSDate.gt cursor he).
  { exists cursor, occ, []. simpl. rewrite !app_nil_r. auto 10. }
  destruct (JSDate.ge cursor hs) eqn:Hge.
  - destruct (toISODate_clipped cursor hs Hc Hge) as (iso & ->).
    match goal with
    | |- context [A ++ [?ev]] =>
        exists (if is_none (Expense.repeat e) then cursor
                else advanceExpenseDate cursor (Expense.repeat e)),
               (if is_none (Expense.repeat e) then occ
                else PrimFloat.add occ 1), [ev]
    end.
    split; [destruct (is_none (Expense.repeat e)); simpl; auto|].
    split; [destruct (is_none (Expense.repeat e));
            [exact Hc|apply advanceExpenseDate_clipped]|].
    split; [simpl; lia|]. repeat constructor.
  - exists (if is_none (Expense.repeat e) then cursor
            else advanceExpenseDate cursor (Expense.repeat e)),
           (if is_none (Expense.repeat e) then occ else PrimFloat.add occ 1),
           [].
    simpl. rewrite !app_nil_r.
    split; [destruct (is_none (Expense.repeat e)); auto|].
    split; [destruct (is_none (Expense.repeat e));
            [exact Hc|apply advanceExpenseDate_clipped]|].
    split; [lia|]. constructor.
Qed.

Lemma expenseBody_step (e : Expense.t) (maxOcc : float)
      (hs he : JSDate.Date) (i : nat)
      (cursor : JSDate.Date) (occ : float) (events : list ForecastEvent.t) :
  clipped cursor ->
  exists cursor' occ' pushed,
    (expenseBody e maxOcc hs he i (cursor, occ, events)
     = Loop.Continue (cursor', occ', events ++ pushed)
     \/ expenseBody e maxOcc hs he i (cursor, occ, events)
        = Loop.Break (cursor', occ', events ++ pushed))
    /\ clipped cursor'
    /\ (List.length pushed <= 1)%nat
    /\ Forall (from_expense e) pushed.
Proof.
  intros Hc.
  destruct (expenseBody_amount e (Expense.amount e) maxOcc hs he i cursor occ
                               events events Hc)
    as (c' & o' & pushed & [[E _]|[E _]] & H); exists c', o', pushed; auto.
Qed.

(** The passes of the fixed-schedule walk from any state: they do not raise,
    and each pushes at most one event; with another amount the walk makes
    the same passes and pushes the same events with that amount. *)
Lemma expenseLoop_amount (e : Expense.t) (a : float) (hs he : JSDate.Date)
      (n : nat) :
  forall (i : nat) (cursor : JSDate.Date) (occ : float)
         (A B : list ForecastEvent.t),
  clipped cursor ->
  exists k cursor' occ' new,
    Loop.for_loop n i (expenseBody e (maxOccurrencesOf e) hs he)
                  (cursor, occ, A)
    = Some (k, (cursor', occ', A ++ new))
    /\ Loop.for_loop n i
         (expenseBody (with_amount e a) (maxOccurrencesOf e) hs he)
         (cursor, occ, B)
       = Some (k, (cursor', occ', B ++ map (set_amount a) new))
    /\ (i <= k)%nat /\ (k <= i + n)%nat
    /\ (List.length new <= k - i)%nat
    /\ Forall (from_expense e) new.
Proof.
  induction n as [|n IH]; intros i cursor occ A B Hc.
  - exists i, cursor, occ, []. simpl. rewrite !app_nil_r.
    repeat split; auto; lia.
  - rewrite !for_loop_S.
    destruct (expenseBody_amount e a (maxOccurrencesOf e) hs he i cursor occ
                                 A B Hc)
      as (c1 & o1 & pushed & [[E1 E2]|[E1 E2]] & Hc1 & Hp & Hf);
      rewrite E1, E2.
    + destruct (IH (S i) c1 o1 (A ++ pushed) (B ++ map (set_amount a) pushed)
                   Hc1)
        as (k & c' & o' & new & F1 & F2 & Hk1 & Hk2 & Hl & Hfn).
      exists k, c', o', (pushed ++ new).
      rewrite F1, F2, map_app, !app_assoc.
      split; [reflexivity|]. split; [reflexivity|].
      split; [lia|]. split; [lia|].
      split; [rewrite length_app; lia|apply Forall_app; auto].
    + exists (S i), c1, o1, pushed.
      split; [reflexivity|]. split; [reflexivity|].
      split; [lia|]. split; [lia|]. split; [lia|exact Hf].
Qed.

(** The fixed-schedule walk enters its body at most 5000 times and pushes at
    most one event each time. *)
Lemma expenseWalk_spec (e : Expense.t) (hs he : JSDate.Date)
      (events0 : list ForecastEvent.t) :
  exists k cursor occ new,
    expenseWalk e hs he events0 = Some (k, (cursor, occ, events0 ++ new))
    /\ (k <= iterationCap)%nat /\ (List.length new <= k)%nat
    /\ Forall (from_expense e) new.
Proof.
  unfold expenseWalk.
  destruct (expenseLoop_amount e (Expense.amount e) hs he iterationCap 0
              (parseISODate (Expense.firstDueDate e)) 0%float events0 events0
              (parseISODate_clipped _))
    as (k & c & o & new & E & _ & _ & Hk & Hl & Hf).
  exists k, c, o, new. split; [exact E|]. split; [lia|]. split; [lia|exact Hf].
Qed.

(** The callback of [generateExpenseEvents] does not raise; the events it
    pushes are events of its expense, at most 5000 of them on the fixed
    schedule and one for each listed date within the horizon on the other
    branch; with another amount it pushes the same events with that
    amount. *)
Lemma expenseCallback_amount (e : Expense.t) (a : float)
      (hs he : JSDate.Date) (A B : list ForecastEvent.t) :
  exists new,
    expenseCallback hs he A e = Some (A ++ new)
    /\ expenseCallback hs he B (with_amount e a)
       = Some (B ++ map (set_amount a) new)
    /\ Forall (from_expense e) new
    /\ (usesVariableDates e = false -> (List.length new <= iterationCap)%nat)
    /\ (usesVariableDates e = true ->
        map ForecastEvent.date new
        = filter (within_horizon hs he)
                 (Arr.sort localeCompare (listed_dates e))).
Proof.
  unfold expenseCallback.
  change (usesVariableDates (with_amount e a)) with (usesVariableDates e).
  change (Expense.variableDueDates (with_amount e a))
    with (Expense.variableDueDates e).
  destruct (usesVariableDates e).
  - destruct (variableEvents_amount e a hs he
                (Arr.sort localeCompare (listed_dates e)) 0 A B)
      as (new & E1 & E2 & Hf & Hd).
    exists new. unfold listed_dates in E1, E2. rewrite E1, E2.
    split; [reflexivity|]. split; [reflexivity|]. split; [exact Hf|].
    split; [discriminate|]. intros _. exact Hd.
  - unfold expenseWalk.
    change (maxOccurrencesOf (with_amount e a)) with (maxOccurrencesOf e).
    change (Expense.firstDueDate (with_amount e a))
      with (Expense.firstDueDate e).
    destruct (expenseLoop_amount e a hs he iterationCap 0
                (parseISODate (Expense.firstDueDate e)) 0%float A B
                (parseISODate_clipped _))
      as (k & c & o & new & E1 & E2 & _ & Hk & Hl & Hf).
    rewrite E1, E2. exists new.
    split; [reflexivity|]. split; [reflexivity|]. split; [exact Hf|].
    split; [intros _; lia|discriminate].
Qed.

Lemma expenseCallback_spec (e : Expense.t) (hs he : JSDate.Date)
      (events0 : list ForecastEvent.t) :
  exists new,
    expenseCallback hs he events0 e = Some (events0 ++ new)
    /\ Forall (from_expense e) new
    /\ (usesVariableDates e = false -> (List.length new <= iterationCap)%nat).
Proof.
  destruct (expenseCallback_amount e (Expense.amount e) hs he events0 events0)
    as (new & E & _ & Hf & Hl & _).
  exists new. auto.
Qed.

(** What the callback pushes does not depend on the events pushed
    before. *)
Lemma expenseCallback_own (e : Expense.t) (hs he : JSDate.Date)
      (events0 : list ForecastEvent.t) :
  expenseCallback hs he events0 e = Some (events0 ++ own_events hs he e).
Proof.
  destruct (expenseCallback_amount e (Expense.amount e) hs he [] events0)
    as (new & E1 & E2 & Hf & _).
  unfold own_events. rewrite E1. simpl.
  rewrite with_amount_same, (set_amount_same e new Hf) in E2. exact E2.
Qed.

Lemma for_each_own (hs he : JSDate.Date) (expenses : list Expense.t) :
  forall events0,
    Loop.for_each (expenseCallback hs he) expenses events0
    = Some (events0 ++ flat_map (own_events hs he) expenses).
Proof.
  induction expenses as [|e expenses IH]; intros events0; simpl.
  - rewrite app_nil_r. reflexivity.
  - rewrite expenseCallback_own, IH, <- app_assoc. reflexivity.
Qed.

(** The first occurrence of a fixed-schedule expense is pushed when it lies
    within the horizon. *)
Lemma first_occurrence (e : Expense.t) (hs he : JSDate.Date) :
  usesVariableDates e = false ->
  PrimFloat.leb (maxOccurrencesOf e) 0 = false ->
  JSDate.ge (parseISODate (Expense.firstDueDate e)) hs = true ->
  JSDate.gt (parseISODate (Expense.firstDueDate e)) he = false ->
  exists ev rest,
    own_events hs he e = ev :: rest
    /\ Some (ForecastEvent.date ev)
       = toISODate (parseISODate (Expense.firstDueDate e)).
Proof.
  intros Hfixed Hmax Hge Hgt. unfold own_events, expenseCallback, expenseWalk.
  rewrite Hfixed, for_loop_cap. unfold expenseBody at 1.
  rewrite Hmax, Hgt, Hge.
  destruct (toISODate_clipped _ hs (parseISODate_clipped _) Hge)
    as (iso & Hiso).
  rewrite Hiso. destruct (is_none (Expense.repeat e)).
  - eexists _, []. simpl. split; reflexivity.
  - match goal with
    | |- context [Loop.for_loop ?n ?i ?body (?c, ?o, [] ++ [?ev])] =>
        destruct (expenseLoop_amount e (Expense.amount e) hs he n i c o
                    ([] ++ [ev]) [] (advanceExpenseDate_clipped _ _))
          as (k & c' & o' & new & E & _);
        rewrite E; exists ev, new
    end.
    simpl. split; reflexivity.
Qed.

Lemma generateExpenseEvents_spec (expenses : list Expense.t)
      (hs he : JSDate.Date) :
  exists events,
    generateExpenseEvents expenses hs he = Some events
    /\ Forall (fun ev => exists e, In e expenses /\ from_expense e ev) events.
Proof.
  unfold generateExpenseEvents.
  destruct (for_each_invariant _ _ (expenseCallback hs he)
              (fun done events =>
                 Forall (fun ev => exists e, In e done /\ from_expense e ev)
                        events))
    with (xs := expenses) (done := @nil Expense.t)
         (s := @nil ForecastEvent.t) as (events & E & H).
  - intros done e events Hdone.
    destruct (expenseCallback_spec e hs he events) as (new & -> & Hf & _).
    eexists; split; [reflexivity|]. apply Forall_app. split.
    + eapply Forall_impl; [|exact Hdone].
      intros ev (e0 & Hin & H0). exists e0. split; auto.
      apply in_or_app. auto.
    + eapply Forall_impl; [|exact Hf].
      intros ev H0. exists e. split; auto. apply in_or_app. simpl. auto.
  - constructor.
  - exists events. auto.
Qed.

End ExpenseEvents.

(* ------------------------------------------------------------------------- *)
(** ** Boundedness of the recurrence walks *)

Section Boundedness.

Context {R : Runtime}.
Import DateLib Forecast SpecExpense SpecDate.

Lemma incomeBody_step (netPay : float) (freq : PayFrequency)
      (hs he : JSDate.Date) (i : nat)
      (cursor : JSDate.Date) (events : list ForecastEvent.t) :
  clipped cursor ->
  exists cursor' pushed,
    (incomeBody netPay freq hs he i (cursor, events)
     = Loop.Continue (cursor', events ++ pushed)
     \/ incomeBody netPay freq hs he i (cursor, events)
        = Loop.Break (cursor', events ++ pushed))
    /\ clipped cursor'
    /\ (List.length pushed <= 1)%nat.
Proof.
  intros Hc. unfold incomeBody.
  destruct (JSDate.gt cursor he).
  { exists cursor, []. rewrite app_nil_r. simpl. auto. }
  destruct (JSDate.ge cursor hs) eqn:Hge.
  - destruct (toISODate_clipped cursor hs Hc Hge) as (iso & ->).
    eexists _, [_]. split; [left; reflexivity|].
    split; [apply advanceIncomeDate_clipped|simpl; lia].
  - exists (advanceIncomeDate cursor freq), []. rewrite app_nil_r.
    split; [left; reflexivity|].
    split; [apply advanceIncomeDate_clipped|simpl; lia].
Qed.

Lemma incomeWalk_spec (config : PaycheckConfig.t) (hs he : JSDate.Date) :
  exists k cursor events,
    incomeWalk config hs he = Some (k, (cursor, events))
    /\ (k <= iterationCap)%nat /\ (List.length events <= k)%nat.
Proof.
  unfold incomeWalk.
  destruct (for_loop_invariant _
              (incomeBody (computeNetPay config)
                          (PaycheckConfig.payFrequency config) hs he)
              (fun j st => clipped (fst st)
                           /\ (List.length (snd st) <= j)%nat))
    with (n := iterationCap) (i := 0%nat)
         (s := (parseISODate (PaycheckConfig.nextPayDate config),
                @nil ForecastEvent.t))
    as (k & [cursor events] & E & Hk & _ & Hlen).
  - intros j [cursor events] [Hc Hlen]. cbn [fst snd] in Hc, Hlen.
    destruct (incomeBody_step (computeNetPay config)
                (PaycheckConfig.payFrequency config) hs he j cursor events Hc)
      as (c' & pushed & [-> | ->] & Hc' & Hp); cbn [fst snd];
      rewrite length_app; (split; [exact Hc'|lia]).
  - cbn [fst snd]. split; [apply parseISODate_clipped|simpl; lia].
  - exists k, cursor, events. simpl in Hlen.
    split; [exact E|]. split; [lia|exact Hlen].
Qed.

Lemma generateIncomeEvents_spec (config : PaycheckConfig.t)
      (hs he : JSDate.Date) :
  exists events,
    generateIncomeEvents config hs he = Some events
    /\ (List.length events <= iterationCap)%nat.
Proof.
  unfold generateIncomeEvents.
  destruct (negb (Str.truthy _)); [exists []; simpl; split; [auto|lia]|].
  destruct (negb (Num.isFinite _)); [exists []; simpl; split; [auto|lia]|].
  destruct (negb (isValidDate _)); [exists []; simpl; split; [auto|lia]|].
  destruct (incomeWalk_spec config hs he) as (k & c & events & -> & Hk & Hl).
  exists events. simpl. split; [auto|lia].
Qed.

(** A weekly expense over a horizon of at most 366 days: the events pushed
    are a week or more apart from the first one on. *)
Lemma weekly_walk_bound (e : Expense.t) (a b : Z)
      (events0 : list ForecastEvent.t) :
  Expense.repeat e = repeat_weekly ->
  b - a <= 366 ->
  exists k cursor occ new,
    expenseWalk e (JSDate.At a) (JSDate.At b) events0
    = Some (k, (cursor, occ, events0 ++ new))
    /\ (List.length new <= 53)%nat.
Proof.
  intros Hweekly Hyear. unfold expenseWalk.
  pose (Q := fun (j : nat)
                 (st : JSDate.Date * float * list ForecastEvent.t) =>
               exists new,
                 snd st = events0 ++ new
                 /\ Z.of_nat (List.length new) <= 53
                 /\ (fst (fst st) = JSDate.Invalid
                     \/ exists c,
                         fst (fst st) = JSDate.At c
                         /\ in_range c
                         /\ (new = []
                             \/ a + 7 * Z.of_nat (List.length new) <= c))).
  destruct (for_loop_invariant _
              (expenseBody e (maxOccurrencesOf e) (JSDate.At a) (JSDate.At b))
              Q)
    with (n := iterationCap) (i := 0%nat)
         (s := (parseISODate (Expense.firstDueDate e), 0%float, events0))
    as (k & [[cursor occ] events] & E & Hk & new & Hev & Hlen & _).
  - intros j [[cursor occ] events] (new & Hev & Hlen & Hq).
    cbn [fst snd] in Hev, Hq.
    subst events. unfold expenseBody. rewrite Hweekly. simpl is_none.
    cbv iota.
    destruct (PrimFloat.leb (maxOccurrencesOf e) occ).
    { exists new. cbn [fst snd]. auto. }
    destruct Hq as [->|(c & -> & Hin & Hgap)].
    + simpl. exists new. cbn [fst snd]. auto.
    + simpl JSDate.gt. destruct (b <? c) eqn:Hb.
      { exists new. cbn [fst snd]. split; [reflexivity|]. split; [exact Hlen|].
        right. exists c. auto. }
      apply Z.ltb_ge in Hb. simpl JSDate.ge.
      unfold advanceExpenseDate.
      destruct (a <=? c) eqn:Ha.
      * apply Z.leb_le in Ha.
        destruct (toISODate_in_range c Hin) as (iso & ->).
        eexists (new ++ [_]). cbn [fst snd]. rewrite <- app_assoc.
        split; [reflexivity|]. rewrite length_app, Nat2Z.inj_add.
        change (Z.of_nat (List.length [_])) with 1.
        assert (Hnew : Z.of_nat (List.length new) + 1 <= 53).
        { destruct Hgap as [-> | Hgap]; [simpl; lia|lia]. }
        split; [exact Hnew|].
        destruct (addDays_forward c 7 Hin) as [->|(c' & -> & Hc' & Hin')];
          [left; reflexivity|].
        right. exists c'. split; [reflexivity|]. split; [exact Hin'|].
        right. destruct Hgap as [-> | Hgap]; [simpl; lia|lia].
      * apply Z.leb_gt in Ha. exists new. cbn [fst snd].
        split; [reflexivity|]. split; [exact Hlen|].
        destruct (addDays_forward c 7 Hin) as [->|(c' & -> & Hc' & Hin')];
          [left; reflexivity|].
        right. exists c'. split; [reflexivity|]. split; [exact Hin'|].
        destruct Hgap as [-> | Hgap]; [left; reflexivity|right; lia].
  - exists []. cbn [fst snd]. rewrite app_nil_r. split; [reflexivity|].
    split; [simpl; lia|].
    pose proof (parseISODate_clipped (Expense.firstDueDate e)) as Hc.
    destruct (parseISODate (Expense.firstDueDate e)) as [|c].
    + left. reflexivity.
    + right. exists c. split; [reflexivity|]. split; [exact Hc|auto].
  - cbn [fst snd] in Hev. subst events. exists k, cursor, occ, new.
    split; [exact E|]. lia.
Qed.

(** C3. Every recurrence walk enters its body at most 5000 times, whatever
    the body does, so the generators always return: an income stream and a
    fixed-schedule expense contribute at most 5000 events each, and a weekly
    expense contributes at most 53 events to a horizon of at most 366 days,
    such as the twelve months from a start in the years 100 to 275000; a
    year that starts on the first due date gets the 53. *)
Theorem recurrence_walks_bounded :
  iterationCap = 5000%nat
  /\ (forall (St : Type) (body : nat -> St -> Loop.Step St) (s s' : St)
             (k : nat),
         Loop.for_loop iterationCap 0 body s = Some (k, s') ->
         (k <= 5000)%nat)
  /\ (forall config hs he,
         exists k cursor events,
           incomeWalk config hs he = Some (k, (cursor, events))
           /\ (k <= 5000)%nat /\ (List.length events <= 5000)%nat)
  /\ (forall config hs he,
         exists events,
           generateIncomeEvents config hs he = Some events
           /\ (List.length events <= 5000)%nat)
  /\ (forall e hs he events0,
         exists k cursor occ new,
           expenseWalk e hs he events0
           = Some (k, (cursor, occ, events0 ++ new))
           /\ (k <= 5000)%nat /\ (List.length new <= 5000)%nat)
  /\ (forall e hs he events0,
         usesVariableDates e = false ->
         exists new,
           expenseCallback hs he events0 e = Some (events0 ++ new)
           /\ (List.length new <= 5000)%nat)
  /\ (forall expenses hs he,
         exists events, generateExpenseEvents expenses hs he = Some events)
  /\ (forall e a b,
         usesVariableDates e = false ->
         Expense.repeat e = repeat_weekly ->
         b - a <= 366 ->
         exists events,
           generateExpenseEvents [e] (JSDate.At a) (JSDate.At b) = Some events
           /\ (List.length events <= 53)%nat)
  /\ (forall e a,
         regular a ->
         usesVariableDates e = false ->
         Expense.repeat e = repeat_weekly ->
         exists events,
           generateExpenseEvents [e] (JSDate.At a)
                                 (addMonths (JSDate.At a) 12)
           = Some events
           /\ (List.length events <= 53)%nat)
  /\ option_map (@List.length ForecastEvent.t)
       (@generateExpenseEvents plain_runtime [Examples.every_week]
          Examples.january_first Examples.next_january_first)
     = Some 53%nat.
Proof.
  assert (Hweek : forall e a b,
             usesVariableDates e = false ->
             Expense.repeat e = repeat_weekly ->
             b - a <= 366 ->
             exists events,
               generateExpenseEvents [e] (JSDate.At a) (JSDate.At b)
               = Some events
               /\ (List.length events <= 53)%nat).
  { intros e a b Hfixed Hweekly Hyear.
    unfold generateExpenseEvents. simpl. unfold expenseCallback.
    rewrite Hfixed.
    destruct (weekly_walk_bound e a b [] Hweekly Hyear)
      as (k & c & occ & new & -> & Hl).
    exists new. simpl. auto. }
  split; [reflexivity|].
  split; [|split; [|split; [|split; [|split; [|split; [|split; [|split]]]]]]];
    [| | | | | |exact Hweek
     |intros e a Hreg Hfixed Hweekly;
      destruct (addMonths_12 a Hreg) as (b & -> & Hspan);
      apply Hweek; assumption
     |vm_compute; reflexivity].
  - intros St body s s' k H. apply for_loop_count in H.
    unfold iterationCap in H. lia.
  - intros config hs he.
    destruct (incomeWalk_spec config hs he) as (k & c & events & E & Hk & Hl).
    exists k, c, events. unfold iterationCap in Hk.
    split; [exact E|]. split; lia.
  - intros config hs he.
    destruct (generateIncomeEvents_spec config hs he) as (events & E & Hl).
    exists events. unfold iterationCap in Hl. auto.
  - intros e hs he events0.
    destruct (expenseWalk_spec e hs he events0)
      as (k & c & occ & new & E & Hk & Hl & _).
    exists k, c, occ, new. unfold iterationCap in Hk.
    split; [exact E|]. split; lia.
  - intros e hs he events0 Hfixed.
    destruct (expenseCallback_spec e hs he events0) as (new & E & _ & Hl).
    exists new. specialize (Hl Hfixed). unfold iterationCap in Hl. auto.
  - intros expenses hs he.
    destruct (generateExpenseEvents_spec expenses hs he) as (events & E & _).
    eauto.
Qed.

End Boundedness.

(* ------------------------------------------------------------------------- *)
(** ** One-off expenses, variable dates, and the amount of an event *)

Section ExpenseClaims.

Import DateLib Forecast SpecExpense.

(** C8. A fixed-schedule expense with [repeat = 'none'] has one occurrence
    whatever its [repeatCount]: the cap on occurrences is 1, the walk makes
    one pass and leaves the cursor on the anchor date, and it pushes the one
    event of the anchor date when that date lies within the horizon, and no
    event otherwise. *)
Theorem repeat_none_single_occurrence
        {R : Runtime} (e : Expense.t) (hs he : JSDate.Date)
        (events0 : list ForecastEvent.t) :
  usesVariableDates e = false ->
  Expense.repeat e = repeat_none ->
  let anchor := parseISODate (Expense.firstDueDate e) in
  maxOccurrencesOf e = 1%float
  /\ (exists new,
         expenseWalk e hs he events0
         = Some (1%nat, (anchor, 0%float, events0 ++ new))
         /\ expenseCallback hs he events0 e = Some (events0 ++ new)
         /\ (List.length new <= 1)%nat
         /\ Forall (from_expense e) new
         /\ (new <> [] <->
             JSDate.ge anchor hs = true /\ JSDate.gt anchor he = false)
         /\ Forall (fun ev => Some (ForecastEvent.date ev) = toISODate anchor)
                   new)
  /\ (forall rc,
         expenseCallback hs he events0 (with_repeat e repeat_none rc)
         = expenseCallback hs he events0 e).
Proof.
  intros Hfixed Hnone anchor.
  assert (Hmax : maxOccurrencesOf e = 1%float).
  { unfold maxOccurrencesOf. rewrite Hnone. reflexivity. }
  split; [exact Hmax|]. split.
  - unfold expenseCallback, expenseWalk. rewrite Hfixed, Hmax.
    rewrite for_loop_cap.
    fold anchor. unfold expenseBody. rewrite Hnone.
    change (PrimFloat.leb 1 0) with false. cbv iota. simpl is_none.
    destruct (JSDate.gt anchor he) eqn:Hgt.
    { exists []. rewrite app_nil_r.
      split; [reflexivity|]. split; [reflexivity|]. split; [simpl; lia|].
      split; [constructor|]. split; [|constructor]. split.
      - intros Hne; contradiction.
      - intros [_ Hf]; discriminate. }
    destruct (JSDate.ge anchor hs) eqn:Hge.
    + destruct (toISODate_clipped anchor hs (parseISODate_clipped _) Hge)
        as (iso & Hiso).
      rewrite Hiso.
      eexists [_].
      split; [reflexivity|]. split; [reflexivity|]. split; [simpl; lia|].
      split; [constructor; [apply from_expense_pushed|constructor]|].
      split; [split; [auto|intros _; discriminate]|].
      constructor; [reflexivity|constructor].
    + exists []. rewrite app_nil_r.
      split; [reflexivity|]. split; [reflexivity|]. split; [simpl; lia|].
      split; [constructor|]. split; [|constructor]. split.
      * intros Hne; contradiction.
      * intros [Hf _]; discriminate.
  - intros rc. unfold expenseCallback, expenseWalk.
    change (usesVariableDates (with_repeat e repeat_none rc))
      with (usesVariableDates e).
    change (maxOccurrencesOf (with_repeat e repeat_none rc)) with 1%float.
    change (Expense.firstDueDate (with_repeat e repeat_none rc))
      with (Expense.firstDueDate e).
    rewrite Hfixed, Hmax.
    assert (Hbody : expenseBody (with_repeat e repeat_none rc) 1 hs he
                    = expenseBody e 1 hs he).
    { unfold expenseBody, with_repeat.
      cbn [Expense.id Expense.name Expense.category Expense.amount
           Expense.repeat].
      rewrite Hnone. reflexivity. }
    rewrite Hbody. reflexivity.
Qed.

(** A one-off expense due on 2024-01-05, within the horizon: one event. *)
Lemma repeat_none_single_occurrence_witness :
  exists new,
    @expenseCallback plain_runtime Examples.january_first
                     Examples.february_first [] Examples.one_off
    = Some new
    /\ (List.length new <= 1)%nat.
Proof.
  destruct (@repeat_none_single_occurrence plain_runtime Examples.one_off
              Examples.january_first Examples.february_first []
              eq_refl eq_refl)
    as (_ & (new & _ & E & Hlen & _) & _).
  exists new. split; [exact E|exact Hlen].
Defined.

(** C10. What [generateExpenseEvents] emits for an expense does not depend
    on its amount, and every event carries the amount as it is.  The events
    of an expense are the same whatever was pushed before; with any other
    amount, negative or not a number, the same events are emitted, with that
    amount in place of the first.  On the variable-dates branch there is one
    event for each listed date within the horizon; on the fixed schedule
    the first due date is emitted when it lies within the horizon.  A weekly
    expense (five events in January 2024) and a variable-dates expense (two
    events) with the amounts -5 and NaN reach the running balance: from 100
    it rises by 5 with each event, or is NaN. *)
Theorem expense_events_carry_amount
        {R : Runtime} (e : Expense.t) (hs he : JSDate.Date) :
  let own := own_events hs he e in
  let anchor := parseISODate (Expense.firstDueDate e) in
  (forall events0, expenseCallback hs he events0 e = Some (events0 ++ own))
  /\ Forall (from_expense e) own
  /\ (forall a events0,
         expenseCallback hs he events0 (with_amount e a)
         = Some (events0 ++ map (set_amount a) own))
  /\ (forall a, own_events hs he (with_amount e a) = map (set_amount a) own)
  /\ (usesVariableDates e = true ->
      map ForecastEvent.date own
      = filter (within_horizon hs he)
               (Arr.sort localeCompare (listed_dates e)))
  /\ (usesVariableDates e = false ->
      PrimFloat.leb (maxOccurrencesOf e) 0 = false ->
      JSDate.ge anchor hs = true -> JSDate.gt anchor he = false ->
      exists ev rest,
        own = ev :: rest /\ Some (ForecastEvent.date ev) = toISODate anchor)
  /\ (forall expenses,
         generateExpenseEvents expenses hs he
         = Some (flat_map (own_events hs he) expenses))
  /\ (let rows a :=
        option_map
          (fun events =>
             map row_line (@buildForecast plain_runtime events 100))
          (@generateExpenseEvents plain_runtime
             [with_amount Examples.every_week a]
             Examples.january_first Examples.february_first) in
      rows (-5)%float
      = Some [(-5, 105); (-5, 110); (-5, 115); (-5, 120); (-5, 125)]%float
      /\ rows nan
         = Some [(nan, nan); (nan, nan); (nan, nan); (nan, nan); (nan, nan)])
  /\ (let rows a :=
        option_map
          (fun events =>
             map row_line (@buildForecast plain_runtime events 100))
          (@generateExpenseEvents plain_runtime
             [with_amount Examples.two_dates a]
             Examples.january_first Examples.february_first) in
      rows (-5)%float = Some [(-5, 105); (-5, 110)]%float
      /\ rows nan = Some [(nan, nan); (nan, nan)]).
Proof.
  cbv zeta.
  destruct (expenseCallback_amount e (Expense.amount e) hs he [] [])
    as (new & E & _ & Hf & _ & Hd).
  assert (Hown : own_events hs he e = new).
  { unfold own_events. rewrite E. reflexivity. }
  split; [intros events0; exact (expenseCallback_own e hs he events0)|].
  split; [rewrite Hown; exact Hf|].
  assert (Hamount : forall a events0,
             expenseCallback hs he events0 (with_amount e a)
             = Some (events0 ++ map (set_amount a) (own_events hs he e))).
  { intros a events0.
    destruct (expenseCallback_amount e a hs he [] events0)
      as (new' & E1 & E2 & _).
    rewrite E in E1. injection E1 as E1. subst new'.
    rewrite Hown. exact E2. }
  split; [exact Hamount|].
  split; [intros a; unfold own_events at 1; rewrite (Hamount a []);
          reflexivity|].
  split; [rewrite Hown; exact Hd|].
  split; [exact (first_occurrence e hs he)|].
  split; [intros expenses; exact (for_each_own hs he expenses [])|].
  split; vm_compute; split; reflexivity.
Qed.

Lemma for_each_swap (A St : Type) (f : St -> A -> option St) (x x' : A) :
  (forall s, f s x' = f s x) ->
  forall pre post s,
    Loop.for_each f (pre ++ x' :: post) s = Loop.for_each f (pre ++ x :: post) s.
Proof.
  intros Hx. induction pre as [|y pre IH]; intros post s; simpl.
  - rewrite Hx. reflexivity.
  - destruct (f s y); [apply IH|reflexivity].
Qed.

(** C7, as the code has it. An expense with variable dates switched on and
    at least one due date listed gets one event for each listed date that
    lies within the horizon, in ascending order of the dates, and nothing
    else: changing its [repeat] and [repeatCount] changes no event list. *)
Theorem variable_dates_ignore_repeat
        {R : Runtime} (e : Expense.t) (hs he : JSDate.Date)
        (d : string) (ds : list string) :
  Expense.variableDatesEnabled e = Some true ->
  Expense.variableDueDates e = Some (d :: ds) ->
  (forall events0,
      exists new,
        expenseCallback hs he events0 e = Some (events0 ++ new)
        /\ Forall (from_expense e) new
        /\ map ForecastEvent.date new
           = filter (within_horizon hs he)
                    (Arr.sort localeCompare (d :: ds)))
  /\ (forall r rc events0,
         expenseCallback hs he events0 (with_repeat e r rc)
         = expenseCallback hs he events0 e)
  /\ (forall r rc pre post,
         generateExpenseEvents (pre ++ with_repeat e r rc :: post) hs he
         = generateExpenseEvents (pre ++ e :: post) hs he).
Proof.
  intros Hon Hdates.
  assert (Huses : usesVariableDates e = true).
  { unfold usesVariableDates. rewrite Hon, Hdates. reflexivity. }
  assert (Hsame : forall r rc events0,
             expenseCallback hs he events0 (with_repeat e r rc)
             = expenseCallback hs he events0 e).
  { intros r rc events0. unfold expenseCallback.
    change (usesVariableDates (with_repeat e r rc))
      with (usesVariableDates e).
    change (Expense.variableDueDates (with_repeat e r rc))
      with (Expense.variableDueDates e).
    rewrite Huses. f_equal. apply variableEvents_fields; reflexivity. }
  split; [|split].
  - intros events0. unfold expenseCallback. rewrite Huses, Hdates.
    destruct (variableEvents_spec e hs he
                (Arr.sort localeCompare (d :: ds)) 0 events0)
      as (new & E & Hf & Hd).
    exists new. rewrite E. auto.
  - exact Hsame.
  - intros r rc pre post. unfold generateExpenseEvents.
    apply for_each_swap. intros s. apply Hsame.
Qed.

(** Two dates listed, one of them within the horizon. *)
Lemma variable_dates_ignore_repeat_witness :
  @expenseCallback plain_runtime Examples.january_first
                   Examples.february_first []
                   (with_repeat Examples.two_dates repeat_weekly (Some 4%float))
  = @expenseCallback plain_runtime Examples.january_first
                     Examples.february_first [] Examples.two_dates.
Proof.
  destruct (@variable_dates_ignore_repeat plain_runtime Examples.two_dates
              Examples.january_first Examples.february_first
              "2024-01-20" ["2024-01-10"] eq_refl eq_refl)
    as (_ & H & _).
  apply H.
Defined.

(** C7, as stated, fails: with variable dates switched on and no date
    listed, the expense is walked on its fixed schedule, and its [repeat]
    decides its events. *)
Lemma variable_dates_counterexample :
  Expense.variableDatesEnabled Examples.no_dates = Some true
  /\ option_map (map ForecastEvent.date)
       (@generateExpenseEvents plain_runtime
          [with_repeat Examples.no_dates repeat_weekly None]
          Examples.january_first Examples.february_first)
     = Some ["2024-01-05"; "2024-01-12"; "2024-01-19"; "2024-01-26"]
  /\ option_map (map ForecastEvent.date)
       (@generateExpenseEvents plain_runtime
          [with_repeat Examples.no_dates repeat_none None]
          Examples.january_first Examples.february_first)
     = Some ["2024-01-05"].
Proof. vm_compute. repeat split. Qed.

End ExpenseClaims.

(* ------------------------------------------------------------------------- *)
(** ** The order of the forecast *)

Section EventOrder.

Context {R : Runtime} {C : Consistent R}.
Import Forecast SpecOrder.

Lemma collate_refl (x : string) : localeCompare x x = 0.
Proof.
  pose proof (collate_antisym x x). lia.
Qed.

Lemma collate_tie_sym (x y : string) :
  localeCompare x y = 0 <-> localeCompare y x = 0.
Proof.
  pose proof (collate_antisym x y). pose proof (collate_antisym y x). lia.
Qed.

(** What a consistent comparison says about three strings. *)
Lemma collate_three (x y z : string) :
  let p := localeCompare x y in
  let q := localeCompare y z in
  let r := localeCompare x z in
  (p <= 0 -> q <= 0 -> r <= 0) /\ (p < 0 -> q <= 0 -> r < 0)
  /\ (p <= 0 -> q < 0 -> r < 0) /\ (p = 0 -> q = 0 -> r = 0).
Proof.
  cbv zeta.
  pose proof (collate_antisym x y). pose proof (collate_antisym y x).
  pose proof (collate_antisym y z). pose proof (collate_antisym z y).
  pose proof (collate_antisym x z). pose proof (collate_antisym z x).
  pose proof (collate_trans x y z). pose proof (collate_trans y z x).
  pose proof (collate_trans z x y). pose proof (collate_trans z y x).
  lia.
Qed.

(** [compareEvents] is the first of its comparisons that does not tie, on
    events whose keys do not tie unless they are equal. *)
Lemma compareEvents_alt (a b : ForecastEvent.t) :
  keys_apart a b ->
  compareEvents a b
  = let byDate :=
      localeCompare (ForecastEvent.date a) (ForecastEvent.date b) in
    let byCategory :=
      localeCompare (ForecastEvent.category a) (ForecastEvent.category b) in
    let byItem :=
      localeCompare (ForecastEvent.item a) (ForecastEvent.item b) in
    if byDate =? 0 then
      match ForecastEvent.type a, ForecastEvent.type b with
      | income, expense => -1
      | expense, income => 1
      | income, income => byItem
      | expense, expense => if byCategory =? 0 then byItem else byCategory
      end
    else byDate.
Proof.
  intros [Hdate Hcat]. unfold str_tie in Hdate, Hcat.
  unfold compareEvents. cbv zeta.
  destruct (String.eqb_spec (ForecastEvent.date a) (ForecastEvent.date b))
    as [E|E].
  - specialize (Hcat E). rewrite E, collate_refl. simpl.
    destruct (ForecastEvent.type a), (ForecastEvent.type b); simpl;
      try reflexivity.
    destruct (String.eqb_spec (ForecastEvent.category a)
                              (ForecastEvent.category b)) as [E'|E'].
    + rewrite E', collate_refl. reflexivity.
    + simpl.
      destruct (Z.eqb_spec
                  (localeCompare (ForecastEvent.category a)
                                 (ForecastEvent.category b)) 0) as [Z0|Z0];
        [exfalso; apply E'; apply Hcat; auto|reflexivity].
  - simpl.
    destruct (Z.eqb_spec
                (localeCompare (ForecastEvent.date a) (ForecastEvent.date b))
                0) as [Z0|Z0];
      [exfalso; apply E; apply Hdate; exact Z0|reflexivity].
Qed.

(** Comparing by a first key and, on a tie, by the rest is transitive when
    both are. *)
Lemma lex_step (p q r u v w : Z) :
  (p <= 0 -> q <= 0 -> r <= 0) /\ (p < 0 -> q <= 0 -> r < 0)
  /\ (p <= 0 -> q < 0 -> r < 0) /\ (p = 0 -> q = 0 -> r = 0) ->
  (p = 0 -> q = 0 -> u <= 0 -> v <= 0 -> w <= 0) ->
  (if p =? 0 then u else p) <= 0 ->
  (if q =? 0 then v else q) <= 0 ->
  (if r =? 0 then w else r) <= 0.
Proof.
  intros (H1 & H2 & H3 & H4) Hrest.
  destruct (Z.eqb_spec p 0), (Z.eqb_spec q 0), (Z.eqb_spec r 0); lia.
Qed.

Lemma compareEvents_antisym (a b : ForecastEvent.t) :
  keys_apart a b -> keys_apart b a ->
  compareEvents a b < 0 <-> 0 < compareEvents b a.
Proof.
  intros Hab Hba. rewrite !compareEvents_alt by assumption. cbv zeta.
  pose proof (collate_antisym (ForecastEvent.date a) (ForecastEvent.date b)).
  pose proof (collate_antisym (ForecastEvent.date b) (ForecastEvent.date a)).
  pose proof (collate_antisym (ForecastEvent.category a)
                              (ForecastEvent.category b)).
  pose proof (collate_antisym (ForecastEvent.category b)
                              (ForecastEvent.category a)).
  pose proof (collate_antisym (ForecastEvent.item a) (ForecastEvent.item b)).
  pose proof (collate_antisym (ForecastEvent.item b) (ForecastEvent.item a)).
  destruct (ForecastEvent.type a), (ForecastEvent.type b);
    repeat match goal with
           | |- context [?x =? 0] => destruct (Z.eqb_spec x 0)
           end; lia.
Qed.

Lemma compareEvents_total (a b : ForecastEvent.t) :
  keys_apart a b -> keys_apart b a ->
  Spec.cmp_le compareEvents a b \/ Spec.cmp_le compareEvents b a.
Proof.
  intros Hab Hba. unfold Spec.cmp_le.
  pose proof (compareEvents_antisym a b Hab Hba).
  pose proof (compareEvents_antisym b a Hba Hab). lia.
Qed.

Lemma compareEvents_trans (a b c : ForecastEvent.t) :
  keys_apart a b -> keys_apart b c -> keys_apart a c ->
  Spec.cmp_le compareEvents a b -> Spec.cmp_le compareEvents b c ->
  Spec.cmp_le compareEvents a c.
Proof.
  intros Hab Hbc Hac. unfold Spec.cmp_le.
  rewrite !compareEvents_alt by assumption. cbv zeta.
  apply lex_step;
    [apply (collate_three (ForecastEvent.date a) (ForecastEvent.date b)
                          (ForecastEvent.date c))|].
  intros _ _.
  pose proof (collate_three (ForecastEvent.item a) (ForecastEvent.item b)
                            (ForecastEvent.item c)) as (Hitem & _).
  destruct (ForecastEvent.type a), (ForecastEvent.type b),
    (ForecastEvent.type c); try lia; try exact Hitem.
  apply lex_step;
    [apply (collate_three (ForecastEvent.category a)
                          (ForecastEvent.category b)
                          (ForecastEvent.category c))|].
  intros _ _. exact Hitem.
Qed.

Lemma date_tie_iff (a b : ForecastEvent.t) :
  keys_apart a b ->
  localeCompare (ForecastEvent.date a) (ForecastEvent.date b) = 0
  <-> ForecastEvent.date a = ForecastEvent.date b.
Proof.
  intros [Hdate _]. split; [exact Hdate|].
  intros ->. apply collate_refl.
Qed.

Lemma category_tie_iff (a b : ForecastEvent.t) :
  keys_apart a b ->
  ForecastEvent.date a = ForecastEvent.date b ->
  ForecastEvent.type a = expense -> ForecastEvent.type b = expense ->
  localeCompare (ForecastEvent.category a) (ForecastEvent.category b) = 0
  <-> ForecastEvent.category a = ForecastEvent.category b.
Proof.
  intros [_ Hcat] Hd Ha Hb. split; [exact (Hcat Hd Ha Hb)|].
  intros ->. apply collate_refl.
Qed.

(** A negative comparison is the order of the specification. *)
Lemma compareEvents_before (a b : ForecastEvent.t) :
  keys_apart a b ->
  compareEvents a b < 0 <-> event_before a b.
Proof.
  intros Hk. rewrite compareEvents_alt by exact Hk. cbv zeta.
  unfold event_before, str_before.
  pose proof (date_tie_iff a b Hk) as Hd.
  pose proof (category_tie_iff a b Hk) as Hc.
  destruct (ForecastEvent.type a), (ForecastEvent.type b);
    repeat match goal with
           | |- context [?x =? 0] => destruct (Z.eqb_spec x 0)
           end;
    intuition (try congruence; try lia).
Qed.

Lemma compareEvents_tie (a b : ForecastEvent.t) :
  keys_apart a b ->
  compareEvents a b = 0 <-> event_tie a b.
Proof.
  intros Hk. rewrite compareEvents_alt by exact Hk. cbv zeta.
  unfold event_tie, str_tie.
  pose proof (date_tie_iff a b Hk) as Hd.
  pose proof (category_tie_iff a b Hk) as Hc.
  destruct (ForecastEvent.type a), (ForecastEvent.type b);
    repeat match goal with
           | |- context [?x =? 0] => destruct (Z.eqb_spec x 0)
           end;
    intuition (try congruence; try lia).
Qed.

Lemma compareEvents_le (a b : ForecastEvent.t) :
  keys_apart a b ->
  Spec.cmp_le compareEvents a b <-> event_le a b.
Proof.
  intros Hk. unfold Spec.cmp_le, event_le.
  rewrite <- (compareEvents_before a b Hk), <- (compareEvents_tie a b Hk).
  lia.
Qed.

(** An expense is not in order before an income of its date. *)
Lemma event_le_income (a b : ForecastEvent.t) :
  event_le a b ->
  ForecastEvent.date a = ForecastEvent.date b ->
  ForecastEvent.type b = income -> ForecastEvent.type a = income.
Proof.
  intros [Hb|Ht] Hd Hi.
  - destruct Hb as [H|[H|[H|H]]].
    + unfold str_before in H. rewrite Hd, collate_refl in H. lia.
    + tauto.
    + destruct H as (_ & _ & He & _). congruence.
    + destruct H as (_ & He & _). congruence.
  - destruct Ht as (_ & He & _). congruence.
Qed.

End EventOrder.

(* ------------------------------------------------------------------------- *)
(** ** The code-unit order and the collation of letters are consistent *)

Section PlainCollation.

Lemma ascii_compare_refl (x : ascii) : Ascii.compare x x = Eq.
Proof. unfold Ascii.compare. apply N.compare_refl. Qed.

Lemma ascii_compare_lt_trans (x y z : ascii) :
  Ascii.compare x y = Lt -> Ascii.compare y z = Lt -> Ascii.compare x z = Lt.
Proof.
  unfold Ascii.compare. rewrite !N.compare_lt_iff. apply N.lt_trans.
Qed.

Lemma string_compare_refl (a : string) : String.compare a a = Eq.
Proof.
  induction a as [|x a IH]; simpl; [reflexivity|].
  rewrite ascii_compare_refl. exact IH.
Qed.

Lemma string_compare_lt_trans (a b c : string) :
  String.compare a b = Lt -> String.compare b c = Lt ->
  String.compare a c = Lt.
Proof.
  revert b c. induction a as [|x a IH]; intros [|y b] [|z c]; simpl;
    try discriminate; try reflexivity.
  destruct (Ascii.compare x y) eqn:Exy; try discriminate;
    destruct (Ascii.compare y z) eqn:Eyz; try discriminate; intros Hab Hbc.
  - apply Ascii.compare_eq_iff in Exy, Eyz. subst.
    rewrite ascii_compare_refl. eapply IH; eassumption.
  - apply Ascii.compare_eq_iff in Exy. subst. rewrite Eyz. reflexivity.
  - apply Ascii.compare_eq_iff in Eyz. subst. rewrite Exy. reflexivity.
  - rewrite (ascii_compare_lt_trans x y z Exy Eyz). reflexivity.
Qed.

Lemma plain_collate_antisym (a b : string) :
  Plain.collate a b < 0 <-> 0 < Plain.collate b a.
Proof.
  unfold Plain.collate. rewrite (String.compare_antisym a b).
  destruct (String.compare b a); simpl; lia.
Qed.

Lemma plain_collate_trans (a b c : string) :
  Plain.collate a b <= 0 -> Plain.collate b c <= 0 -> Plain.collate a c <= 0.
Proof.
  unfold Plain.collate.
  destruct (String.compare a b) eqn:Eab; [| |lia].
  - apply String.compare_eq_iff in Eab. subst b. auto.
  - destruct (String.compare b c) eqn:Ebc; [| |lia].
    + apply String.compare_eq_iff in Ebc. subst c. rewrite Eab. lia.
    + rewrite (string_compare_lt_trans a b c Eab Ebc). lia.
Qed.

Lemma plain_collate_eq (a b : string) : Plain.collate a b = 0 -> a = b.
Proof.
  unfold Plain.collate. intros H. apply String.compare_eq_iff.
  destruct (String.compare a b); [reflexivity|discriminate|discriminate].
Qed.

#[export] Instance plain_consistent : Consistent plain_runtime.
Proof.
  constructor; simpl.
  - apply plain_collate_antisym.
  - apply plain_collate_trans.
Qed.

(** In the code-unit order only identical strings tie. *)
Lemma plain_tie_free (events : list ForecastEvent.t) :
  @SpecOrder.keys_tie_free plain_runtime events.
Proof.
  intros a b _ _. split.
  - apply plain_collate_eq.
  - intros _ _ _. apply plain_collate_eq.
Qed.

(** The collation of letters is consistent too, and it ties distinct
    strings. *)
Lemma locale_consistent : Consistent locale_runtime.
Proof.
  constructor; simpl; unfold Locale.collate.
  - intros a b.
    rewrite (String.compare_antisym (Locale.primary a) (Locale.primary b)).
    destruct (String.compare (Locale.primary b) (Locale.primary a)); simpl;
      [apply plain_collate_antisym|lia|lia].
  - intros a b c.
    destruct (String.compare (Locale.primary a) (Locale.primary b)) eqn:Eab;
      [| |lia].
    + apply String.compare_eq_iff in Eab. rewrite Eab.
      destruct (String.compare (Locale.primary b) (Locale.primary c));
        [apply plain_collate_trans|lia|lia].
    + intros _.
      destruct (String.compare (Locale.primary b) (Locale.primary c)) eqn:Ebc;
        [| |lia].
      * apply String.compare_eq_iff in Ebc. rewrite <- Ebc, Eab. lia.
      * rewrite (string_compare_lt_trans _ _ _ Eab Ebc). lia.
Qed.

End PlainCollation.

(* ------------------------------------------------------------------------- *)
(** ** The forecast builder *)

Section BuildForecast.

Import Forecast SpecOrder.

Local Open Scope float_scope.

Lemma post_step (balance : float) (ev : ForecastEvent.t) :
  balance + match ForecastEvent.type ev with
            | income => ForecastEvent.amount ev
            | expense => - ForecastEvent.amount ev
            end
  = post balance ev.
Proof.
  unfold post. destruct (ForecastEvent.type ev); [reflexivity|apply add_opp].
Qed.

Lemma annotate_events (l : list ForecastEvent.t) (balance : float) :
  map ForecastRow.event (annotate balance l) = l.
Proof.
  revert balance. induction l as [|ev l IH]; intros balance; simpl.
  - reflexivity.
  - rewrite IH. reflexivity.
Qed.

(** The balance recorded with an event is the balance after it posts. *)
Lemma annotate_balance (l : list ForecastEvent.t) :
  forall (balance : float) (k : nat) (row : ForecastRow.t),
    nth_error (annotate balance l) k = Some row ->
    ForecastRow.runningBalance row = balance_after balance (firstn (S k) l).
Proof.
  induction l as [|ev l IH]; intros balance k row H.
  - destruct k; discriminate.
  - cbn [annotate] in H. rewrite post_step in H. destruct k as [|k].
    + inversion H. reflexivity.
    + simpl in H. apply IH in H. rewrite H. reflexivity.
Qed.

(** C1, as the code has it.  The strings are compared with [localeCompare],
    a consistent comparison that may tie distinct strings.  For events of
    which no two distinct dates tie, nor two distinct categories of expenses
    of one date, [buildForecast] returns the events it was given, sorted by
    the total order of the forecast (date ascending in the order of
    [localeCompare]; on one date income before expense; two expenses of one
    date by category; remaining ties by item), so that no expense comes
    before an income of its date, each with the balance after it posts: the
    fold from the left that starts at the starting balance, adds an income
    and subtracts an expense.  An income and an expense of one date come out
    income first, and the expense posts to the balance the income has
    raised. *)
Theorem buildForecast_spec
        {R : Runtime} {C : Consistent R}
        (events : list ForecastEvent.t) (startingBalance : float) :
  keys_tie_free events ->
  let rows := buildForecast events startingBalance in
  let sorted := map ForecastRow.event rows in
  Permutation sorted events
  /\ StronglySorted event_le sorted
  /\ (forall a b, In a events -> In b events ->
                  event_before a b \/ event_tie a b \/ event_before b a)
  /\ (forall a b c, In a events -> In b events -> In c events ->
                    event_le a b -> event_le b c -> event_le a c)
  /\ (forall pre a mid b post,
         sorted = pre ++ a :: mid ++ b :: post ->
         ForecastEvent.date a = ForecastEvent.date b ->
         ForecastEvent.type b = income -> ForecastEvent.type a = income)
  /\ (forall k row,
         nth_error rows k = Some row ->
         ForecastRow.runningBalance row
         = balance_after startingBalance (firstn (S k) sorted))
  /\ (forall inc exp,
         ForecastEvent.type inc = income ->
         ForecastEvent.type exp = expense ->
         ForecastEvent.date inc = ForecastEvent.date exp ->
         let afterIncome := startingBalance + ForecastEvent.amount inc in
         let expected :=
           [ForecastRow.mk inc afterIncome;
            ForecastRow.mk exp (afterIncome - ForecastEvent.amount exp)] in
         buildForecast [exp; inc] startingBalance = expected
         /\ buildForecast [inc; exp] startingBalance = expected).
Proof.
  intros Hfree rows sorted.
  assert (Hsorted : sorted = Arr.sort compareEvents events).
  { subst sorted rows. unfold buildForecast. apply annotate_events. }
  assert (Hperm : Permutation sorted events).
  { rewrite Hsorted. apply sort_perm. }
  assert (Hall : Forall (fun a => In a events) sorted).
  { apply Forall_forall. intros a Ha.
    eapply Permutation_in; [exact Hperm|exact Ha]. }
  assert (Hord : StronglySorted event_le sorted).
  { rewrite Hsorted in Hall |- *.
    assert (Hs : StronglySorted (Spec.cmp_le compareEvents)
                                (Arr.sort compareEvents events)).
    { apply (sort_sorted_on _ compareEvents (fun a => In a events)).
      - intros a b Ha Hb. apply compareEvents_total; auto.
      - intros a b c Ha Hb Hc. apply compareEvents_trans; auto.
      - apply Forall_forall. auto. }
    clear Hsorted Hperm. revert Hall.
    induction Hs as [|x l Hs IH Hx]; intros Hall; constructor.
    - apply IH. inversion Hall; assumption.
    - inversion Hall as [|x' l' Hin Hl]; subst.
      rewrite Forall_forall in Hx, Hl. apply Forall_forall.
      intros y Hy. apply compareEvents_le; auto. }
  split; [exact Hperm|]. split; [exact Hord|].
  split; [|split; [|split; [|split]]].
  - intros a b Ha Hb.
    pose proof (compareEvents_before a b (Hfree a b Ha Hb)) as Hab.
    pose proof (compareEvents_before b a (Hfree b a Hb Ha)) as Hba.
    pose proof (compareEvents_tie a b (Hfree a b Ha Hb)) as Ht.
    pose proof (compareEvents_antisym b a (Hfree b a Hb Ha) (Hfree a b Ha Hb))
      as Hanti.
    destruct (Z.lt_trichotomy (compareEvents a b) 0) as [H|[H|H]].
    + left. apply Hab. exact H.
    + right. left. apply Ht. exact H.
    + right. right. apply Hba. apply Hanti. lia.
  - intros a b c Ha Hb Hc Hab Hbc.
    apply compareEvents_le; [auto|].
    apply compareEvents_le in Hab, Hbc; auto.
    apply (compareEvents_trans a b c); auto.
  - intros pre a mid b post Hs Hd Hi. rewrite Hs in Hord.
    apply sorted_later in Hord.
    apply (event_le_income a b Hord Hd Hi).
  - intros k row Hrow. subst rows. unfold buildForecast in Hrow.
    apply annotate_balance in Hrow. rewrite Hrow, Hsorted. reflexivity.
  - intros inc exp Hinc Hexp Hdate afterIncome expected.
    assert (Hei : compareEvents exp inc = 1%Z).
    { unfold compareEvents. rewrite Hdate, String.eqb_refl, Hinc, Hexp.
      reflexivity. }
    assert (Hie : compareEvents inc exp = (-1)%Z).
    { unfold compareEvents. rewrite Hdate, String.eqb_refl, Hinc, Hexp.
      reflexivity. }
    subst expected afterIncome.
    unfold buildForecast, Arr.sort. simpl fold_right.
    rewrite Hei, Hie. simpl. rewrite Hinc, Hexp, add_opp. split; reflexivity.
Qed.

(** Rent and a paycheck on 2024-01-05, and a later paycheck, in the
    code-unit order. *)
Lemma buildForecast_spec_witness :
  Permutation
    (map ForecastRow.event
         (@buildForecast plain_runtime
            [ExampleEvents.paycheck_late; ExampleEvents.rent;
             ExampleEvents.paycheck] 100))
    [ExampleEvents.paycheck_late; ExampleEvents.rent; ExampleEvents.paycheck].
Proof.
  destruct (@buildForecast_spec plain_runtime plain_consistent
              [ExampleEvents.paycheck_late; ExampleEvents.rent;
               ExampleEvents.paycheck] 100 (plain_tie_free _))
    as (Hperm & _).
  exact Hperm.
Defined.

(** C1, as stated, fails on a host whose collation is not the code-unit
    order.  Two expenses of one date and one category named "apple" and
    "Banana" come out "apple" first, although "Banana" comes first
    lexicographically.  And where two distinct date strings tie, here
    2024-01-05 with and without a control character at its end, the order
    is lost: every comparison of two neighbours of the list ties, the list
    is left as it is, and rent stays in front of the paycheck of its
    date. *)
Lemma buildForecast_counterexample :
  lex_before "Banana" "apple"
  /\ map ForecastEvent.item
       (map ForecastRow.event
            (@buildForecast locale_runtime
               [ExampleEvents.banana; ExampleEvents.apple] 0))
     = ["apple"; "Banana"]
  /\ ExampleEvents.marked_date <> "2024-01-05"%string
  /\ @localeCompare locale_runtime ExampleEvents.marked_date "2024-01-05" = 0%Z
  /\ ForecastEvent.date ExampleEvents.rent
     = ForecastEvent.date ExampleEvents.paycheck
  /\ map ForecastRow.event
       (@buildForecast locale_runtime
          [ExampleEvents.rent; ExampleEvents.paycheck_marked;
           ExampleEvents.paycheck] 0)
     = [ExampleEvents.rent; ExampleEvents.paycheck_marked;
        ExampleEvents.paycheck].
Proof.
  split; [reflexivity|]. split; [vm_compute; reflexivity|].
  split; [discriminate|]. repeat split; vm_compute; reflexivity.
Qed.

End BuildForecast.

(* ------------------------------------------------------------------------- *)
(** ** Maps and sets of the host *)

Section MapFacts.

Variable V : Type.

Lemma set_keys (m : JSMap.t V) (k : string) (v : V) (k' : string) :
  In k' (JSMap.keys (JSMap.set m k v)) <-> k' = k \/ In k' (JSMap.keys m).
Proof.
  unfold JSMap.keys. induction m as [|[k0 v0] m IH]; simpl.
  - intuition.
  - destruct (String.eqb_spec k0 k) as [->|Hne]; simpl.
    + intuition.
    + rewrite IH. intuition.
Qed.

Lemma set_nodup (m : JSMap.t V) (k : string) (v : V) :
  NoDup (JSMap.keys m) -> NoDup (JSMap.keys (JSMap.set m k v)).
Proof.
  unfold JSMap.keys. induction m as [|[k0 v0] m IH]; simpl; intros H.
  - repeat constructor. intros [].
  - inversion H as [|? ? Hnotin Hrest]; subst.
    destruct (String.eqb_spec k0 k) as [->|Hne]; simpl.
    + constructor; assumption.
    + constructor; [|apply IH; exact Hrest].
      intros Hin. apply (set_keys m k v k0) in Hin.
      destruct Hin as [->|Hin]; [apply Hne; reflexivity|contradiction].
Qed.

Lemma set_in (m : JSMap.t V) (k : string) (v : V) (k' : string) (v' : V) :
  NoDup (JSMap.keys m) ->
  In (k', v') (JSMap.set m k v)
  <-> (k' = k /\ v' = v) \/ (k' <> k /\ In (k', v') m).
Proof.
  unfold JSMap.keys. induction m as [|[k0 v0] m IH]; simpl; intros H.
  - split.
    + intros [E|[]]. inversion E. auto.
    + intros [[-> ->]|[_ []]]. auto.
  - inversion H as [|? ? Hnotin Hrest]; subst.
    destruct (String.eqb_spec k0 k) as [->|Hne]; simpl.
    + split.
      * intros [E|Hin]; [inversion E; auto|].
        right. split; [|auto].
        intros ->. apply Hnotin. apply (in_map fst) in Hin. exact Hin.
      * intros [[-> ->]|[Hne [E|Hin]]]; auto.
        inversion E. subst. contradiction.
    + rewrite (IH Hrest). split.
      * intros [E|[[-> ->]|[Hne' Hin]]]; auto.
        inversion E. subst. auto.
      * intros [[-> ->]|[Hne' [E|Hin]]]; auto.
Qed.

Lemma get_in (m : JSMap.t V) (k : string) (v : V) :
  NoDup (JSMap.keys m) -> JSMap.get m k = Some v <-> In (k, v) m.
Proof.
  unfold JSMap.keys. induction m as [|[k0 v0] m IH]; simpl; intros H.
  - split; [discriminate|intros []].
  - inversion H as [|? ? Hnotin Hrest]; subst.
    destruct (String.eqb_spec k0 k) as [->|Hne].
    + split.
      * intros E. inversion E. auto.
      * intros [E|Hin]; [inversion E; reflexivity|].
        apply (in_map fst) in Hin. contradiction.
    + rewrite (IH Hrest). split; [auto|].
      intros [E|Hin]; [inversion E; subst; contradiction|exact Hin].
Qed.

Lemma get_none (m : JSMap.t V) (k : string) :
  JSMap.get m k = None <-> ~ In k (JSMap.keys m).
Proof.
  unfold JSMap.keys. induction m as [|[k0 v0] m IH]; simpl.
  - intuition.
  - destruct (String.eqb_spec k0 k) as [->|Hne].
    + split; [discriminate|]. intros H. exfalso. apply H. auto.
    + rewrite IH. intuition.
Qed.

End MapFacts.

Section SetFacts.

Lemma has_in (s : JSSet.t) (k : string) : JSSet.has s k = true <-> In k s.
Proof.
  unfold JSSet.has. rewrite existsb_exists. split.
  - intros (x & Hin & E). apply String.eqb_eq in E. subst. exact Hin.
  - intros Hin. exists k. split; [exact Hin|apply String.eqb_refl].
Qed.

Lemma add_in (s : JSSet.t) (k k' : string) :
  In k' (JSSet.add s k) <-> k' = k \/ In k' s.
Proof.
  unfold JSSet.add. destruct (JSSet.has s k) eqn:E.
  - apply has_in in E. split; [auto|]. intros [->|H]; auto.
  - rewrite in_app_iff. simpl. intuition.
Qed.

Lemma add_nodup (s : JSSet.t) (k : string) : NoDup s -> NoDup (JSSet.add s k).
Proof.
  intros H. unfold JSSet.add. destruct (JSSet.has s k) eqn:E; [exact H|].
  assert (Hnot : ~ In k s).
  { intros Hin. apply has_in in Hin. congruence. }
  clear E. induction s as [|x s IH]; simpl.
  - repeat constructor. intros [].
  - inversion H; subst. constructor.
    + rewrite in_app_iff. simpl. intros [Hin|[->|[]]]; [contradiction|].
      apply Hnot. simpl. auto.
    + apply IH; [assumption|]. intros Hin. apply Hnot. simpl. auto.
Qed.

Lemma fold_add_spec (l : list string) :
  forall s, NoDup s ->
    NoDup (fold_left JSSet.add l s)
    /\ forall k, In k (fold_left JSSet.add l s) <-> In k s \/ In k l.
Proof.
  induction l as [|x l IH]; intros s Hs; simpl.
  - split; [exact Hs|]. intuition.
  - destruct (IH (JSSet.add s x) (add_nodup s x Hs)) as [Hn Hin].
    split; [exact Hn|]. intros k. rewrite Hin, add_in. intuition.
Qed.

(** [new Set(array)] holds the values of the array, once each. *)
Lemma of_list_spec (l : list string) :
  NoDup (JSSet.of_list l) /\ forall k, In k (JSSet.of_list l) <-> In k l.
Proof.
  unfold JSSet.of_list.
  destruct (fold_add_spec l [] (NoDup_nil _)) as [Hn Hin].
  split; [exact Hn|]. intros k. rewrite Hin. simpl. intuition.
Qed.

End SetFacts.

Lemma fold_left_invariant (A B : Type) (f : B -> A -> B)
      (P : list A -> B -> Prop) (b0 : B) :
  P [] b0 ->
  (forall done x b, P done b -> P (done ++ [x]) (f b x)) ->
  forall l, P l (fold_left f l b0).
Proof.
  intros H0 Hstep l.
  assert (H : forall done b, P done b -> P (done ++ l) (fold_left f l b)).
  { induction l as [|x l IH]; intros done b Hb; simpl.
    - rewrite app_nil_r. exact Hb.
    - specialize (IH (done ++ [x]) (f b x) (Hstep done x b Hb)).
      rewrite <- app_assoc in IH. exact IH. }
  apply (H [] b0 H0).
Qed.

(* ------------------------------------------------------------------------- *)
(** ** The finite expense id set *)

Section FiniteExpenseIds.

Import ForecastView SpecView ExampleRows.

Lemma occurrences_snoc (id : string) (rows : list ForecastRow.t)
      (row : ForecastRow.t) :
  occurrences id (rows ++ [row])
  = (occurrences id rows + if occurs id row then 1 else 0)%nat.
Proof.
  unfold occurrences. rewrite filter_app, length_app. simpl.
  destruct (occurs id row); reflexivity.
Qed.

(** The count map has an entry for each non-empty source id that occurs, with
    the number of its occurrences. *)
Lemma occurrenceCount_spec (rows : list ForecastRow.t) :
  NoDup (JSMap.keys (occurrenceCountBySourceId rows))
  /\ forall k c,
      In (k, c) (occurrenceCountBySourceId rows)
      <-> k <> "" /\ c = occurrences k rows /\ (0 < c)%nat.
Proof.
  unfold occurrenceCountBySourceId.
  apply (fold_left_invariant _ _ _
           (fun done m =>
              NoDup (JSMap.keys m)
              /\ forall k c,
                  In (k, c) m
                  <-> k <> "" /\ c = occurrences k done /\ (0 < c)%nat)).
  - split; [constructor|]. intros k c. simpl. split; [intros []|].
    intros (_ & -> & H). unfold occurrences in H. simpl in H. lia.
  - intros done row m [Hnodup Hm].
    assert (Hskip : forall k, k <> "" -> occurs k row = false ->
                              occurrences k (done ++ [row])
                              = occurrences k done).
    { intros k _ Hk. rewrite occurrences_snoc, Hk. lia. }
    destruct (EventType_eqb (ForecastRow.type row) expense) eqn:Htype; simpl.
    + unfold lacksSourceId.
      destruct (ForecastRow.sourceId row) as [sid|] eqn:Hsid.
      * destruct (Str.truthy sid) eqn:Htruthy; simpl.
        -- assert (Hne : sid <> "").
           { intros ->. discriminate. }
           assert (Hold : match JSMap.get m sid with
                          | Some c0 => c0
                          | None => 0%nat
                          end = occurrences sid done).
           { destruct (JSMap.get m sid) as [c0|] eqn:Hget.
             - apply get_in in Hget; [|exact Hnodup].
               apply Hm in Hget. tauto.
             - apply get_none in Hget.
               destruct (occurrences sid done) as [|n] eqn:Hn;
                 [reflexivity|].
               exfalso. apply Hget.
               change (JSMap.keys m) with (map fst m).
               apply (in_map fst m (sid, S n)).
               apply Hm. repeat split; auto; lia. }
           split; [apply set_nodup; exact Hnodup|].
           intros k c. rewrite set_in by exact Hnodup. rewrite Hold.
           rewrite occurrences_snoc. unfold occurs at 1.
           rewrite Htype, Hsid. simpl.
           destruct (String.eqb_spec sid k) as [->|Hk].
           ++ split.
              ** intros [[_ ->]|[Hc _]]; [|contradiction].
                 repeat split; auto; lia.
              ** intros (_ & -> & _). left. split; [reflexivity|lia].
           ++ rewrite Hm. split.
              ** intros [[-> _]|[_ (H1 & H2 & H3)]]; [contradiction|].
                 repeat split; auto; lia.
              ** intros (H1 & H2 & H3). right.
                 split; [congruence|]. repeat split; auto; lia.
        -- split; [exact Hnodup|]. intros k c. rewrite Hm.
           assert (Hempty : sid = "").
           { unfold Str.truthy in Htruthy. apply negb_false_iff in Htruthy.
             apply String.eqb_eq in Htruthy. exact Htruthy. }
           split; intros (H1 & H2 & H3); (split; [exact H1|]);
             rewrite Hskip in *; auto;
             unfold occurs; rewrite Hsid, Hempty;
             destruct (String.eqb_spec "" k); [subst; contradiction| |
                                                subst; contradiction|];
             apply andb_false_r.
      * split; [exact Hnodup|]. intros k c. rewrite Hm.
        split; intros (H1 & H2 & H3); (split; [exact H1|]);
          rewrite Hskip in *; auto;
          unfold occurs; rewrite Hsid; apply andb_false_r.
    + split; [exact Hnodup|]. intros k c. rewrite Hm.
      split; intros (H1 & H2 & H3); (split; [exact H1|]);
        rewrite Hskip in *; auto;
        unfold occurs; rewrite Htype; reflexivity.
Qed.

(** Membership in the set of enabled ids. *)
Lemma enabled_ids_spec (expenses : list Expense.t) (id : string) :
  In id
     (JSSet.of_list
        (map Expense.id
             (filter (fun e => if existsb explicitlyEnabled expenses
                               then explicitlyEnabled e else true)
                     expenses)))
  <-> exists e, In e expenses /\ Expense.id e = id /\ eligible expenses e.
Proof.
  destruct (of_list_spec
              (map Expense.id
                   (filter (fun e => if existsb explicitlyEnabled expenses
                                     then explicitlyEnabled e else true)
                           expenses))) as [_ Hin].
  rewrite Hin, in_map_iff. unfold eligible.
  destruct (existsb explicitlyEnabled expenses) eqn:Hany.
  - apply existsb_exists in Hany. destruct Hany as (e0 & Hin0 & He0).
    split.
    + intros (e & Hid & He). apply filter_In in He. destruct He as [He Hon].
      exists e. auto.
    + intros (e & He & Hid & [Hon|Hnone]).
      * exists e. split; [exact Hid|]. apply filter_In. auto.
      * rewrite (Hnone e0 Hin0) in He0. discriminate.
  - assert (Hnone : forall e', In e' expenses -> explicitlyEnabled e' = false).
    { intros e' He'. destruct (explicitlyEnabled e') eqn:E; [|reflexivity].
      assert (existsb explicitlyEnabled expenses = true) as Hex
          by (apply existsb_exists; eauto).
      congruence. }
    split.
    + intros (e & Hid & He). apply filter_In in He. destruct He as [He _].
      exists e. auto.
    + intros (e & He & Hid & _). exists e. split; [exact Hid|].
      apply filter_In. auto.
Qed.

(** C9, as the code has it. [createFiniteExpenseIdSet] returns, once each,
    the non-empty ids of the expenses that are highlight-eligible (the
    expense opted in, or no expense of the list did) and are the source of
    more than one expense row of the forecast. *)
Theorem createFiniteExpenseIdSet_spec
        (expenses : list Expense.t) (rows : list ForecastRow.t) :
  NoDup (createFiniteExpenseIdSet expenses rows)
  /\ forall id,
      In id (createFiniteExpenseIdSet expenses rows)
      <-> id <> ""
          /\ (exists e, In e expenses /\ Expense.id e = id
                        /\ eligible expenses e)
          /\ (1 < occurrences id rows)%nat.
Proof.
  unfold createFiniteExpenseIdSet. cbv zeta.
  match goal with
  | |- NoDup (JSSet.of_list ?l) /\ _ =>
      destruct (of_list_spec l) as [Hn Hin]
  end.
  split; [exact Hn|]. intros id. rewrite Hin, in_map_iff.
  destruct (occurrenceCount_spec rows) as [_ Hcount].
  split.
  - intros ([k c] & Hk & Hf). simpl in Hk. subst k.
    apply filter_In in Hf. destruct Hf as [Hentry Htest].
    unfold JSMap.entries in Hentry. apply Hcount in Hentry.
    destruct Hentry as (Hne & -> & _).
    apply andb_true_iff in Htest. destruct Htest as [Hhas Hmany].
    simpl in Hhas, Hmany. apply has_in in Hhas.
    apply enabled_ids_spec in Hhas. apply Nat.ltb_lt in Hmany. auto.
  - intros (Hne & Helig & Hmany).
    exists (id, occurrences id rows). split; [reflexivity|].
    apply filter_In. split.
    + unfold JSMap.entries. apply Hcount. repeat split; auto. lia.
    + simpl. apply andb_true_iff. split.
      * apply has_in. apply enabled_ids_spec. exact Helig.
      * apply Nat.ltb_lt. exact Hmany.
Qed.

(** C9, as stated, fails on the empty id: the expense is eligible and is the
    source of two expense rows, and the set is empty. *)
Lemma createFiniteExpenseIdSet_counterexample :
  createFiniteExpenseIdSet [unnamed_expense] unnamed_rows = []
  /\ In unnamed_expense [unnamed_expense]
  /\ Expense.id unnamed_expense = ""
  /\ eligible [unnamed_expense] unnamed_expense
  /\ occurrences "" unnamed_rows = 2%nat
  /\ createFiniteExpenseIdSet [named_expense] named_rows = ["e1"].
Proof.
  split; [reflexivity|]. split; [simpl; auto|]. split; [reflexivity|].
  split; [|split; reflexivity].
  right. intros e' [<-|[]]. reflexivity.
Qed.

End FiniteExpenseIds.

(* ------------------------------------------------------------------------- *)
(** ** The order of strings under [<] and [<=] *)

Section StringOrder.

Lemma str_le_refl (a : string) : Str.le a a = true.
Proof. unfold Str.le, String.leb. rewrite string_compare_refl. reflexivity. Qed.

Lemma str_le_trans (a b c : string) :
  Str.le a b = true -> Str.le b c = true -> Str.le a c = true.
Proof.
  unfold Str.le, String.leb.
  destruct (String.compare a b) eqn:Eab; try discriminate;
    destruct (String.compare b c) eqn:Ebc; try discriminate; intros _ _.
  - apply String.compare_eq_iff in Eab, Ebc. subst.
    rewrite string_compare_refl. reflexivity.
  - apply String.compare_eq_iff in Eab. subst. rewrite Ebc. reflexivity.
  - apply String.compare_eq_iff in Ebc. subst. rewrite Eab. reflexivity.
  - rewrite (string_compare_lt_trans a b c Eab Ebc). reflexivity.
Qed.

Lemma str_gt_le (a b : string) : Str.gt a b = true -> Str.le b a = true.
Proof.
  unfold Str.gt, Str.le, String.ltb, String.leb.
  destruct (String.compare b a); simpl; auto.
Qed.

Lemma str_not_gt_le (a b : string) : Str.gt a b = false -> Str.le a b = true.
Proof.
  unfold Str.gt, Str.le, String.ltb, String.leb.
  rewrite (String.compare_antisym a b).
  destruct (String.compare b a); simpl; auto.
Qed.

Lemma str_empty_le (a : string) : Str.le "" a = true.
Proof. destruct a; reflexivity. Qed.

Lemma str_falsy (a : string) : Str.truthy a = false -> a = "".
Proof.
  unfold Str.truthy. intros H. apply negb_false_iff in H.
  apply String.eqb_eq in H. exact H.
Qed.

End StringOrder.

(* ------------------------------------------------------------------------- *)
(** ** Positive numbers *)

Section PositiveFacts.

Local Open Scope float_scope.

Lemma Prim2SF_zero : Prim2SF 0 = S754_zero false.
Proof. reflexivity. Qed.

(** A number above zero is a number, and not a zero. *)
Lemma positive_truthy (v : float) : (0 <? v) = true -> Num.truthy v = true.
Proof.
  unfold Num.truthy, is_nan, is_zero.
  rewrite ltb_spec, !eqb_spec, Prim2SF_zero.
  unfold SFltb, SFeqb.
  destruct (Prim2SF v) as [s|s| |s m e]; simpl; try discriminate;
    destruct s; simpl; try discriminate; try reflexivity;
    rewrite Z.compare_refl, Pos.compare_cont_refl; reflexivity.
Qed.

Lemma or_default_positive (v : float) :
  (0 <? v) = true -> Num.or_default (Some v) 0 = v.
Proof.
  intros H. unfold Num.or_default. rewrite (positive_truthy v H). reflexivity.
Qed.

Lemma or_default_not_positive (x : option float) :
  (forall v, x = Some v -> (0 <? v) = false) ->
  (0 <? Num.or_default x 0) = false.
Proof.
  intros H. destruct x as [v|]; simpl; [|reflexivity].
  destruct (Num.truthy v); [apply H; reflexivity|reflexivity].
Qed.

End PositiveFacts.

(* ------------------------------------------------------------------------- *)
(** ** Bonus events *)

Section BonusEvents.

Import Forecast SpecOrder SpecBonus.

(** The map of [generateBonusEvents] has one entry for each month among the
    income events, with the latest date of that month. *)
Lemma lastPaycheckByMonth_spec (incomeEvents : list ForecastEvent.t) :
  let m := lastPaycheckByMonth incomeEvents in
  NoDup (JSMap.keys m)
  /\ (forall k, In k (JSMap.keys m)
                <-> exists ev, In ev incomeEvents /\ month_of ev = k)
  /\ (forall k d,
         In (k, d) m ->
         (exists ev, In ev incomeEvents /\ ForecastEvent.date ev = d)
         /\ month_key d = k
         /\ forall ev, In ev incomeEvents -> month_of ev = k ->
                       Str.le (ForecastEvent.date ev) d = true).
Proof.
  unfold lastPaycheckByMonth.
  apply (fold_left_invariant _ _ _
           (fun done m =>
              NoDup (JSMap.keys m)
              /\ (forall k, In k (JSMap.keys m)
                            <-> exists ev, In ev done /\ month_of ev = k)
              /\ (forall k d,
                     In (k, d) m ->
                     (exists ev, In ev done /\ ForecastEvent.date ev = d)
                     /\ month_key d = k
                     /\ forall ev, In ev done -> month_of ev = k ->
                                   Str.le (ForecastEvent.date ev) d = true))).
  - split; [constructor|]. split.
    + intros k. simpl. split; [intros []|intros (ev & [] & _)].
    + intros k d [].
  - intros done ev0 m (Hnodup & Hkeys & Hmax).
    change (Str.slice0 7 (ForecastEvent.date ev0)) with (month_of ev0).
    set (dt := ForecastEvent.date ev0).
    assert (Hk0 : month_of ev0 = month_key dt) by reflexivity.
    set (k0 := month_of ev0) in *.
    assert (Hdone : forall ev, In ev (done ++ [ev0])
                               <-> In ev done \/ ev = ev0).
    { intros ev. rewrite in_app_iff. simpl. intuition. }
    destruct (replaces (JSMap.get m k0) dt) eqn:Hrep.
    + split; [apply set_nodup; exact Hnodup|]. split.
      * intros k. rewrite set_keys, Hkeys. split.
        -- intros [->|(ev & Hin & Hk)].
           ++ exists ev0. rewrite Hdone. auto.
           ++ exists ev. rewrite Hdone. auto.
        -- intros (ev & Hin & Hk). apply Hdone in Hin.
           destruct Hin as [Hin| ->]; [right; eauto|left; auto].
      * intros k d Hin. apply set_in in Hin; [|exact Hnodup].
        destruct Hin as [[-> ->]|[Hne Hin]].
        -- split; [exists ev0; rewrite Hdone; auto|].
           split; [symmetry; exact Hk0|].
           intros ev Hev Hk. apply Hdone in Hev.
           destruct Hev as [Hev| ->]; [|apply str_le_refl].
           assert (Hkey : In k0 (JSMap.keys m)) by (apply Hkeys; eauto).
           destruct (JSMap.get m k0) as [p|] eqn:Hget;
             [|apply get_none in Hget; contradiction].
           apply get_in in Hget; [|exact Hnodup].
           destruct (Hmax k0 p Hget) as (_ & _ & Hle).
           specialize (Hle ev Hev Hk).
           apply (str_le_trans _ p); [exact Hle|].
           simpl in Hrep. apply orb_true_iff in Hrep.
           destruct Hrep as [Hfalsy|Hgt].
           ++ apply negb_true_iff in Hfalsy. apply str_falsy in Hfalsy.
              subst p. apply str_empty_le.
           ++ apply str_gt_le. exact Hgt.
        -- destruct (Hmax k d Hin) as ((ev & Hev & Hd) & Hk & Hle).
           split; [exists ev; rewrite Hdone; auto|]. split; [exact Hk|].
           intros ev' Hev' Hk'. apply Hdone in Hev'.
           destruct Hev' as [Hev'| ->]; [auto|].
           exfalso. apply Hne. symmetry. exact Hk'.
    + destruct (JSMap.get m k0) as [p|] eqn:Hget; [|discriminate].
      simpl in Hrep. apply orb_false_iff in Hrep. destruct Hrep as [_ Hgt].
      apply get_in in Hget; [|exact Hnodup].
      split; [exact Hnodup|]. split.
      * intros k. rewrite Hkeys. split.
        -- intros (ev & Hin & Hk). exists ev. rewrite Hdone. auto.
        -- intros (ev & Hin & Hk). apply Hdone in Hin.
           destruct Hin as [Hin| ->]; [eauto|].
           destruct (Hmax k0 p Hget) as ((ev & Hev & Hd) & Hkp & _).
           exists ev. split; [exact Hev|].
           unfold month_of. rewrite Hd, Hkp. exact Hk.
      * intros k d Hin.
        destruct (Hmax k d Hin) as ((ev & Hev & Hd) & Hk & Hle).
        split; [exists ev; rewrite Hdone; auto|]. split; [exact Hk|].
        intros ev' Hev' Hk'. apply Hdone in Hev'.
        destruct Hev' as [Hev'| ->]; [auto|].
        assert (Hdp : d = p).
        { assert (Hd' : JSMap.get m k = Some d)
            by (apply get_in; assumption).
          assert (Hp' : JSMap.get m k0 = Some p)
            by (apply get_in; assumption).
          rewrite <- Hk' in Hd'. unfold k0 in Hp'. congruence. }
        rewrite Hdp. apply str_not_gt_le. exact Hgt.
Qed.

Lemma StronglySorted_map_in (A B : Type) (f : A -> B)
      (P : A -> A -> Prop) (Q : B -> B -> Prop) (l : list A) :
  (forall a b, In a l -> In b l -> P a b -> Q (f a) (f b)) ->
  StronglySorted P l -> StronglySorted Q (map f l).
Proof.
  intros Himp H. induction H as [|a l Hl IH Ha]; simpl; constructor.
  - apply IH. intros x y Hx Hy. apply Himp; simpl; auto.
  - apply Forall_forall. intros y Hy. apply in_map_iff in Hy.
    destruct Hy as (b & <- & Hb). apply Himp; simpl; auto.
    rewrite Forall_forall in Ha. apply Ha. exact Hb.
Qed.

Lemma StronglySorted_distinct (A B : Type) (f : A -> B)
      (P : A -> A -> Prop) (l : list A) :
  NoDup (map f l) -> StronglySorted P l ->
  StronglySorted (fun a b => P a b /\ f a <> f b) l.
Proof.
  intros Hn H. induction H as [|a l Hl IH Ha]; constructor.
  - apply IH. simpl in Hn. inversion Hn. assumption.
  - simpl in Hn. inversion Hn as [|? ? Hnotin _]. subst.
    rewrite Forall_forall in *. intros b Hb. split; [apply Ha; exact Hb|].
    intros E. apply Hnotin. rewrite E. apply in_map. exact Hb.
Qed.

(** X7. For a positive bonus amount, [generateBonusEvents] emits one event
    for each month key among the income events, with the flat amount, dated at
    the latest income date with that key, the keys in ascending order of
    [localeCompare] and no key twice; for an amount that is missing, not a
    number, zero or negative it emits nothing. *)
Theorem generateBonusEvents_months
        {R : Runtime} {C : Consistent R}
        (config : PaycheckConfig.t) (incomeEvents : list ForecastEvent.t) :
  let out := generateBonusEvents config incomeEvents in
  ((forall v, PaycheckConfig.monthlyBonusAmount config = Some v ->
              PrimFloat.ltb 0 v = false) ->
   out = [])
  /\ (forall v,
         PaycheckConfig.monthlyBonusAmount config = Some v ->
         PrimFloat.ltb 0 v = true ->
         NoDup (map month_of out)
         /\ (forall k, In k (map month_of out)
                       <-> exists ev, In ev incomeEvents /\ month_of ev = k)
         /\ Forall
              (fun b =>
                 ForecastEvent.type b = income
                 /\ ForecastEvent.amount b = v
                 /\ ForecastEvent.item b = "Monthly Bonus"
                 /\ ForecastEvent.category b = "income"
                 /\ ForecastEvent.sourceId b = None
                 /\ ForecastEvent.id b = ("bonus-" ++ month_of b)%string
                 /\ (exists ev, In ev incomeEvents
                                /\ ForecastEvent.date ev = ForecastEvent.date b)
                 /\ (forall ev, In ev incomeEvents ->
                                month_of ev = month_of b ->
                                Str.le (ForecastEvent.date ev)
                                       (ForecastEvent.date b) = true))
              out
         /\ StronglySorted
              (fun a b =>
                 (localeCompare (month_of a) (month_of b) <= 0)%Z
                 /\ month_of a <> month_of b)
              out).
Proof.
  intros out. split.
  - intros Hnot. subst out. unfold generateBonusEvents.
    rewrite (or_default_not_positive _ Hnot). reflexivity.
  - intros v Hv Hpos. subst out. unfold generateBonusEvents.
    rewrite Hv, (or_default_positive v Hpos), Hpos. simpl negb. cbv iota.
    destruct (lastPaycheckByMonth_spec incomeEvents) as (Hnodup & Hkeys & Hmax).
    cbv zeta in Hnodup, Hkeys, Hmax.
    set (m := lastPaycheckByMonth incomeEvents) in *.
    set (cmpk := fun a b : string * string => localeCompare (fst a) (fst b)).
    set (mk := fun entry : string * string =>
                 let '(monthKey, date) := entry in
                 ForecastEvent.mk ("bonus-" ++ monthKey)%string date income
                                  "Monthly Bonus" "income" v None).
    pose proof (sort_perm _ cmpk (JSMap.entries m)) as Hperm.
    unfold JSMap.entries in *.
    set (sorted := Arr.sort cmpk m) in *.
    assert (Hin : forall e, In e sorted <-> In e m).
    { intros e. split; apply Permutation_in;
        [exact Hperm|apply Permutation_sym; exact Hperm]. }
    assert (Hmonth : forall e, In e sorted -> month_of (mk e) = fst e).
    { intros [k d] He. apply Hin in He.
      destruct (Hmax k d He) as (_ & Hk & _). exact Hk. }
    assert (Hmonths : map month_of (map mk sorted) = map fst sorted).
    { rewrite map_map. apply map_ext_in. exact Hmonth. }
    assert (Hsortedkeys : NoDup (map fst sorted)).
    { eapply Permutation_NoDup; [|exact Hnodup].
      apply Permutation_map, Permutation_sym. exact Hperm. }
    split; [rewrite Hmonths; exact Hsortedkeys|]. split; [|split].
    + intros k. rewrite Hmonths, <- Hkeys. unfold JSMap.keys.
      split; apply Permutation_in;
        [apply Permutation_map; exact Hperm
        |apply Permutation_map, Permutation_sym; exact Hperm].
    + apply Forall_forall. intros b Hb. apply in_map_iff in Hb.
      destruct Hb as ([k d] & <- & He).
      pose proof (Hmonth (k, d) He) as Hk. simpl in Hk.
      apply Hin in He. destruct (Hmax k d He) as (Hex & _ & Hle).
      simpl. repeat split; auto.
      * rewrite Hk. reflexivity.
      * intros ev Hev Hmk. apply Hle; [exact Hev|].
        rewrite Hmk. exact Hk.
    + apply (StronglySorted_map_in _ _ mk
               (fun a b => Spec.cmp_le cmpk a b /\ fst a <> fst b)).
      * intros a b Ha Hb [Hle Hne].
        rewrite (Hmonth a Ha), (Hmonth b Hb). split; [exact Hle|exact Hne].
      * apply StronglySorted_distinct; [exact Hsortedkeys|].
        apply sort_sorted.
        -- intros a b. unfold Spec.cmp_le, cmpk.
           pose proof (collate_antisym (fst a) (fst b)). lia.
        -- intros a b c. unfold Spec.cmp_le, cmpk. apply collate_trans.
Qed.

(** Two paychecks in January 2024 and one in February, a bonus of 50. *)
Lemma generateBonusEvents_months_witness :
  NoDup
    (map month_of
         (@generateBonusEvents plain_runtime
            (ExampleConfigs.with_bonus (Some 50%float))
            [ExampleEvents.paycheck; ExampleEvents.paycheck_late])).
Proof.
  destruct (@generateBonusEvents_months plain_runtime plain_consistent
              (ExampleConfigs.with_bonus (Some 50%float))
              [ExampleEvents.paycheck; ExampleEvents.paycheck_late])
    as (_ & H).
  destruct (H 50%float eq_refl eq_refl) as (Hn & _). exact Hn.
Defined.

(** C6, where the code departs from it.  The guard is
    [!(bonusAmount > 0)], which an infinite amount passes although it is not
    a finite positive number: a bonus event with an infinite amount is
    emitted where none is due. *)
Theorem generateBonusEvents_infinite_bonus {R : Runtime} :
  Num.isFinite infinity = false
  /\ generateBonusEvents (ExampleConfigs.with_bonus (Some infinity))
                         [ExampleEvents.paycheck]
     = [ForecastEvent.mk "bonus-2024-01" "2024-01-05" income "Monthly Bonus"
                         "income" infinity None].
Proof. split; reflexivity. Qed.

End BonusEvents.
(* ------------------------------------------------------------------------- *)
(** ** Dates: the lengths of months *)

Section MonthFacts.

Import Calendar SpecCalendar.

Lemma doe_of_leap_day (yoe : Z) :
  0 <= yoe < 400 -> leap (yoe + 1) = true ->
  0 <= doe_of yoe 11 29 < 146097
  /\ split_doe (doe_of yoe 11 29) = (yoe, 11, 29).
Proof.
  intros Hy Hl. unfold leap in Hl.
  apply andb_prop in Hl. destruct Hl as [H4 H100].
  apply Z.eqb_eq in H4.
  assert (Hc : (yoe + 1) mod 100 <> 0 \/ (yoe + 1) mod 400 = 0).
  { apply orb_prop in H100. destruct H100 as [H|H].
    - left. apply negb_true_iff in H. apply Z.eqb_neq in H. exact H.
    - right. apply Z.eqb_eq in H. exact H. }
  unfold doe_of. change ((153 * 11 + 2) / 5 + 29 - 1) with 365.
  assert (Hdoe : let doe := yoe * 365 + yoe / 4 - yoe / 100 + 365 in
                 0 <= doe < 146097
                 /\ (doe - doe / 1460 + doe / 36524 - doe / 146096) / 365
                    = yoe).
  { cbv zeta. Z.to_euclidean_division_equations; lia. }
  cbv zeta in Hdoe.
  set (doe := yoe * 365 + yoe / 4 - yoe / 100 + 365) in *.
  destruct Hdoe as [Hr Hyoe]. split; [exact Hr|].
  unfold split_doe. rewrite Hyoe.
  replace (doe - (365 * yoe + yoe / 4 - yoe / 100)) with 365
    by (subst doe; lia).
  reflexivity.
Qed.

Lemma doe_of_long_month (yoe mp d : Z) :
  0 <= yoe < 400 -> 0 <= mp < 11 ->
  1 <= d <= (153 * (mp + 1) + 2) / 5 - (153 * mp + 2) / 5 ->
  0 <= doe_of yoe mp d < 146097
  /\ split_doe (doe_of yoe mp d) = (yoe, mp, d).
Proof.
  intros Hy Hm Hd. unfold doe_of.
  assert (Hdoy : let doy := (153 * mp + 2) / 5 + d - 1 in
                 0 <= doy <= 364 /\ (5 * doy + 2) / 153 = mp).
  { cbv zeta. Z.to_euclidean_division_equations; lia. }
  cbv zeta in Hdoy.
  set (doy := (153 * mp + 2) / 5 + d - 1) in *.
  destruct Hdoy as [Hdoy Hmp].
  assert (Hdoe : let doe := yoe * 365 + yoe / 4 - yoe / 100 + doy in
                 0 <= doe < 146097
                 /\ (doe - doe / 1460 + doe / 36524 - doe / 146096) / 365
                    = yoe).
  { cbv zeta. clearbody doy. Z.to_euclidean_division_equations; lia. }
  cbv zeta in Hdoe.
  set (doe := yoe * 365 + yoe / 4 - yoe / 100 + doy) in *.
  destruct Hdoe as [Hr Hyoe]. split; [exact Hr|].
  unfold split_doe. rewrite Hyoe.
  replace (doe - (365 * yoe + yoe / 4 - yoe / 100)) with doy
    by (subst doe; lia).
  rewrite Hmp. f_equal. subst doy. lia.
Qed.

Lemma leap_shift (z k : Z) : leap (z + 400 * k) = leap z.
Proof.
  unfold leap.
  replace ((z + 400 * k) mod 4) with (z mod 4)
    by (Z.to_euclidean_division_equations; lia).
  replace ((z + 400 * k) mod 100) with (z mod 100)
    by (Z.to_euclidean_division_equations; lia).
  replace ((z + 400 * k) mod 400) with (z mod 400)
    by (Z.to_euclidean_division_equations; lia).
  reflexivity.
Qed.

Lemma month_length_bounds (y m : Z) : 28 <= month_length y m <= 31.
Proof.
  unfold month_length.
  destruct (m =? 2); [destruct (leap y); lia|].
  destruct ((m =? 4) || (m =? 6) || (m =? 9) || (m =? 11)); lia.
Qed.

(** The month counted from March has the length the calendar gives it. *)
Lemma month_length_mp (y m : Z) :
  1 <= m <= 12 -> m <> 2 ->
  (153 * ((m + 9) mod 12 + 1) + 2) / 5 - (153 * ((m + 9) mod 12) + 2) / 5
  = month_length y m.
Proof.
  intros Hm H2.
  assert (m = 1 \/ m = 3 \/ m = 4 \/ m = 5 \/ m = 6 \/ m = 7
          \/ m = 8 \/ m = 9 \/ m = 10 \/ m = 11 \/ m = 12) as Hc by lia.
  repeat (destruct Hc as [->|Hc]; [reflexivity|]).
  subst m. reflexivity.
Qed.

(** The civil date of the day number of any day of a month is that day. *)
Lemma civil_from_days_month (y m d : Z) :
  1 <= m <= 12 -> 1 <= d <= month_length y m ->
  JSDate.civil_from_days (JSDate.days_from_civil y m d) = (y, m, d).
Proof.
  intros Hm Hd.
  destruct (Z_le_gt_dec d 28) as [Hs|Hl].
  { apply civil_from_days_from_civil; lia. }
  rewrite days_from_civil_unfold. cbv zeta.
  set (y' := if m <=? 2 then y - 1 else y).
  set (era := y' / 400).
  set (yoe := y' - era * 400).
  assert (Hyoe : 0 <= yoe < 400).
  { subst yoe era. pose proof (Z.div_mod y' 400 ltac:(lia)).
    pose proof (Z.mod_pos_bound y' 400 ltac:(lia)). lia. }
  destruct (mp_of_month m Hm) as (Hmp & Hback). cbv zeta in Hmp, Hback.
  assert (Hok : 0 <= doe_of yoe ((m + 9) mod 12) d < 146097
                /\ split_doe (doe_of yoe ((m + 9) mod 12) d)
                   = (yoe, (m + 9) mod 12, d)).
  { destruct (Z.eq_dec m 2) as [->|Hne].
    - change ((2 + 9) mod 12) with 11.
      unfold month_length in Hd. change (2 =? 2) with true in Hd.
      cbv iota in Hd.
      destruct (leap y) eqn:Hleap; [|lia].
      assert (d = 29) as -> by lia.
      apply doe_of_leap_day; [exact Hyoe|].
      subst yoe y'. change (2 <=? 2) with true. cbv iota.
      replace (y - 1 - era * 400 + 1) with (y + 400 * (- era)) by lia.
      rewrite leap_shift. exact Hleap.
    - apply doe_of_long_month; [exact Hyoe| |].
      + assert ((m + 9) mod 12 <> 11); [|lia].
        intros E.
        assert (m = 1 \/ m = 3 \/ m = 4 \/ m = 5 \/ m = 6 \/ m = 7
                \/ m = 8 \/ m = 9 \/ m = 10 \/ m = 11 \/ m = 12) as Hc by lia.
        repeat (destruct Hc as [->|Hc]; [discriminate E|]).
        subst m. discriminate E.
      + rewrite (month_length_mp y m Hm Hne). exact Hd. }
  set (mp := (m + 9) mod 12) in *.
  destruct Hok as [Hr Hj].
  rewrite civil_from_days_unfold. cbv zeta.
  set (doe := doe_of yoe mp d) in *.
  assert (He : (era * 146097 + doe - 719468 + 719468) / 146097 = era).
  { symmetry. apply (Z.div_unique _ 146097 era doe); lia. }
  rewrite He.
  replace (era * 146097 + doe - 719468 + 719468 - era * 146097) with doe
    by lia.
  rewrite Hj. rewrite Hback.
  assert (Hy : (if m <=? 2 then yoe + era * 400 + 1 else yoe + era * 400) = y).
  { subst yoe y'. destruct (m <=? 2); lia. }
  rewrite Hy. reflexivity.
Qed.

End MonthFacts.

(* ------------------------------------------------------------------------- *)
(** ** Dates: from one month to the next, [addMonths], [addYears] *)

Section MonthSteps.

Import Calendar SpecCalendar DateLib DateDiff.

Lemma twelve_cases (m : Z) :
  1 <= m <= 12 ->
  m = 1 \/ m = 2 \/ m = 3 \/ m = 4 \/ m = 5 \/ m = 6 \/ m = 7
  \/ m = 8 \/ m = 9 \/ m = 10 \/ m = 11 \/ m = 12.
Proof. lia. Qed.

Lemma february_length (y : Z) :
  JSDate.days_from_civil y 3 1
  = JSDate.days_from_civil y 2 1 + month_length y 2.
Proof.
  rewrite !days_from_civil_unfold. unfold doe_of.
  change (month_length y 2) with (if leap y then 29 else 28).
  change (3 <=? 2) with false. change (2 <=? 2) with true. cbv zeta iota.
  change ((153 * ((3 + 9) mod 12) + 2) / 5) with 0.
  change ((153 * ((2 + 9) mod 12) + 2) / 5) with 337.
  unfold leap.
  destruct (Z.eqb_spec (y mod 4) 0); destruct (Z.eqb_spec (y mod 100) 0);
    destruct (Z.eqb_spec (y mod 400) 0); cbn [andb orb negb];
    Z.to_euclidean_division_equations; lia.
Qed.

Lemma doy_step (y m m2 k : Z) :
  (m <=? 2) = (m2 <=? 2) ->
  (153 * ((m2 + 9) mod 12) + 2) / 5 - (153 * ((m + 9) mod 12) + 2) / 5 = k ->
  JSDate.days_from_civil y m2 1 = JSDate.days_from_civil y m 1 + k.
Proof.
  intros Hsame Hk. rewrite !days_from_civil_unfold. unfold doe_of. cbv zeta.
  rewrite Hsame. lia.
Qed.

Lemma december_length (y : Z) :
  JSDate.days_from_civil (y + 1) 1 1 = JSDate.days_from_civil y 12 1 + 31.
Proof.
  rewrite !days_from_civil_unfold. unfold doe_of. cbv zeta.
  change (1 <=? 2) with true. change (12 <=? 2) with false. cbv iota.
  replace (y + 1 - 1) with y by lia.
  change ((153 * ((1 + 9) mod 12) + 2) / 5) with 306.
  change ((153 * ((12 + 9) mod 12) + 2) / 5) with 275. lia.
Qed.

(** The first of the following month comes a month's length after the
    first of a month. *)
Lemma month_step (y m : Z) :
  1 <= m <= 12 ->
  let '(ny, nm) := SpecDate.following_month y m in
  JSDate.days_from_civil ny nm 1
  = JSDate.days_from_civil y m 1 + month_length y m.
Proof.
  intros Hm.
  destruct (twelve_cases m Hm)
    as [->|[->|[->|[->|[->|[->|[->|[->|[->|[->|[->| ->]]]]]]]]]]].
  - exact (doy_step y 1 2 31 eq_refl eq_refl).
  - exact (february_length y).
  - exact (doy_step y 3 4 31 eq_refl eq_refl).
  - exact (doy_step y 4 5 30 eq_refl eq_refl).
  - exact (doy_step y 5 6 31 eq_refl eq_refl).
  - exact (doy_step y 6 7 30 eq_refl eq_refl).
  - exact (doy_step y 7 8 31 eq_refl eq_refl).
  - exact (doy_step y 8 9 31 eq_refl eq_refl).
  - exact (doy_step y 9 10 30 eq_refl eq_refl).
  - exact (doy_step y 10 11 31 eq_refl eq_refl).
  - exact (doy_step y 11 12 30 eq_refl eq_refl).
  - exact (december_length y).
Qed.

End MonthSteps.

Section ClampFacts.

Import Calendar SpecCalendar DateLib DateDiff SpecDate.

Lemma MakeDay_norm (y mi d : Z) :
  JSDate.MakeDay y mi d
  = JSDate.days_from_civil (y + mi / 12) (mi mod 12 + 1) d.
Proof.
  unfold JSDate.MakeDay.
  rewrite (days_from_civil_day (y + mi / 12) (mi mod 12 + 1) d). lia.
Qed.

(** Day 0 of the following month is the last day of a month. *)
Lemma MakeDay_last (y m : Z) :
  1 <= m <= 12 ->
  JSDate.MakeDay y m 0 = JSDate.days_from_civil y m (month_length y m).
Proof.
  intros Hm. pose proof (month_step y m Hm) as Hstep.
  unfold following_month in Hstep.
  rewrite (days_from_civil_day y m (month_length y m)).
  destruct (Z.eqb_spec m 12) as [->|Hne].
  - rewrite MakeDay_december.
    rewrite (days_from_civil_day (y + 1) 1 0). lia.
  - rewrite MakeDay_in_year by lia.
    rewrite (days_from_civil_day y (m + 1) 0). lia.
Qed.

Lemma getters_month (y m d : Z) :
  1 <= m <= 12 -> 1 <= d <= month_length y m ->
  JSDate.getFullYear (JSDate.At (JSDate.days_from_civil y m d)) = Some y
  /\ JSDate.getMonth (JSDate.At (JSDate.days_from_civil y m d)) = Some (m - 1)
  /\ JSDate.getDate (JSDate.At (JSDate.days_from_civil y m d)) = Some d.
Proof.
  intros Hm Hd. unfold JSDate.getFullYear, JSDate.getMonth, JSDate.getDate.
  rewrite civil_from_days_month by assumption. auto.
Qed.

(** The day of the month of a date is a day of its month. *)
Lemma civil_day_in_month (n : Z) :
  let '(y, m, d) := JSDate.civil_from_days n in
  1 <= m <= 12 /\ 1 <= d <= month_length y m
  /\ JSDate.days_from_civil y m d = n.
Proof.
  pose proof (days_from_civil_from_days n) as H.
  destruct (JSDate.civil_from_days n) as [[y m] d] eqn:E.
  destruct H as (Hm & Hd & Hn).
  split; [exact Hm|]. split; [|exact Hn]. split; [lia|].
  destruct (Z_le_gt_dec d (month_length y m)) as [Hle|Hgt]; [exact Hle|].
  exfalso.
  pose proof (month_length_bounds y m) as Hlen.
  pose proof (month_step y m Hm) as Hstep.
  destruct (following_month y m) as [ny nm] eqn:Ef.
  assert (Hnm : 1 <= nm <= 12).
  { unfold following_month in Ef.
    destruct (m =? 12) eqn:E12; inversion Ef; subst; [lia|].
    apply Z.eqb_neq in E12. lia. }
  assert (Hc : JSDate.civil_from_days n = (ny, nm, d - month_length y m)).
  { rewrite <- Hn.
    replace (JSDate.days_from_civil y m d)
      with (JSDate.days_from_civil ny nm (d - month_length y m)).
    - apply civil_from_days_from_civil; lia.
    - rewrite (days_from_civil_day ny nm (d - month_length y m)).
      rewrite (days_from_civil_day y m d). lia. }
  rewrite E in Hc. injection Hc as _ _ Hd0. lia.
Qed.

(** What [addMonths] and [addYears] do once they have the first of the
    target month, in a year the constructor takes as it is: the day asked
    for, or the last day of the month when the month is shorter. *)
Lemma clamp_to_month (y m d : Z) :
  100 <= y <= 275000 -> 1 <= m <= 12 -> 1 <= d ->
  let result := JSDate.At (JSDate.days_from_civil y m 1) in
  JSDate.setDate result
    (Num.imin (Some d)
       (JSDate.getDate
          (JSDate.make (JSDate.getFullYear result)
                       (Num.add (JSDate.getMonth result) (Some 1))
                       (Some 0))))
  = JSDate.At (JSDate.days_from_civil y m (Z.min d (month_length y m))).
Proof.
  intros Hyr Hm Hd result. subst result.
  pose proof (month_length_bounds y m) as Hlen.
  destruct (getters_month y m 1 Hm ltac:(lia)) as (Hy & Hmo & _).
  unfold JSDate.setDate. rewrite Hy, Hmo.
  cbn [Num.add JSDate.make]. rewrite full_year_id by lia.
  replace (m - 1 + 1) with m by lia.
  rewrite (MakeDay_last y m Hm).
  rewrite TimeClip_in by (apply civil_in_range; lia).
  destruct (getters_month y m (month_length y m) Hm ltac:(lia))
    as (_ & _ & Hd').
  rewrite Hd'. cbn [Num.imin].
  rewrite MakeDay_in_year by lia.
  replace (m - 1 + 1) with m by lia.
  apply TimeClip_in. apply civil_in_range; lia.
Qed.

Lemma month_after_range (y m k : Z) :
  let '(y', m') := month_after y m k in 1 <= m' <= 12.
Proof.
  unfold month_after.
  pose proof (Z.mod_pos_bound (m - 1 + k) 12 ltac:(lia)). lia.
Qed.

Lemma addMonths_At (n k : Z) :
  regular n ->
  let '(y, m, d) := JSDate.civil_from_days n in
  let '(y', m') := month_after y m k in
  100 <= y' <= 275000 ->
  addMonths (JSDate.At n) k
  = JSDate.At (JSDate.days_from_civil y' m' (Z.min d (month_length y' m'))).
Proof.
  intros Hr. pose proof (startOfDay_regular n Hr) as Hs.
  unfold regular in Hr.
  pose proof (civil_day_in_month n) as H.
  pose proof (getters_At n) as Hg.
  destruct (JSDate.civil_from_days n) as [[y m] d].
  destruct H as (Hm & Hd & Hn). destruct Hg as (Hgy & Hgm & Hgd).
  pose proof (month_after_range y m k) as Hrange.
  destruct (month_after y m k) as [y' m'] eqn:E.
  unfold month_after in E. inversion E as [[Ey Em]]. intros Hy'.
  unfold addMonths. rewrite Hs. rewrite Hgy, Hgm, Hgd.
  cbn [Num.add JSDate.make]. rewrite full_year_id by lia.
  rewrite MakeDay_norm. rewrite Ey, Em.
  rewrite TimeClip_in by (apply civil_in_range; lia).
  apply (clamp_to_month y' m' d); lia.
Qed.

Lemma addYears_At (n k : Z) :
  regular n ->
  let '(y, m, d) := JSDate.civil_from_days n in
  100 <= y + k <= 275000 ->
  addYears (JSDate.At n) k
  = JSDate.At (JSDate.days_from_civil (y + k) m
                                      (Z.min d (month_length (y + k) m))).
Proof.
  intros Hr. pose proof (startOfDay_regular n Hr) as Hs.
  unfold regular in Hr.
  pose proof (civil_day_in_month n) as H.
  pose proof (getters_At n) as Hg.
  destruct (JSDate.civil_from_days n) as [[y m] d].
  destruct H as (Hm & Hd & Hn). destruct Hg as (Hgy & Hgm & Hgd).
  intros Hy'.
  unfold addYears. rewrite Hs. rewrite Hgy, Hgm, Hgd.
  cbn [Num.add JSDate.make]. rewrite full_year_id by lia.
  rewrite MakeDay_in_year by lia.
  replace (m - 1 + 1) with m by lia.
  rewrite TimeClip_in by (apply civil_in_range; lia).
  apply (clamp_to_month (y + k) m d); lia.
Qed.

End ClampFacts.

(* ------------------------------------------------------------------------- *)
(** ** [addDays], [differenceInDays], [addMonths], [addYears] *)

Section DateArithmetic.

Import Calendar SpecCalendar DateLib DateDiff SpecDate.

Lemma round_div_days (k : Z) : round_div (k * MS_PER_DAY) MS_PER_DAY = k.
Proof.
  unfold round_div. change MS_PER_DAY with 86400000.
  symmetry. apply (Z.div_unique _ _ k 86400000); lia.
Qed.

Lemma differenceInDays_At (a b : Z) :
  regular a -> regular b ->
  differenceInDays (JSDate.At a) (JSDate.At b) = Some (b - a).
Proof.
  intros Ha Hb. unfold differenceInDays.
  rewrite (startOfDay_regular a Ha), (startOfDay_regular b Hb).
  cbn [getTime].
  replace (b * MS_PER_DAY - a * MS_PER_DAY) with ((b - a) * MS_PER_DAY) by lia.
  rewrite round_div_days. reflexivity.
Qed.

Lemma addDays_At (n k : Z) :
  regular n -> regular (n + k) ->
  addDays (JSDate.At n) k = JSDate.At (n + k).
Proof.
  intros Hn Hk. rewrite (addDays_regular n k Hn).
  apply TimeClip_in, regular_in_range, Hk.
Qed.

(** X1. Between dates of the years 100 to 275000, [addDays] moves by
    exactly the days asked for, forward or back: two moves are the move by
    their sum, [differenceInDays] reads the move back, and it is the
    difference of the day numbers of any two such dates.  The invalid date
    stays invalid and has no distance to any date.  A date of the years 0
    to 99 is first moved 1900 years on, and a move that leads past the range
    of [Date] gives the invalid date. *)
Theorem addDays_differenceInDays :
  (forall n k,
      regular n -> regular (n + k) ->
      addDays (JSDate.At n) k = JSDate.At (n + k))
  /\ (forall n j k,
         regular n -> regular (n + j) -> regular (n + j + k) ->
         addDays (addDays (JSDate.At n) j) k = addDays (JSDate.At n) (j + k))
  /\ (forall n k,
         regular n -> regular (n + k) ->
         differenceInDays (JSDate.At n) (addDays (JSDate.At n) k) = Some k)
  /\ (forall n k,
         regular n -> regular (n + k) ->
         differenceInDays (addDays (JSDate.At n) k) (JSDate.At n)
         = Some (- k))
  /\ (forall a b,
         regular a -> regular b ->
         differenceInDays (JSDate.At a) (JSDate.At b) = Some (b - a))
  /\ (forall k, addDays JSDate.Invalid k = JSDate.Invalid)
  /\ (forall d, differenceInDays JSDate.Invalid d = None
                /\ differenceInDays d JSDate.Invalid = None)
  /\ civil (addDays (JSDate.At (JSDate.days_from_civil 2024 2 28)) 2)
     = Some (2024, 3, 1)
  /\ civil (addDays (JSDate.At (JSDate.days_from_civil 50 6 15)) 1)
     = Some (1950, 6, 16)
  /\ addDays (JSDate.At (JSDate.days_from_civil 275000 1 1)) 1000000
     = JSDate.Invalid.
Proof.
  split; [|split; [|split; [|split; [|split; [|split; [|split]]]]]].
  - exact addDays_At.
  - intros n j k Hn Hj Hk.
    rewrite (addDays_At n j Hn Hj), (addDays_At (n + j) k Hj Hk).
    replace (n + j + k) with (n + (j + k)) in Hk |- * by lia.
    rewrite (addDays_At n (j + k) Hn Hk). reflexivity.
  - intros n k Hn Hk.
    rewrite (addDays_At n k Hn Hk), (differenceInDays_At _ _ Hn Hk).
    f_equal. lia.
  - intros n k Hn Hk.
    rewrite (addDays_At n k Hn Hk), (differenceInDays_At _ _ Hk Hn).
    f_equal. lia.
  - exact differenceInDays_At.
  - intros k. reflexivity.
  - intros d. split; [reflexivity|].
    unfold differenceInDays.
    destruct (getTime (startOfDay d)); reflexivity.
  - vm_compute. auto.
Qed.

(** From 2024-01-01, thirty-one days on is 2024-02-01, and the distance
    is read back. *)
Lemma addDays_differenceInDays_witness :
  differenceInDays (JSDate.At 19723) (addDays (JSDate.At 19723) 31) = Some 31.
Proof.
  destruct addDays_differenceInDays as (_ & _ & H & _).
  apply H; vm_compute; split; discriminate.
Defined.

(** X2. From a date of the years 100 to 275000, [addMonths] lands in the
    month that many months on (back, for a negative count) when that month
    is of those years too: on the same day of the month, or on the last day
    of that month when the month is shorter, so that the day of the month
    never grows, and a day up to the 28th is kept.  A month added and a
    month taken need not give the date back: from 2024-01-31 a month on is
    2024-02-29, and two single months on is 2024-03-29, two days before two
    months on.  From a date of the years 0 to 99 the months are counted
    1900 years on. *)
Theorem addMonths_clamps (n k : Z) :
  (regular n ->
   let '(y, m, d) := JSDate.civil_from_days n in
   let '(y', m') := month_after y m k in
   100 <= y' <= 275000 ->
   civil (addMonths (JSDate.At n) k)
   = Some (y', m', Z.min d (month_length y' m'))
   /\ 1 <= m' <= 12
   /\ 1 <= Z.min d (month_length y' m') <= d
   /\ (d <= 28 -> Z.min d (month_length y' m') = d))
  /\ addMonths JSDate.Invalid k = JSDate.Invalid
  /\ civil (addMonths (JSDate.At (JSDate.days_from_civil 2024 1 31)) 1)
     = Some (2024, 2, 29)
  /\ civil
       (addMonths
          (addMonths (JSDate.At (JSDate.days_from_civil 2024 1 31)) 1) 1)
     = Some (2024, 3, 29)
  /\ civil (addMonths (JSDate.At (JSDate.days_from_civil 2024 1 31)) 2)
     = Some (2024, 3, 31)
  /\ civil (addMonths (JSDate.At (JSDate.days_from_civil 99 6 15)) 12)
     = Some (2000, 6, 15).
Proof.
  split; [|split; [reflexivity|]].
  - intros Hr. pose proof (addMonths_At n k Hr) as H.
    pose proof (civil_day_in_month n) as Hc.
    destruct (JSDate.civil_from_days n) as [[y m] d].
    pose proof (month_after_range y m k) as Hrange.
    destruct (month_after y m k) as [y' m'].
    destruct Hc as (Hm & Hd & _). intros Hy'.
    pose proof (month_length_bounds y' m') as Hlen.
    rewrite (H Hy'). unfold civil.
    rewrite civil_from_days_month by lia.
    split; [reflexivity|]. split; [exact Hrange|]. split; lia.
  - vm_compute. auto.
Qed.

(** From 2023-12-31, two months on is the 29th of February 2024. *)
Lemma addMonths_clamps_witness :
  civil (addMonths (JSDate.At 19722) 2) = Some (2024, 2, 29).
Proof.
  destruct (addMonths_clamps 19722 2) as (H & _).
  specialize (H ltac:(vm_compute; split; discriminate)).
  change (JSDate.civil_from_days 19722) with (2023, 12, 31) in H.
  cbv beta iota zeta in H.
  change (month_after 2023 12 2) with (2024, 2) in H.
  cbv beta iota zeta in H.
  destruct (H ltac:(lia)) as (Hc & _). exact Hc.
Defined.

(** X3. From a date of the years 100 to 275000, [addYears] lands in the
    same month that many years on when that year is of those years too, on
    the same day of the month; only the 29th of February moves, to the
    28th, when the year it lands in is not a leap year.  A count that leads
    into the years 0 to 99 lands 1900 years later. *)
Theorem addYears_clamps (n k : Z) :
  (regular n ->
   let '(y, m, d) := JSDate.civil_from_days n in
   100 <= y + k <= 275000 ->
   civil (addYears (JSDate.At n) k)
   = Some (y + k, m, Z.min d (month_length (y + k) m))
   /\ (Z.min d (month_length (y + k) m) = d
       \/ (m = 2 /\ d = 29 /\ leap (y + k) = false
           /\ Z.min d (month_length (y + k) m) = 28)))
  /\ addYears JSDate.Invalid k = JSDate.Invalid
  /\ civil (addYears (JSDate.At (JSDate.days_from_civil 2024 2 29)) 1)
     = Some (2025, 2, 28)
  /\ civil (addYears (JSDate.At (JSDate.days_from_civil 2024 2 29)) (-1950))
     = Some (1974, 2, 28).
Proof.
  split; [|split; [reflexivity|vm_compute; auto]].
  intros Hr. pose proof (addYears_At n k Hr) as H.
  pose proof (civil_day_in_month n) as Hc.
  destruct (JSDate.civil_from_days n) as [[y m] d].
  destruct Hc as (Hm & Hd & _). intros Hy'.
  pose proof (month_length_bounds (y + k) m) as Hlen.
  rewrite (H Hy'). unfold civil.
  rewrite civil_from_days_month by lia.
  split; [reflexivity|].
  unfold month_length in *.
  destruct (m =? 2) eqn:E2.
  - apply Z.eqb_eq in E2.
    destruct (leap (y + k)); destruct (leap y); lia.
  - left. destruct ((m =? 4) || (m =? 6) || (m =? 9) || (m =? 11)); lia.
Qed.

(** From the 29th of February 2024, four years on is the 29th of February
    2028. *)
Lemma addYears_clamps_witness :
  civil (addYears (JSDate.At 19782) 4) = Some (2028, 2, 29).
Proof.
  destruct (addYears_clamps 19782 4) as (H & _).
  specialize (H ltac:(vm_compute; split; discriminate)).
  change (JSDate.civil_from_days 19782) with (2024, 2, 29) in H.
  cbv beta iota zeta in H.
  destruct (H ltac:(lia)) as (Hc & _). exact Hc.
Defined.

End DateArithmetic.

(* ------------------------------------------------------------------------- *)
(** ** ISO dates: decimal digits *)

Section DecimalFacts.

Import IsoText.

Lemma of_lu_nat_N (d : Decimal.uint) :
  N.to_nat (DecimalPos.Unsigned.of_lu d) = DecimalNat.Unsigned.of_lu d.
Proof.
  induction d; cbn [DecimalPos.Unsigned.of_lu DecimalNat.Unsigned.of_lu];
    [reflexivity|..];
    rewrite ?N2Nat.inj_add, N2Nat.inj_mul, IHd; reflexivity.
Qed.

(** The decimal digits of a number do not depend on how it is counted. *)
Lemma to_uint_nat_N (n : nat) : Nat.to_uint n = N.to_uint (N.of_nat n).
Proof.
  set (d := N.to_uint (N.of_nat n)).
  assert (Hnorm : Decimal.unorm d = d).
  { subst d. rewrite <- (DecimalN.Unsigned.to_of (N.to_uint (N.of_nat n))).
    rewrite DecimalN.Unsigned.of_to. reflexivity. }
  assert (Hval : Nat.of_uint d = n).
  { rewrite DecimalNat.Unsigned.of_uint_alt, <- of_lu_nat_N.
    rewrite <- DecimalPos.Unsigned.of_uint_alt.
    change (Pos.of_uint d) with (N.of_uint d).
    subst d. rewrite DecimalN.Unsigned.of_to. apply Nat2N.id. }
  rewrite <- Hval at 1. rewrite DecimalNat.Unsigned.to_of. exact Hnorm.
Qed.

Lemma pad_bin_eq (w : nat) (n : Z) : Str.pad w n = pad_bin w n.
Proof.
  unfold Str.pad, pad_bin, Str.of_nat. rewrite to_uint_nat_N.
  rewrite Z_nat_N. reflexivity.
Qed.

Lemma digit_in (a : Z) : 0 <= a <= 9 -> In a digits10.
Proof.
  intros H.
  assert (a = 0 \/ a = 1 \/ a = 2 \/ a = 3 \/ a = 4 \/ a = 5 \/ a = 6
          \/ a = 7 \/ a = 8 \/ a = 9) as Hc by lia.
  unfold digits10. simpl. intuition auto.
Qed.

Lemma four_digits_checked :
  forallb (fun a => forallb (fun b => forallb (fun c => forallb (fun d =>
    padded_ok 4 9999 (1000 * a + 100 * b + 10 * c + d))
    digits10) digits10) digits10) digits10 = true.
Proof. vm_compute. reflexivity. Qed.

Lemma two_digits_checked :
  forallb (fun a => forallb (fun b => padded_ok 2 99 (10 * a + b))
    digits10) digits10 = true.
Proof. vm_compute. reflexivity. Qed.

Lemma four_digits_ok (v : Z) : 0 <= v <= 9999 -> padded_ok 4 9999 v = true.
Proof.
  intros H. pose proof four_digits_checked as Hall.
  rewrite forallb_forall in Hall.
  specialize (Hall (v / 1000)
                   ltac:(apply digit_in;
                         Z.to_euclidean_division_equations; lia)).
  rewrite forallb_forall in Hall.
  specialize (Hall ((v / 100) mod 10)
                   ltac:(apply digit_in;
                         Z.to_euclidean_division_equations; lia)).
  rewrite forallb_forall in Hall.
  specialize (Hall ((v / 10) mod 10)
                   ltac:(apply digit_in;
                         Z.to_euclidean_division_equations; lia)).
  rewrite forallb_forall in Hall.
  specialize (Hall (v mod 10)
                   ltac:(apply digit_in;
                         Z.to_euclidean_division_equations; lia)).
  replace (1000 * (v / 1000) + 100 * ((v / 100) mod 10)
           + 10 * ((v / 10) mod 10) + v mod 10) with v in Hall
    by (Z.to_euclidean_division_equations; lia).
  exact Hall.
Qed.

Lemma two_digits_ok (v : Z) : 0 <= v <= 99 -> padded_ok 2 99 v = true.
Proof.
  intros H. pose proof two_digits_checked as Hall.
  rewrite forallb_forall in Hall.
  specialize (Hall (v / 10)
                   ltac:(apply digit_in;
                         Z.to_euclidean_division_equations; lia)).
  rewrite forallb_forall in Hall.
  specialize (Hall (v mod 10)
                   ltac:(apply digit_in;
                         Z.to_euclidean_division_equations; lia)).
  replace (10 * (v / 10) + v mod 10) with v in Hall
    by (Z.to_euclidean_division_equations; lia).
  exact Hall.
Qed.

(** What a number written with [w] digits is known to satisfy. *)
Lemma padded_facts (w : nat) (top v : Z) :
  padded_ok w top v = true ->
  String.length (Str.pad w v) = w
  /\ nodash (Str.pad w v) = true
  /\ Num.to_integer (Plain.number (Str.pad w v)) = Some v
  /\ (v <> top ->
      String.compare (Str.pad w v) (Str.pad w (v + 1)) = Lt).
Proof.
  unfold padded_ok. rewrite !pad_bin_eq. intros H.
  apply andb_prop in H. destruct H as [H Hnext].
  apply andb_prop in H. destruct H as [H Hnum].
  apply andb_prop in H. destruct H as [Hlen Hdash].
  split; [apply Nat.eqb_eq; exact Hlen|]. split; [exact Hdash|]. split.
  - destruct (Num.to_integer (Plain.number (pad_bin w v))) as [x|];
      [|discriminate].
    apply Z.eqb_eq in Hnum. subst. reflexivity.
  - intros Hne. apply orb_prop in Hnext. destruct Hnext as [E|E].
    + apply Z.eqb_eq in E. contradiction.
    + destruct (String.compare (pad_bin w v) (pad_bin w (v + 1)));
        [discriminate|reflexivity|discriminate].
Qed.

End DecimalFacts.

(* ------------------------------------------------------------------------- *)
(** ** ISO dates: the text of a date, read back and compared *)

Section IsoFacts.

Import Calendar SpecCalendar DateLib IsoText.

Lemma slice0_app (a r : string) (k : nat) :
  Str.slice0 (String.length a + k) (a ++ r) = (a ++ Str.slice0 k r)%string.
Proof.
  unfold Str.slice0. induction a as [|c a IH]; simpl; [reflexivity|].
  rewrite IH. reflexivity.
Qed.

Lemma slice0_zero (s : string) : Str.slice0 0 s = "".
Proof. unfold Str.slice0. destruct s; reflexivity. Qed.

Lemma str_app_nil_r (s : string) : (s ++ "")%string = s.
Proof. induction s; simpl; congruence. Qed.

Lemma str_app_assoc (a b c : string) :
  ((a ++ b) ++ c)%string = (a ++ (b ++ c))%string.
Proof. induction a; simpl; congruence. Qed.

Lemma str_app_length (a b : string) :
  String.length (a ++ b) = (String.length a + String.length b)%nat.
Proof. induction a; simpl; congruence. Qed.

Lemma split_dash_word (a : string) :
  nodash a = true ->
  forall cur s, Str.split_dash cur (a ++ s) = Str.split_dash (cur ++ a) s.
Proof.
  induction a as [|c a IH]; simpl; intros Hn cur s.
  - rewrite str_app_nil_r. reflexivity.
  - apply andb_prop in Hn. destruct Hn as [Hc Ha].
    apply negb_true_iff in Hc. rewrite Hc. rewrite (IH Ha).
    rewrite str_app_assoc. reflexivity.
Qed.

Lemma split_three (a b c : string) :
  nodash a = true -> nodash b = true -> nodash c = true ->
  Str.split (a ++ "-" ++ b ++ "-" ++ c) = [a; b; c].
Proof.
  intros Ha Hb Hc. unfold Str.split.
  rewrite (split_dash_word a Ha). simpl.
  rewrite (split_dash_word b Hb). simpl.
  rewrite <- (str_app_nil_r c) at 1.
  rewrite (split_dash_word c Hc). reflexivity.
Qed.

Lemma compare_app (a b s t : string) :
  String.length a = String.length b ->
  String.compare (a ++ s) (b ++ t)
  = match String.compare a b with
    | Eq => String.compare s t
    | c => c
    end.
Proof.
  revert b. induction a as [|x a IH]; intros [|y b] Hlen; simpl in *;
    try discriminate; [reflexivity|].
  destruct (Ascii.compare x y); try reflexivity.
  apply IH. congruence.
Qed.

Lemma padded_step_range (w : nat) (top : Z) :
  (forall v, 0 <= v <= top -> padded_ok w top v = true) ->
  forall (k : nat) (v : Z),
    0 <= v -> v + Z.of_nat (S k) <= top ->
    String.compare (Str.pad w v) (Str.pad w (v + Z.of_nat (S k))) = Lt.
Proof.
  intros Hok. induction k as [|k IH]; intros v Hv Htop.
  - assert (Hr : 0 <= v <= top) by lia.
    destruct (padded_facts w top v (Hok v Hr)) as (_ & _ & _ & Hn).
    change (Z.of_nat 1) with 1. apply Hn. lia.
  - assert (Hr : 0 <= v + Z.of_nat (S k) <= top) by lia.
    eapply string_compare_lt_trans.
    + apply (IH v Hv). lia.
    + destruct (padded_facts w top (v + Z.of_nat (S k)) (Hok _ Hr))
        as (_ & _ & _ & Hn).
      replace (v + Z.of_nat (S (S k))) with (v + Z.of_nat (S k) + 1) by lia.
      apply Hn. lia.
Qed.

(** Numbers written with the same number of digits compare as numbers. *)
Lemma padded_compare (w : nat) (top : Z) :
  (forall v, 0 <= v <= top -> padded_ok w top v = true) ->
  forall u v, 0 <= u <= top -> 0 <= v <= top ->
    String.compare (Str.pad w u) (Str.pad w v) = (u ?= v).
Proof.
  intros Hok u v Hu Hv.
  destruct (Z.compare_spec u v) as [->|Hlt|Hgt].
  - apply string_compare_refl.
  - replace v with (u + Z.of_nat (S (Z.to_nat (v - u - 1)))) by lia.
    apply (padded_step_range w top Hok); lia.
  - rewrite String.compare_antisym.
    replace u with (v + Z.of_nat (S (Z.to_nat (u - v - 1)))) by lia.
    rewrite (padded_step_range w top Hok); [reflexivity|lia|lia].
Qed.

Lemma iso_of_length (y m d : Z) :
  0 <= y <= 9999 -> 0 <= m <= 99 -> 0 <= d <= 99 ->
  String.length (iso_of y m d) = 10%nat.
Proof.
  intros Hy Hm Hd. unfold iso_of.
  destruct (padded_facts 4 9999 y (four_digits_ok y Hy)) as (Ly & _).
  destruct (padded_facts 2 99 m (two_digits_ok m Hm)) as (Lm & _).
  destruct (padded_facts 2 99 d (two_digits_ok d Hd)) as (Ld & _).
  rewrite !str_app_length, Ly, Lm, Ld. reflexivity.
Qed.

Lemma iso_of_compare (y1 m1 d1 y2 m2 d2 : Z) :
  0 <= y1 <= 9999 -> 0 <= m1 <= 99 -> 0 <= d1 <= 99 ->
  0 <= y2 <= 9999 -> 0 <= m2 <= 99 -> 0 <= d2 <= 99 ->
  String.compare (iso_of y1 m1 d1) (iso_of y2 m2 d2)
  = civil_compare (y1, m1, d1) (y2, m2, d2).
Proof.
  intros Hy1 Hm1 Hd1 Hy2 Hm2 Hd2. unfold iso_of, civil_compare.
  destruct (padded_facts 4 9999 y1 (four_digits_ok y1 Hy1)) as (Ly1 & _).
  destruct (padded_facts 4 9999 y2 (four_digits_ok y2 Hy2)) as (Ly2 & _).
  destruct (padded_facts 2 99 m1 (two_digits_ok m1 Hm1)) as (Lm1 & _).
  destruct (padded_facts 2 99 m2 (two_digits_ok m2 Hm2)) as (Lm2 & _).
  rewrite compare_app by congruence.
  rewrite (padded_compare 4 9999 four_digits_ok y1 y2 Hy1 Hy2).
  destruct (y1 ?= y2); try reflexivity.
  rewrite (compare_app "-" "-") by reflexivity. simpl String.compare at 1.
  cbv iota.
  rewrite compare_app by congruence.
  rewrite (padded_compare 2 99 two_digits_ok m1 m2 Hm1 Hm2).
  destruct (m1 ?= m2); try reflexivity.
  rewrite (compare_app "-" "-") by reflexivity. simpl String.compare at 1.
  cbv iota.
  apply (padded_compare 2 99 two_digits_ok d1 d2 Hd1 Hd2).
Qed.

(** The text of a date of a year from 100 to 9999. *)
Lemma toISODate_text (n y m d : Z) :
  JSDate.civil_from_days n = (y, m, d) -> 100 <= y <= 9999 ->
  toISODate (JSDate.At n) = Some (iso_of y m d).
Proof.
  intros Hc Hy. pose proof (days_from_civil_from_days n) as Hr.
  rewrite Hc in Hr. destruct Hr as (Hm & Hd & _).
  assert (Hreg : SpecDate.regular n).
  { unfold SpecDate.regular. rewrite Hc. lia. }
  unfold toISODate. rewrite (startOfDay_regular n Hreg).
  unfold JSDate.toISOString.
  rewrite Hc.
  assert (Hin : (0 <=? y) && (y <=? 9999) = true).
  { apply andb_true_intro. split; apply Z.leb_le; lia. }
  rewrite Hin. cbn [option_map]. f_equal.
  pose proof (iso_of_length y m d ltac:(lia) ltac:(lia) ltac:(lia)) as Hlen.
  replace (Str.pad 4 y ++ "-" ++ Str.pad 2 m ++ "-" ++ Str.pad 2 d
             ++ "T00:00:00.000Z")%string
    with (iso_of y m d ++ "T00:00:00.000Z")%string
    by (unfold iso_of; rewrite !str_app_assoc; reflexivity).
  replace 10%nat with (String.length (iso_of y m d) + 0)%nat by lia.
  rewrite slice0_app, slice0_zero. apply str_app_nil_r.
Qed.

Lemma month_index_checked :
  forallb (fun m =>
             match Num.to_integer
                     (Plain.number (pad_bin 2 m) - 1)%float with
             | Some x => x =? m - 1
             | None => false
             end)
          [1; 2; 3; 4; 5; 6; 7; 8; 9; 10; 11; 12] = true.
Proof. vm_compute. reflexivity. Qed.

Lemma month_index (m : Z) :
  1 <= m <= 12 ->
  Num.to_integer (Plain.number (Str.pad 2 m) - 1)%float = Some (m - 1).
Proof.
  intros Hm. pose proof month_index_checked as Hall.
  rewrite forallb_forall in Hall. specialize (Hall m).
  rewrite pad_bin_eq.
  destruct (Num.to_integer (Plain.number (pad_bin 2 m) - 1)%float) as [x|].
  - f_equal. apply Z.eqb_eq. apply Hall.
    destruct (twelve_cases m Hm)
      as [->|[->|[->|[->|[->|[->|[->|[->|[->|[->|[->| ->]]]]]]]]]]];
      simpl; auto 13.
  - exfalso. assert (false = true); [|discriminate]. apply Hall.
    destruct (twelve_cases m Hm)
      as [->|[->|[->|[->|[->|[->|[->|[->|[->|[->|[->| ->]]]]]]]]]]];
      simpl; auto 13.
Qed.

(** The text of year, month and day is read as the day that many days
    into the month, in a year from 100 to 9999. *)
Lemma parseISODate_text (y m d : Z) :
  100 <= y <= 9999 -> 1 <= m <= 12 -> 1 <= d <= 31 ->
  @parseISODate plain_runtime (iso_of y m d)
  = JSDate.At (JSDate.days_from_civil y m d).
Proof.
  intros Hy Hm Hd.
  destruct (padded_facts 4 9999 y (four_digits_ok y ltac:(lia)))
    as (_ & Dy & Ny & _).
  destruct (padded_facts 2 99 m (two_digits_ok m ltac:(lia)))
    as (_ & Dm & _ & _).
  destruct (padded_facts 2 99 d (two_digits_ok d ltac:(lia)))
    as (_ & Dd & Nd & _).
  unfold parseISODate, iso_of. rewrite (split_three _ _ _ Dy Dm Dd).
  cbn [map nth_error Num.nullish Number_of_string plain_runtime].
  unfold JSDate.make_num. rewrite Ny, Nd, (month_index m Hm).
  cbn [JSDate.make]. rewrite full_year_id by lia.
  rewrite MakeDay_in_year by lia.
  replace (m - 1 + 1) with m by lia.
  apply TimeClip_in. apply civil_in_range; lia.
Qed.

End IsoFacts.

(* ------------------------------------------------------------------------- *)
(** ** ISO dates: the order of dates is the order of their texts *)

Section CivilOrder.

Import Calendar SpecCalendar DateLib IsoText.

(** The first of the month [i] months after January of year 0. *)
Lemma month_first_step (i : Z) :
  JSDate.MakeDay 0 (i + 1) 1
  = JSDate.MakeDay 0 i 1 + month_length (i / 12) (i mod 12 + 1).
Proof.
  rewrite !MakeDay_norm.
  pose proof (Z.mod_pos_bound i 12 ltac:(lia)) as Hr.
  pose proof (month_step (i / 12) (i mod 12 + 1) ltac:(lia)) as Hstep.
  unfold SpecDate.following_month in Hstep.
  destruct (Z.eqb_spec (i mod 12 + 1) 12) as [E|E].
  - replace ((i + 1) / 12) with (i / 12 + 1)
      by (Z.to_euclidean_division_equations; lia).
    replace ((i + 1) mod 12 + 1) with 1
      by (Z.to_euclidean_division_equations; lia).
    rewrite !Z.add_0_l. exact Hstep.
  - replace ((i + 1) / 12) with (i / 12)
      by (Z.to_euclidean_division_equations; lia).
    replace ((i + 1) mod 12 + 1) with (i mod 12 + 1 + 1)
      by (Z.to_euclidean_division_equations; lia).
    rewrite !Z.add_0_l. exact Hstep.
Qed.

Lemma month_first_mono (i : Z) (k : nat) :
  JSDate.MakeDay 0 i 1 + 28 * Z.of_nat k
  <= JSDate.MakeDay 0 (i + Z.of_nat k) 1.
Proof.
  induction k as [|k IH].
  - change (Z.of_nat 0) with 0. rewrite (Z.add_0_r i). lia.
  - replace (i + Z.of_nat (S k)) with (i + Z.of_nat k + 1) by lia.
    rewrite month_first_step.
    pose proof (month_length_bounds ((i + Z.of_nat k) / 12)
                                    ((i + Z.of_nat k) mod 12 + 1)).
    lia.
Qed.

Lemma month_first_of (y m : Z) :
  1 <= m <= 12 ->
  JSDate.MakeDay 0 (12 * y + (m - 1)) 1 = JSDate.days_from_civil y m 1.
Proof.
  intros Hm. rewrite MakeDay_norm.
  replace ((12 * y + (m - 1)) / 12) with y
    by (Z.to_euclidean_division_equations; lia).
  replace ((12 * y + (m - 1)) mod 12 + 1) with m
    by (Z.to_euclidean_division_equations; lia).
  reflexivity.
Qed.

(** A day lies from the first of its month up to the day before the first
    of the next. *)
Lemma day_in_month_span (n : Z) :
  let '(y, m, d) := JSDate.civil_from_days n in
  let i := 12 * y + (m - 1) in
  1 <= m <= 12 /\ n = JSDate.MakeDay 0 i 1 + d - 1
  /\ JSDate.MakeDay 0 i 1 <= n < JSDate.MakeDay 0 (i + 1) 1.
Proof.
  pose proof (civil_day_in_month n) as H.
  destruct (JSDate.civil_from_days n) as [[y m] d].
  destruct H as (Hm & Hd & Hn). cbv zeta.
  rewrite month_first_step, (month_first_of y m Hm).
  replace ((12 * y + (m - 1)) / 12) with y
    by (Z.to_euclidean_division_equations; lia).
  replace ((12 * y + (m - 1)) mod 12 + 1) with m
    by (Z.to_euclidean_division_equations; lia).
  rewrite (days_from_civil_day y m d) in Hn. lia.
Qed.

Lemma civil_compare_lt (a b : Z) :
  civil_compare (JSDate.civil_from_days a) (JSDate.civil_from_days b) = Lt ->
  a < b.
Proof.
  pose proof (day_in_month_span a) as Ha.
  pose proof (day_in_month_span b) as Hb.
  destruct (JSDate.civil_from_days a) as [[y1 m1] d1].
  destruct (JSDate.civil_from_days b) as [[y2 m2] d2].
  cbv zeta in Ha, Hb.
  destruct Ha as (Hm1 & Ha & Hlo1 & Hhi1).
  destruct Hb as (Hm2 & Hb & Hlo2 & Hhi2).
  unfold civil_compare. intros Hlt.
  assert (Hidx : 12 * y1 + (m1 - 1) < 12 * y2 + (m2 - 1)
                 \/ (12 * y1 + (m1 - 1) = 12 * y2 + (m2 - 1) /\ d1 < d2)).
  { destruct (Z.compare_spec y1 y2) as [->|Hy|Hy]; try discriminate;
      [|left; lia].
    destruct (Z.compare_spec m1 m2) as [->|Hm|Hm]; try discriminate;
      [|left; lia].
    right. split; [reflexivity|]. apply Z.compare_lt_iff. exact Hlt. }
  destruct Hidx as [Hidx|[Hidx Hd]].
  - pose proof (month_first_mono
                  (12 * y1 + (m1 - 1) + 1)
                  (Z.to_nat (12 * y2 + (m2 - 1)
                             - (12 * y1 + (m1 - 1) + 1)))) as Hmono.
    rewrite Z2Nat.id in Hmono by lia.
    replace (12 * y1 + (m1 - 1) + 1
             + (12 * y2 + (m2 - 1) - (12 * y1 + (m1 - 1) + 1)))
      with (12 * y2 + (m2 - 1)) in Hmono by lia.
    lia.
  - rewrite Hidx in Ha. lia.
Qed.

Lemma civil_compare_antisym (s t : Z * Z * Z) :
  civil_compare t s = CompOpp (civil_compare s t).
Proof.
  destruct s as [[y1 m1] d1], t as [[y2 m2] d2]. unfold civil_compare.
  rewrite (Z.compare_antisym y2 y1), (Z.compare_antisym m2 m1),
    (Z.compare_antisym d2 d1).
  destruct (y2 ?= y1), (m2 ?= m1), (d2 ?= d1); reflexivity.
Qed.

Lemma civil_compare_eq (s t : Z * Z * Z) :
  civil_compare s t = Eq -> s = t.
Proof.
  destruct s as [[y1 m1] d1], t as [[y2 m2] d2]. unfold civil_compare.
  destruct (Z.compare_spec y1 y2) as [Ey| |]; try discriminate.
  destruct (Z.compare_spec m1 m2) as [Em| |]; try discriminate.
  intros Ed. apply Z.compare_eq in Ed. congruence.
Qed.

(** Dates compare as their civil dates compare. *)
Lemma civil_compare_days (a b : Z) :
  civil_compare (JSDate.civil_from_days a) (JSDate.civil_from_days b)
  = (a ?= b).
Proof.
  destruct (civil_compare (JSDate.civil_from_days a)
                          (JSDate.civil_from_days b)) eqn:E.
  - apply civil_compare_eq in E.
    pose proof (days_from_civil_from_days a) as Ha.
    pose proof (days_from_civil_from_days b) as Hb.
    rewrite E in Ha.
    destruct (JSDate.civil_from_days b) as [[y m] d].
    destruct Ha as (_ & _ & Ha). destruct Hb as (_ & _ & Hb).
    symmetry. apply Z.compare_eq_iff. congruence.
  - symmetry. apply Z.compare_lt_iff. apply civil_compare_lt. exact E.
  - symmetry. apply Z.compare_gt_iff. apply civil_compare_lt.
    rewrite civil_compare_antisym, E. reflexivity.
Qed.

(** X4. [parseISODate] reads the ten characters year-month-day of a day of
    a month, in a year from 100 to 9999, as that day.  It checks neither the
    day nor the year: a day past the end of its month is read as a day of
    the next month, and a year from 0 to 99 as a year from 1900 to 1999. *)
Theorem parseISODate_reads (y m d : Z) :
  100 <= y <= 9999 -> 1 <= m <= 12 -> 1 <= d <= month_length y m ->
  String.length (iso_of y m d) = 10%nat
  /\ @parseISODate plain_runtime (iso_of y m d)
     = JSDate.At (JSDate.days_from_civil y m d)
  /\ SpecDate.civil (@parseISODate plain_runtime (iso_of y m d))
     = Some (y, m, d)
  /\ SpecDate.civil (@parseISODate plain_runtime "2024-02-31")
     = Some (2024, 3, 2)
  /\ SpecDate.civil (@parseISODate plain_runtime "0050-01-01")
     = Some (1950, 1, 1).
Proof.
  intros Hy Hm Hd. pose proof (month_length_bounds y m) as Hlen.
  split; [apply iso_of_length; lia|].
  assert (Hp : @parseISODate plain_runtime (iso_of y m d)
               = JSDate.At (JSDate.days_from_civil y m d))
    by (apply parseISODate_text; lia).
  split; [exact Hp|]. split; [|vm_compute; auto].
  rewrite Hp. unfold SpecDate.civil.
  rewrite civil_from_days_month by assumption. reflexivity.
Qed.

(** The text 2024-01-01 is read as the first of January 2024. *)
Lemma parseISODate_reads_witness :
  @parseISODate plain_runtime "2024-01-01" = JSDate.At 19723.
Proof.
  destruct (parseISODate_reads 2024 1 1 ltac:(lia) ltac:(lia)
                               ltac:(vm_compute; split; discriminate))
    as (_ & Hp & _).
  exact Hp.
Defined.

(** X5. The texts of two dates of four-digit years compare, as strings, the
    way the dates compare: [<], [<=] and [>] on the texts, and the plain
    collation, agree with the order of the days, and the texts are equal
    only for equal dates. *)
Theorem toISODate_order (a b : Z) (sa sb : string) :
  plain_year a -> plain_year b ->
  toISODate (JSDate.At a) = Some sa -> toISODate (JSDate.At b) = Some sb ->
  Str.lt sa sb = (a <? b)
  /\ Str.le sa sb = (a <=? b)
  /\ Str.gt sa sb = (b <? a)
  /\ (sa = sb <-> a = b)
  /\ (Plain.collate sa sb < 0 <-> a < b).
Proof.
  unfold plain_year. intros Ya Yb Ha Hb.
  pose proof (days_from_civil_from_days a) as Ra.
  pose proof (days_from_civil_from_days b) as Rb.
  pose proof (civil_compare_days a b) as Hord.
  destruct (JSDate.civil_from_days a) as [[y1 m1] d1] eqn:Ea.
  destruct (JSDate.civil_from_days b) as [[y2 m2] d2] eqn:Eb.
  destruct Ra as (Hm1 & Hd1 & _). destruct Rb as (Hm2 & Hd2 & _).
  rewrite (toISODate_text a y1 m1 d1 Ea ltac:(lia)) in Ha.
  rewrite (toISODate_text b y2 m2 d2 Eb ltac:(lia)) in Hb.
  injection Ha as <-. injection Hb as <-.
  assert (Hcmp : String.compare (iso_of y1 m1 d1) (iso_of y2 m2 d2)
                 = (a ?= b)).
  { rewrite <- Hord. apply iso_of_compare; lia. }
  unfold Str.lt, Str.le, Str.gt, String.ltb, String.leb, Plain.collate.
  rewrite (String.compare_antisym (iso_of y2 m2 d2) (iso_of y1 m1 d1)).
  rewrite Hcmp. unfold Z.ltb, Z.leb. rewrite (Z.compare_antisym a b).
  split; [destruct (a ?= b); reflexivity|].
  split; [destruct (a ?= b); reflexivity|].
  split; [destruct (a ?= b); reflexivity|].
  split.
  - split.
    + intros E. rewrite E, string_compare_refl in Hcmp.
      symmetry in Hcmp. apply Z.compare_eq in Hcmp. exact Hcmp.
    + intros ->. rewrite Z.compare_refl in Hcmp.
      apply String.compare_eq_iff in Hcmp. exact Hcmp.
  - clear Hord Hcmp. destruct (a ?= b) eqn:E.
    + apply Z.compare_eq_iff in E. lia.
    + split; intros _; [exact E|reflexivity].
    + split; intros H; [discriminate H|].
      unfold Z.lt in H. rewrite E in H. discriminate H.
Qed.

(** The first of January and the first of February 2024. *)
Lemma toISODate_order_witness :
  Str.lt "2024-01-01" "2024-02-01" = true.
Proof.
  destruct (toISODate_order 19723 19754 "2024-01-01" "2024-02-01"
              ltac:(vm_compute; split; discriminate)
              ltac:(vm_compute; split; discriminate)
              eq_refl eq_refl) as (H & _).
  exact H.
Defined.

End CivilOrder.
